(** * Transcript classifier: a shallow embedding of [src/classifier/classifier.py]

    The development follows the source file top to bottom:

    - Python strings ([str.strip], [str.split], [str.join], slicing);
    - Python floats as IEEE binary64 values ([spec_float]) and the reading of
      decimal literals;
    - the two library services the module calls, [re] (a backtracking matcher
      for the constructs its three patterns use) and [json.loads], with the
      two limits of the interpreter under which it gives up on a JSON text
      (the digits of an integer, the nesting of containers);
    - [parse_json_response], [heuristic_fallback], the two adapters
      [classify_with_local] / [classify_with_api] and the endpoint [classify],
      written in a small state-and-exception monad whose state is the log of
      adapter invocations;
    - what the statements are written with: the whitespace tokens of a text
      and the grammar of JSON texts, both given without reference to the
      functions that compute them;
    - the properties of the specification, one theorem per claim, and further
      properties of the code. *)

From Stdlib Require Import List NArith ZArith Bool Lia.
From Stdlib Require String Ascii.
From Stdlib Require Import Floats.SpecFloat.
Import ListNotations.

Set Implicit Arguments.
Import String.StringSyntax.
Delimit Scope string_scope with string.

(* ===================================================================== *)
(** * Python strings *)
(* ===================================================================== *)

Module PyStr.

(** A Python [str] is a sequence of Unicode code points. *)
Definition char := N.
Definition str := list char.

(** Source literals are written as Rocq strings and read code point by code
    point ([lit "abc"] is the Python literal ['abc']); the literals used
    here are ASCII. *)
Definition lit (s : String.string) : str :=
  List.map Ascii.N_of_ascii (String.list_ascii_of_string s).
Arguments lit s%_string.

(** The JSON fixtures below contain double quotes; they are written with
    single quotes and [jq] turns each single quote into a double quote
    (code point 34). *)
Definition jq (s : String.string) : str :=
  List.map (fun c => if N.eqb c 39 then 34%N else c) (lit s).
Arguments jq s%_string.

Definition str_eqb (a b : str) : bool :=
  if list_eq_dec N.eq_dec a b then true else false.

(** [str.isspace] on one character (CPython's [_PyUnicode_IsWhitespace]).
    [str.strip()], [str.split()] and the [\s] class of [re] on [str] patterns
    all use this predicate. *)
Definition is_space (c : char) : bool :=
  ((9 <=? c) && (c <=? 13) || (28 <=? c) && (c <=? 32)
   || (c =? 133) || (c =? 160) || (c =? 5760)
   || (8192 <=? c) && (c <=? 8202)
   || (c =? 8232) || (c =? 8233) || (c =? 8239) || (c =? 8287)
   || (c =? 12288))%N.

Fixpoint lstrip (s : str) : str :=
  match s with
  | c :: t => if is_space c then lstrip t else s
  | [] => []
  end.

Definition rstrip (s : str) : str := rev (lstrip (rev s)).

(** [s.strip()] *)
Definition strip (s : str) : str := rstrip (lstrip s).

(** [s.split()]: maximal runs of non-whitespace characters, in order.  [cur]
    is the run being read, most recent character first. *)
Fixpoint split_from (cur : str) (s : str) : list str :=
  match s with
  | [] => match cur with [] => [] | _ => [rev cur] end
  | c :: t =>
      if is_space c
      then match cur with
           | [] => split_from [] t
           | _ => rev cur :: split_from [] t
           end
      else split_from (c :: cur) t
  end.

Definition split (s : str) : list str := split_from [] s.

(** [sep.join(parts)] *)
Fixpoint join (sep : str) (parts : list str) : str :=
  match parts with
  | [] => []
  | [p] => p
  | p :: rest => p ++ sep ++ join sep rest
  end.

(** [xs[:n]] for a non-negative [n] *)
Definition slice_to {A} (n : nat) (xs : list A) : list A := firstn n xs.

End PyStr.
Import PyStr.

(* ===================================================================== *)
(** * Python floats *)
(* ===================================================================== *)

Module PyFloat.

(** Python's [float] is IEEE 754 binary64. *)
Definition prec : Z := 53.
Definition emax : Z := 1024.

Definition float := spec_float.

(** The value of a decimal numeral [m * 10^e] ([m >= 0], sign given apart),
    rounded to nearest-even: what Python does when it reads a float literal
    (in the source or in a JSON document). *)
Definition of_decimal (neg : bool) (m : Z) (e : Z) : float :=
  match m with
  | Z0 => S754_zero neg
  | Zpos p =>
      if (0 <=? e)%Z
      then binary_round prec emax neg (p * Z.to_pos (10 ^ e)) 0
      else
        let '(q, e', l) :=
          SFdiv_core_binary prec emax (Zpos p) 0 (10 ^ (- e))%Z 0 in
        binary_round_aux prec emax neg q e' l
  | Zneg _ => S754_nan
  end.

(** [float(n)] for a Python int [n]. *)
Definition of_int (n : Z) : float := binary_normalize prec emax n 0 false.

Definition ltb (a b : float) : bool := SFltb a b.
Definition leb (a b : float) : bool := SFleb a b.

(** Comparison of a Python int with a float, which Python carries out on the
    exact values. *)
Definition int_compare (n : Z) (f : float) : option comparison :=
  match f with
  | S754_nan => None
  | S754_infinity s => Some (if s then Gt else Lt)
  | S754_zero _ => Some (Z.compare n 0)
  | S754_finite s m e =>
      let v := if s then Zneg m else Zpos m in
      Some (if (0 <=? e)%Z
            then Z.compare n (v * 2 ^ e)
            else Z.compare (n * 2 ^ (- e)) v)%Z
  end.

Definition int_ltb (n : Z) (f : float) : bool :=
  match int_compare n f with Some Lt => true | _ => false end.

Definition int_leb_rev (f : float) (n : Z) : bool :=
  match int_compare n f with Some (Gt | Eq) => true | _ => false end.

End PyFloat.

(** The three float literals of the module. *)
Definition f_0_7 : PyFloat.float := Eval vm_compute in PyFloat.of_decimal false 7 (-1).
Definition f_0_3 : PyFloat.float := Eval vm_compute in PyFloat.of_decimal false 3 (-1).
Definition f_0_5 : PyFloat.float := Eval vm_compute in PyFloat.of_decimal false 5 (-1).
Definition f_0_0 : PyFloat.float := S754_zero false.
Definition f_1_0 : PyFloat.float := Eval vm_compute in PyFloat.of_int 1.

(* ===================================================================== *)
(** * The [re] module: a backtracking matcher *)
(* ===================================================================== *)

Module Re.

(** The constructs used by the three patterns of the module.  [Star] is a
    greedy [c*] over a character class, [StarLazy] the non-greedy [c*?],
    [Opt] a greedy [(?:r)?], [Group] the capturing group 1, [Bol] is [^] and
    [Eol] is [$] (both without [re.MULTILINE]). *)
Inductive regex :=
| Lit (l : str)
| Opt (r : regex)
| Star (p : char -> bool)
| StarLazy (p : char -> bool)
| Cat (r1 r2 : regex)
| Group (r : regex)
| Bol
| Eol.

(** A position of the matcher in the subject: the offset [pos], the text
    [rest] from that offset on, and the text captured by group 1 so far. *)
Record mstate := MState { pos : nat; rest : str; grp : option str }.

Fixpoint strip_prefix (l s : str) : option str :=
  match l, s with
  | [], _ => Some s
  | a :: l', b :: s' => if N.eqb a b then strip_prefix l' s' else None
  | _ :: _, [] => None
  end.

Section Run.
Context {A : Type}.

(** Greedy repetition: take one more character when possible, come back to
    the shorter repetition when the continuation fails. *)
Fixpoint greedy (p : char -> bool) (n : nat) (s : str) (g : option str)
         (k : mstate -> option A) : option A :=
  match s with
  | c :: t =>
      if p c
      then match greedy p (S n) t g k with
           | Some a => Some a
           | None => k (MState n s g)
           end
      else k (MState n s g)
  | [] => k (MState n [] g)
  end.

(** Non-greedy repetition: try the continuation first, take one more
    character only when it fails. *)
Fixpoint lazy (p : char -> bool) (n : nat) (s : str) (g : option str)
         (k : mstate -> option A) : option A :=
  match k (MState n s g) with
  | Some a => Some a
  | None =>
      match s with
      | c :: t => if p c then lazy p (S n) t g k else None
      | [] => None
      end
  end.

(** [run r st k]: match [r] at [st] and hand the position reached to the
    continuation [k]; alternatives are tried in the order of the engine. *)
Fixpoint run (r : regex) (st : mstate) (k : mstate -> option A) : option A :=
  match r with
  | Lit l =>
      match strip_prefix l (rest st) with
      | Some s' => k (MState (pos st + length l) s' (grp st))
      | None => None
      end
  | Opt r1 =>
      match run r1 st k with
      | Some a => Some a
      | None => k st
      end
  | Star p => greedy p (pos st) (rest st) (grp st) k
  | StarLazy p => lazy p (pos st) (rest st) (grp st) k
  | Cat r1 r2 => run r1 st (fun st1 => run r2 st1 k)
  | Group r1 =>
      run r1 st (fun st1 =>
        k (MState (pos st1) (rest st1)
                  (Some (firstn (pos st1 - pos st) (rest st)))))
  | Bol => match pos st with O => k st | S _ => None end
  | Eol =>
      match rest st with
      | [] => k st
      | [c] => if N.eqb c 10 then k st else None
      | _ => None
      end
  end.
End Run.

(** One attempt at offset [n]: the end offset and group 1 of the match. *)
Definition match_at (r : regex) (n : nat) (s : str) : option (nat * option str) :=
  run r (MState n s None) (fun st => Some (pos st, grp st)).

(** [re.search(r, text)]: the match at the leftmost offset that has one. *)
Fixpoint search_from (r : regex) (n : nat) (s : str) : option (nat * option str) :=
  match match_at r n s with
  | Some m => Some m
  | None =>
      match s with
      | [] => None
      | _ :: t => search_from r (S n) t
      end
  end.

Definition search (r : regex) (text : str) : option (nat * option str) :=
  search_from r 0 text.

(** [re.sub(r, '', text)]: every non-overlapping match, leftmost first, is
    deleted.  [skip] counts the characters of the current match still to
    drop. *)
Fixpoint sub_from (r : regex) (skip : nat) (n : nat) (s : str) : str :=
  match s with
  | [] => []
  | c :: t =>
      match skip with
      | S j => sub_from r j (S n) t
      | O =>
          match match_at r n s with
          | Some (e, _) =>
              match e - n with
              | O => c :: sub_from r 0 (S n) t
              | S j => sub_from r j (S n) t
              end
          | None => c :: sub_from r 0 (S n) t
          end
      end
  end.

Definition sub_empty (r : regex) (text : str) : str := sub_from r 0 0 text.

End Re.

(* ===================================================================== *)
(** * Python values and [json.loads] *)
(* ===================================================================== *)

(** The values [json.loads] produces.  A [dict] keeps its keys in insertion
    order and holds each key once. *)
Unset Elimination Schemes.
Inductive value :=
| VNone
| VBool (b : bool)
| VInt (n : Z)
| VFloat (f : PyFloat.float)
| VStr (s : str)
| VList (l : list value)
| VDict (d : list (str * value)).
Set Elimination Schemes.

Module Dict.

Definition dict := list (str * value).

Fixpoint get (d : dict) (k : str) : option value :=
  match d with
  | [] => None
  | (k', v) :: d' => if str_eqb k' k then Some v else get d' k
  end.

(** [d[k] = v] *)
Fixpoint set (d : dict) (k : str) (v : value) : dict :=
  match d with
  | [] => [(k, v)]
  | (k', v') :: d' =>
      if str_eqb k' k then (k', v) :: d' else (k', v') :: set d' k v
  end.

(** [d.setdefault(k, v)], for its effect on [d] *)
Definition setdefault (d : dict) (k : str) (v : value) : dict :=
  match get d k with
  | Some _ => d
  | None => d ++ [(k, v)]
  end.

End Dict.

Module Json.

(** The decoder follows CPython's [json.decoder] and [json.scanner] (the C
    implementation where the two differ).  These are the messages of
    [json.JSONDecodeError]; positions are not tracked. *)
Inductive msg :=
| ExpectingValue
| ExtraData
| UnterminatedString
| InvalidControlCharacter
| InvalidEscape
| InvalidUnicodeEscape
| ExpectingPropertyName
| ExpectingColon
| ExpectingComma
| UnexpectedBOM
| BudgetExhausted.

(** What a call yields: a value, a [json.JSONDecodeError], or one of the two
    other exceptions that leave [json.loads]: the [ValueError] of [int] for a
    numeral with more digits than the interpreter converts ([DigitLimit]) and
    the [RecursionError] of the scanner for containers nested deeper than the
    interpreter allows ([RecursionLimit]).  Neither is a
    [json.JSONDecodeError]. *)
Inductive res (A : Type) :=
| Ok (a : A)
| JSONDecodeError (m : msg)
| DigitLimit
| RecursionLimit.
Arguments Ok {A} a.
Arguments JSONDecodeError {A} m.
Arguments DigitLimit {A}.
Arguments RecursionLimit {A}.

(** JSON whitespace: space, tab, line feed, carriage return. *)
Definition is_ws (c : char) : bool :=
  ((c =? 32) || (c =? 9) || (c =? 10) || (c =? 13))%N.

Fixpoint skip_ws (s : str) : str :=
  match s with
  | c :: t => if is_ws c then skip_ws t else s
  | [] => []
  end.

Definition is_digit (c : char) : bool := ((48 <=? c) && (c <=? 57))%N.

Definition hex_val (c : char) : option N :=
  if ((48 <=? c) && (c <=? 57))%N then Some (c - 48)%N
  else if ((97 <=? c) && (c <=? 102))%N then Some (c - 87)%N
  else if ((65 <=? c) && (c <=? 70))%N then Some (c - 55)%N
  else None.

Definition hex4 (a b c d : char) : option N :=
  match hex_val a, hex_val b, hex_val c, hex_val d with
  | Some x, Some y, Some z, Some w => Some (((x * 16 + y) * 16 + z) * 16 + w)%N
  | _, _, _, _ => None
  end.

Definition is_high_surrogate (u : N) : bool := ((55296 <=? u) && (u <=? 56319))%N.
Definition is_low_surrogate (u : N) : bool := ((56320 <=? u) && (u <=? 57343))%N.
Definition join_surrogates (hi lo : N) : N :=
  (65536 + ((hi - 55296) * 1024 + (lo - 56320)))%N.

(** The one-character escapes: quote, backslash, slash, b, f, n, r, t. *)
Definition simple_escape (c : char) : option char :=
  if (c =? 34)%N then Some 34%N
  else if (c =? 92)%N then Some 92%N
  else if (c =? 47)%N then Some 47%N
  else if (c =? 98)%N then Some 8%N
  else if (c =? 102)%N then Some 12%N
  else if (c =? 110)%N then Some 10%N
  else if (c =? 114)%N then Some 13%N
  else if (c =? 116)%N then Some 9%N
  else None.

(** [scanstring] in strict mode, from just after the opening quote; [acc] is
    the decoded text so far, most recent character first. *)
Fixpoint scanstring (acc : str) (s : str) : res (str * str) :=
  match s with
  | [] => JSONDecodeError UnterminatedString
  | c :: t =>
      if (c =? 34)%N then Ok (rev acc, t)
      else if (c =? 92)%N then
        match t with
        | [] => JSONDecodeError UnterminatedString
        | e :: t1 =>
            if (e =? 117)%N then
              match t1 with
              | [_; _; _; _] => JSONDecodeError InvalidUnicodeEscape
              | a :: b :: c1 :: d :: t2 =>
                  match hex4 a b c1 d with
                  | None => JSONDecodeError InvalidUnicodeEscape
                  | Some u =>
                      if is_high_surrogate u then
                        match t2 with
                        | b1 :: u1 :: a' :: b' :: c' :: d' :: t3 =>
                            match t3 with
                            | [] => scanstring (u :: acc) t2
                            | _ :: _ =>
                                if ((b1 =? 92) && (u1 =? 117))%N then
                                  match hex4 a' b' c' d' with
                                  | None => JSONDecodeError InvalidUnicodeEscape
                                  | Some u2 =>
                                      if is_low_surrogate u2
                                      then scanstring (join_surrogates u u2 :: acc) t3
                                      else scanstring (u :: acc) t2
                                  end
                                else scanstring (u :: acc) t2
                            end
                        | _ => scanstring (u :: acc) t2
                        end
                      else scanstring (u :: acc) t2
                  end
              | _ => JSONDecodeError InvalidUnicodeEscape
              end
            else
              match simple_escape e with
              | Some c' => scanstring (c' :: acc) t1
              | None => JSONDecodeError InvalidEscape
              end
        end
      else if (c <? 32)%N then JSONDecodeError InvalidControlCharacter
      else scanstring (c :: acc) t
  end.

(** A maximal run of ASCII digits and what follows it. *)
Fixpoint take_digits (s : str) : str * str :=
  match s with
  | c :: t =>
      if is_digit c
      then let '(ds, r) := take_digits t in (c :: ds, r)
      else ([], s)
  | [] => ([], [])
  end.

Definition digits_value (ds : str) : Z :=
  fold_left (fun acc c => (acc * 10 + Z.of_N (c - 48))%Z) ds 0%Z.

(** The integer part [0|[1-9][0-9]*] of a number. *)
Definition take_int_part (s : str) : option (str * str) :=
  match s with
  | c :: t =>
      if (c =? 48)%N then Some ([c], t)
      else if is_digit c then Some (take_digits s)
      else None
  | [] => None
  end.

(** The optional fraction [\.[0-9]+]. *)
Definition take_frac (s : str) : option (str * str) :=
  match s with
  | c :: t =>
      if (c =? 46)%N then
        match take_digits t with
        | ([], _) => None
        | (ds, r) => Some (ds, r)
        end
      else None
  | [] => None
  end.

(** The optional exponent [[eE][-+]?[0-9]+]. *)
Definition take_exp (s : str) : option (Z * str) :=
  match s with
  | c :: t =>
      if ((c =? 101) || (c =? 69))%N then
        let '(neg, t') :=
          match t with
          | sg :: t1 =>
              if (sg =? 45)%N then (true, t1)
              else if (sg =? 43)%N then (false, t1)
              else (false, t)
          | [] => (false, t)
          end in
        match take_digits t' with
        | ([], _) => None
        | (ds, r) => Some (if neg then (- digits_value ds)%Z else digits_value ds, r)
        end
      else None
  | [] => None
  end.

(** [int(numstr)] refuses a numeral of more than [max_digits] digits
    ([sys.get_int_max_str_digits()], 4300 unless configured; 0 switches the
    check off, and numerals of up to 640 digits are never checked). *)
Definition too_many_digits (max_digits : nat) (ids : str) : bool :=
  (640 <? length ids) && (0 <? max_digits) && (max_digits <? length ids).

(** [match_number]: an int when there is neither fraction nor exponent, a
    float otherwise; [None] when the text does not start with a number. *)
Definition match_number (max_digits : nat) (s : str) : option (res (value * str)) :=
  let '(neg, s1) :=
    match s with
    | c :: t => if (c =? 45)%N then (true, t) else (false, s)
    | [] => (false, s)
    end in
  match take_int_part s1 with
  | None => None
  | Some (ids, s2) =>
      let '(fds, s3) :=
        match take_frac s2 with
        | Some (fds, r) => (Some fds, r)
        | None => (None, s2)
        end in
      let '(ex, s4) :=
        match take_exp s3 with
        | Some (e, r) => (Some e, r)
        | None => (None, s3)
        end in
      match fds, ex with
      | None, None =>
          if too_many_digits max_digits ids then Some DigitLimit
          else
            Some (Ok (VInt (if neg then - digits_value ids else digits_value ids)%Z,
                      s4))
      | _, _ =>
          let fd := match fds with Some d => d | None => [] end in
          let e := match ex with Some e => e | None => 0%Z end in
          Some (Ok (VFloat (PyFloat.of_decimal neg (digits_value (ids ++ fd))
                                               (e - Z.of_nat (length fd))), s4))
      end
  end.

(** The constants [null], [true], [false], [NaN], [Infinity], [-Infinity]. *)
Definition constants : list (str * value) :=
  [ (lit "null", VNone); (lit "true", VBool true); (lit "false", VBool false);
    (lit "NaN", VFloat S754_nan); (lit "Infinity", VFloat (S754_infinity false));
    (lit "-Infinity", VFloat (S754_infinity true)) ].

Fixpoint match_constant (cs : list (str * value)) (s : str) : option (value * str) :=
  match cs with
  | [] => None
  | (name, v) :: cs' =>
      match Re.strip_prefix name s with
      | Some r => Some (v, r)
      | None => match_constant cs' s
      end
  end.

(** [scan_once], [JSONObject] and [JSONArray].  The functions call each
    other on the text that is left, so they recurse on a budget of calls;
    [loads] gives a budget no document can use up.  [depth] is the number of
    containers the scanner may still enter: it checks the interpreter's
    recursion limit each time it enters an object or an array, and nowhere
    else. *)
Section Scanner.
Variable max_digits : nat.

Fixpoint scan_once (fuel depth : nat) (s : str) : res (value * str) :=
  match fuel with
  | O => JSONDecodeError BudgetExhausted
  | S n =>
      match s with
      | [] => JSONDecodeError ExpectingValue
      | c :: t =>
          if (c =? 34)%N then
            match scanstring [] t with
            | Ok (x, r) => Ok (VStr x, r)
            | JSONDecodeError m => JSONDecodeError m
            | DigitLimit => DigitLimit
            | RecursionLimit => RecursionLimit
            end
          else if (c =? 123)%N then
            match depth with
            | O => RecursionLimit
            | S inner =>
                match skip_ws t with
                | c1 :: t1 =>
                    if (c1 =? 125)%N then Ok (VDict [], t1)
                    else if (c1 =? 34)%N then members n inner [] t1
                    else JSONDecodeError ExpectingPropertyName
                | [] => JSONDecodeError ExpectingPropertyName
                end
            end
          else if (c =? 91)%N then
            match depth with
            | O => RecursionLimit
            | S inner =>
                match skip_ws t with
                | c1 :: t1 =>
                    if (c1 =? 93)%N then Ok (VList [], t1)
                    else elements n inner [] (c1 :: t1)
                | [] => elements n inner [] []
                end
            end
          else
            match match_number max_digits s with
            | Some r => r
            | None =>
                match match_constant constants s with
                | Some r => Ok r
                | None => JSONDecodeError ExpectingValue
                end
            end
      end
  end

(** The pairs of an object, from just after the opening quote of a key;
    [d] is the dict built so far. *)
with members (fuel depth : nat) (d : Dict.dict) (s : str) : res (value * str) :=
  match fuel with
  | O => JSONDecodeError BudgetExhausted
  | S n =>
      match scanstring [] s with
      | JSONDecodeError m => JSONDecodeError m
      | DigitLimit => DigitLimit
      | RecursionLimit => RecursionLimit
      | Ok (key, s1) =>
          match skip_ws s1 with
          | c :: s2 =>
              if (c =? 58)%N then
                match scan_once n depth (skip_ws s2) with
                | JSONDecodeError m => JSONDecodeError m
                | DigitLimit => DigitLimit
                | RecursionLimit => RecursionLimit
                | Ok (v, s3) =>
                    let d' := Dict.set d key v in
                    match skip_ws s3 with
                    | c1 :: s4 =>
                        if (c1 =? 125)%N then Ok (VDict d', s4)
                        else if (c1 =? 44)%N then
                          match skip_ws s4 with
                          | c2 :: s5 =>
                              if (c2 =? 34)%N then members n depth d' s5
                              else JSONDecodeError ExpectingPropertyName
                          | [] => JSONDecodeError ExpectingPropertyName
                          end
                        else JSONDecodeError ExpectingComma
                    | [] => JSONDecodeError ExpectingComma
                    end
                end
              else JSONDecodeError ExpectingColon
          | [] => JSONDecodeError ExpectingColon
          end
      end
  end

(** The items of an array, from the start of an item; [acc] holds the items
    read so far, most recent first. *)
with elements (fuel depth : nat) (acc : list value) (s : str) : res (value * str) :=
  match fuel with
  | O => JSONDecodeError BudgetExhausted
  | S n =>
      match scan_once n depth s with
      | JSONDecodeError m => JSONDecodeError m
      | DigitLimit => DigitLimit
      | RecursionLimit => RecursionLimit
      | Ok (v, s1) =>
          match skip_ws s1 with
          | c :: s2 =>
              if (c =? 93)%N then Ok (VList (rev (v :: acc)), s2)
              else if (c =? 44)%N then elements n depth (v :: acc) (skip_ws s2)
              else JSONDecodeError ExpectingComma
          | [] => JSONDecodeError ExpectingComma
          end
      end
  end.

End Scanner.

Definition starts_with_bom (s : str) : bool :=
  match s with
  | c :: _ => (c =? 65279)%N
  | [] => false
  end.

(** [json.loads(s)] for a [str]: no byte order mark, then one value,
    surrounded by whitespace only.  [max_digits] and [depth] are the two
    settings of the interpreter the call depends on. *)
Definition loads (max_digits depth : nat) (s : str) : res value :=
  if starts_with_bom s then JSONDecodeError UnexpectedBOM
  else
    match scan_once max_digits (2 * length s + 2) depth (skip_ws s) with
    | JSONDecodeError m => JSONDecodeError m
    | DigitLimit => DigitLimit
    | RecursionLimit => RecursionLimit
    | Ok (v, r) =>
        match skip_ws r with
        | [] => Ok v
        | _ :: _ => JSONDecodeError ExtraData
        end
    end.

End Json.

(* ===================================================================== *)
(** * Exceptions, and the monad of the request handlers *)
(* ===================================================================== *)

(** The exceptions that occur in the module.  All of them derive from
    [Exception], so an [except Exception] clause catches every one.  A
    [ValueError] is the one [parse_json_response] raises, with the message
    ["Failed to parse JSON: ..."] and the decoder's error, or the one [int]
    raises inside [json.loads] for a numeral with too many digits.
    [ClientError] stands for whatever a client library raises (transport
    error, timeout, error status, a reply without text). *)
Inductive value_error :=
| FailedToParseJSON (e : Json.msg)
| ExceedsIntMaxStrDigits.

Inductive exn :=
| ValueError (message : value_error)
| RecursionError
| RuntimeError (message : str)
| AttributeError
| TypeError
| KeyError (key : str)
| ClientError (code : N)
| HTTPException (status_code : N) (detail : str)
| ValidationError.

Inductive backend := Local | Remote.

Definition backend_eqb (a b : backend) : bool :=
  match a, b with
  | Local, Local | Remote, Remote => true
  | _, _ => false
  end.

(** What one request to a backend yields: the client library raises, or it
    returns the text of the model's answer. *)
Inductive reply :=
| Raises (e : exn)
| Returns (content : str).

(** A configured client.  The answer may depend on the user message and on
    how many requests this client has served during the handling of the
    current call (the system prompt and the sampling parameters are
    constants of the module). *)
Definition Client := nat -> str -> reply.

Module Handler.

(** The state of a handler is the log of adapter invocations, oldest
    first. *)
Definition log := list backend.

Definition M (A : Type) : Type := log -> (exn + A) * log.

Definition ret {A} (a : A) : M A := fun l => (inr a, l).

Definition raise {A} (e : exn) : M A := fun l => (inl e, l).

Definition bind {A B} (m : M A) (f : A -> M B) : M B :=
  fun l =>
    match m l with
    | (inr a, l') => f a l'
    | (inl e, l') => (inl e, l')
    end.

(** [try: m  except Exception as e: h e] *)
Definition try_except {A} (m : M A) (h : exn -> M A) : M A :=
  fun l =>
    match m l with
    | (inr a, l') => (inr a, l')
    | (inl e, l') => h e l'
    end.

(** Entering an adapter. *)
Definition enter (b : backend) : M unit := fun l => (inr tt, l ++ [b]).

(** The number of requests the client of [b] has already served during this
    call: the invocations of [b] in the log, the current one excepted. *)
Definition served (b : backend) : M nat :=
  fun l => (inr (pred (length (filter (backend_eqb b) l))), l).

Definition lift {A} (r : exn + A) : M A := fun l => (r, l).

End Handler.
Import Handler.

Declare Scope handler_scope.
Delimit Scope handler_scope with handler.
Notation "x <- m ;; k" := (bind m (fun x => k))
  (at level 61, m at next level, right associativity) : handler_scope.
Notation "m ;; k" := (bind m (fun _ => k))
  (at level 61, right associativity) : handler_scope.
Notation "' pat <- m ;; k" := (bind m (fun x => match x with pat => k end))
  (at level 61, pat pattern, m at next level, right associativity) : handler_scope.
Open Scope handler_scope.

(* ===================================================================== *)
(** * The classifier module *)
(* ===================================================================== *)

(** The process the module runs in.  First its globals, read once from the
    environment: [local_client] and [anthropic_client] are [None] when the
    base URL or the API key is empty.  Then what the module takes from the
    interpreter and from pydantic, and which is not written in it:
    - [int_max_str_digits] is [sys.get_int_max_str_digits()];
    - [recursion_limit] is the number of nested containers [json.loads] may
      enter at the place it is called from before the interpreter raises
      [RecursionError];
    - [str_as_float] is the reading of a [str] as a [float] by a float field
      of a pydantic model ([None] when it refuses the string). *)
Record Config := {
  LOCAL_MODEL : str;
  USE_LOCAL_FIRST : bool;
  local_client : option Client;
  anthropic_client : option Client;
  int_max_str_digits : nat;
  recursion_limit : nat;
  str_as_float : str -> option PyFloat.float
}.

Definition CLAUDE_MODEL : str := lit "claude-3-5-sonnet-20241022".

Record ClassifyRequest := {
  text : str;
  source : option str;
  filepath : option str;
  force_local : bool;
  force_api : bool
}.

Record ClassifyResponse := {
  tags : list str;
  summary : str;
  confidence : PyFloat.float;
  model : str;
  fallback_used : bool
}.

(** ** [parse_json_response] *)

Definition any_char (c : char) : bool := true.

(** [```(?:json)?\s*(\{.*?\})\s*```] with [re.DOTALL] *)
Definition fence_re : Re.regex :=
  Re.Cat (Re.Lit (lit "```"))
 (Re.Cat (Re.Opt (Re.Lit (lit "json")))
 (Re.Cat (Re.Star is_space)
 (Re.Cat (Re.Group (Re.Cat (Re.Lit (lit "{"))
                   (Re.Cat (Re.StarLazy any_char) (Re.Lit (lit "}")))))
 (Re.Cat (Re.Star is_space) (Re.Lit (lit "```")))))).

(** [^```(?:json)?\s*] *)
Definition lead_re : Re.regex :=
  Re.Cat Re.Bol
 (Re.Cat (Re.Lit (lit "```"))
 (Re.Cat (Re.Opt (Re.Lit (lit "json"))) (Re.Star is_space))).

(** [\s*```$] *)
Definition trail_re : Re.regex :=
  Re.Cat (Re.Star is_space) (Re.Cat (Re.Lit (lit "```")) Re.Eol).

(** The text handed to [json.loads]. *)
Definition normalize (text : str) : str :=
  let text := strip text in
  let text :=
    match Re.search fence_re text with
    | Some (_, Some g) => g
    | _ => text
    end in
  let text := Re.sub_empty lead_re text in
  let text := Re.sub_empty trail_re text in
  text.

(** [json.loads] as the module calls it, with the exceptions it lets
    out. *)
Definition json_loads (cfg : Config) (s : str) : Json.res value :=
  Json.loads (int_max_str_digits cfg) (recursion_limit cfg) s.

(** The [try] of [parse_json_response] catches [json.JSONDecodeError] only:
    the two other exceptions of [json.loads] pass through it. *)
Definition parse_json_response (cfg : Config) (text : str) : exn + value :=
  match json_loads cfg (normalize text) with
  | Json.Ok v => inr v
  | Json.JSONDecodeError e => inl (ValueError (FailedToParseJSON e))
  | Json.DigitLimit => inl (ValueError ExceedsIntMaxStrDigits)
  | Json.RecursionLimit => inl RecursionError
  end.

(** ** [heuristic_fallback] *)

Definition heuristic_fallback (text : str) : value :=
  let words := split text in
  let word_count := length words in
  let tags := [lit "uncategorized"; lit "transcript"; lit "unclassified"] in
  let tags :=
    if word_count <? 100 then tags ++ [lit "short"]
    else if 1000 <? word_count then tags ++ [lit "long"]
    else tags in
  let summary := join (lit " ") (slice_to (Nat.min 50 word_count) words) in
  let summary := if 50 <? word_count then summary ++ lit "..." else summary in
  VDict [ (lit "tags", VList (List.map VStr (slice_to 7 tags)));
          (lit "summary", VStr summary);
          (lit "confidence", VFloat f_0_3) ].

(** ** The adapters *)

(** [result.setdefault(key, default)]; only a dict has the method. *)
Definition setdefault (result : value) (key : str) (default : value) : M value :=
  match result with
  | VDict d => ret (VDict (Dict.setdefault d key default))
  | _ => raise AttributeError
  end.

(** The user message of both adapters: the prompt line, an empty line and
    [text[:4000]]. *)
Definition user_message (text : str) : str :=
  lit "Classify this transcript:" ++ [10; 10]%N ++ slice_to 4000 text.

(** One request through a configured client. *)
Definition create (b : backend) (client : Client) (text : str) : M str :=
  n <- served b ;;
  match client n (user_message text) with
  | Raises e => raise e
  | Returns content => ret content
  end.

Section Classifier.

Variable cfg : Config.

Definition after_parse (content : str) : M value :=
  result <- lift (parse_json_response cfg content) ;;
  result <- setdefault result (lit "tags") (VList []) ;;
  result <- setdefault result (lit "summary") (VStr []) ;;
  result <- setdefault result (lit "confidence") (VFloat f_0_5) ;;
  ret result.

Definition classify_with_local (text : str) : M value :=
  enter Local ;;
  match local_client cfg with
  | None => raise (RuntimeError (lit "Local vLLM not configured"))
  | Some client =>
      content <- create Local client text ;;
      after_parse content
  end.

Definition classify_with_api (text : str) : M value :=
  enter Remote ;;
  match anthropic_client cfg with
  | None => raise (RuntimeError (lit "Anthropic API not configured"))
  | Some client =>
      content <- create Remote client text ;;
      after_parse content
  end.

(** ** The endpoint *)

(** [result[key]] *)
Definition getitem (result : value) (key : str) : M value :=
  match result with
  | VDict d =>
      match Dict.get d key with
      | Some v => ret v
      | None => raise (KeyError key)
      end
  | _ => raise TypeError
  end.

(** [v < f] for a float [f]: defined for floats and ints (a bool is an int),
    a [TypeError] for every other value. *)
Definition lt_float (v : value) (f : PyFloat.float) : M bool :=
  match v with
  | VFloat x => ret (PyFloat.ltb x f)
  | VInt n => ret (PyFloat.int_ltb n f)
  | VBool b => ret (PyFloat.int_ltb (if b then 1 else 0) f)
  | _ => raise TypeError
  end.

Definition is_some {A} (o : option A) : bool :=
  match o with Some _ => true | None => false end.

(** The truth value of a [str]: false exactly for the empty string. *)
Definition truthy (s : str) : bool :=
  match s with [] => false | _ :: _ => true end.

(** The construction of a [ClassifyResponse] validates the field types:
    [tags] a list of [str], [summary] a [str], [confidence] a float.  For
    the float field an int or a bool is converted, and a string is read by
    [str_as_float]: a reply with ["confidence": "0.9"] gives the confidence
    0.9.  Any other value is reported as a validation error. *)
Fixpoint as_str_list (l : list value) : option (list str) :=
  match l with
  | [] => Some []
  | VStr s :: l' =>
      match as_str_list l' with
      | Some r => Some (s :: r)
      | None => None
      end
  | _ :: _ => None
  end.

Definition as_float (v : value) : option PyFloat.float :=
  match v with
  | VFloat f => Some f
  | VInt n =>
      match PyFloat.of_int n with
      | S754_infinity _ => None
      | f => Some f
      end
  | VBool b => Some (if b then f_1_0 else f_0_0)
  | VStr s => str_as_float cfg s
  | _ => None
  end.

Definition make_response (vtags vsummary vconfidence : value)
           (model_used : str) (fallback : bool) : M ClassifyResponse :=
  match vtags, vsummary, as_float vconfidence with
  | VList l, VStr s, Some c =>
      match as_str_list l with
      | Some ts => ret (Build_ClassifyResponse ts s c model_used fallback)
      | None => raise ValidationError
      end
  | _, _, _ => raise ValidationError
  end.

Definition classify (request : ClassifyRequest) : M ClassifyResponse :=
  if negb (truthy (text request)) || negb (truthy (strip (text request)))
  then raise (HTTPException 400 (lit "Text cannot be empty"))
  else
    '(result, model_used, fallback_used) <-
      try_except
        (if force_api request then
           result <- classify_with_api (text request) ;;
           ret (result, CLAUDE_MODEL, false)
         else if force_local request then
           result <- classify_with_local (text request) ;;
           ret (result, LOCAL_MODEL cfg, false)
         else if USE_LOCAL_FIRST cfg && is_some (local_client cfg) then
           try_except
             (result <- classify_with_local (text request) ;;
              c <- getitem result (lit "confidence") ;;
              low <- lt_float c f_0_7 ;;
              if low && is_some (anthropic_client cfg) then
                result <- classify_with_api (text request) ;;
                ret (result, CLAUDE_MODEL, true)
              else ret (result, LOCAL_MODEL cfg, false))
             (fun e =>
                if is_some (anthropic_client cfg) then
                  result <- classify_with_api (text request) ;;
                  ret (result, CLAUDE_MODEL, true)
                else raise e)
         else if is_some (anthropic_client cfg) then
           result <- classify_with_api (text request) ;;
           ret (result, CLAUDE_MODEL, false)
         else
           raise (HTTPException 503 (lit "No classification backend configured")))
        (fun e => ret (heuristic_fallback (text request), lit "heuristic", true)) ;;
    vtags <- getitem result (lit "tags") ;;
    vsummary <- getitem result (lit "summary") ;;
    vconfidence <- getitem result (lit "confidence") ;;
    make_response vtags vsummary vconfidence model_used fallback_used.

End Classifier.

(** Running a handler on a fresh request. *)
Definition run_handler {A} (m : M A) : (exn + A) * log := m [].

(* ===================================================================== *)
(** * Definitions used by the statements *)
(* ===================================================================== *)

(** A result that is not the budget error and, when a value was read, left
    strictly less text than it started from. *)
Definition good {A} (s : str) (r : Json.res (A * str)) : Prop :=
  match r with
  | Json.Ok (_, rest) => length rest < length s
  | Json.JSONDecodeError m => m <> Json.BudgetExhausted
  | Json.DigitLimit | Json.RecursionLimit => True
  end.

(** The part of an adapter after the request, as a pure function: parse,
    then fill the three defaults ([after_parse_run]). *)
Definition finish (cfg : Config) (content : str) : exn + value :=
  match parse_json_response cfg content with
  | inl e => inl e
  | inr (VDict d) =>
      inr (VDict (Dict.setdefault
                   (Dict.setdefault
                      (Dict.setdefault d (lit "tags") (VList []))
                      (lit "summary") (VStr []))
                   (lit "confidence") (VFloat f_0_5)))
  | inr _ => inl AttributeError
  end.

(** The result of the invocation of an adapter that is the [n]-th use of its
    client (counting from 0) within the call ([classify_with_local_run],
    [classify_with_api_run]). *)
Definition invoke (cfg : Config) (client : option Client) (missing : str)
           (n : nat) (t : str) : exn + value :=
  match client with
  | None => inl (RuntimeError missing)
  | Some c =>
      match c n (user_message t) with
      | Raises e => inl e
      | Returns content => finish cfg content
      end
  end.

Definition local_result (cfg : Config) :=
  invoke cfg (local_client cfg) (lit "Local vLLM not configured").
Definition remote_result (cfg : Config) :=
  invoke cfg (anthropic_client cfg) (lit "Anthropic API not configured").

Definition uses (b : backend) (l : log) : nat :=
  length (filter (backend_eqb b) l).

(** The construction of the response from a result. *)
Definition respond (cfg : Config) (result : value) (model_used : str)
           (fallback : bool) : M ClassifyResponse :=
  vtags <- getitem result (lit "tags") ;;
  vsummary <- getitem result (lit "summary") ;;
  vconfidence <- getitem result (lit "confidence") ;;
  make_response cfg vtags vsummary vconfidence model_used fallback.

(** The degraded responder as the specification describes it: the base
    tags, ["short"] below 100 tokens or ["long"] above 1000, the first 50
    tokens joined by single spaces, ["..."] above 50 tokens, confidence 0.3.
    [heuristic_fallback_eq] and [respond_degraded] show that
    [heuristic_fallback] computes it. *)
Definition degraded (t : str) : ClassifyResponse :=
  let n := length (split t) in
  {| tags := [lit "uncategorized"; lit "transcript"; lit "unclassified"]
             ++ (if n <? 100 then [lit "short"]
                 else if 1000 <? n then [lit "long"] else []);
     summary := join (lit " ") (firstn 50 (split t))
                ++ (if 50 <? n then lit "..." else []);
     confidence := f_0_3;
     model := lit "heuristic";
     fallback_used := true |}.

(** The guard at the top of [classify]. *)
Definition blank (t : str) : bool := negb (truthy t) || negb (truthy (strip t)).

(** The response a result gives: [respond] does not touch the log. *)
Definition response_of (cfg : Config) (result : value) (model_used : str)
           (fallback : bool) : exn + ClassifyResponse :=
  fst (respond cfg result model_used fallback []).

(** The confidence test of the local-first branch, [result["confidence"] <
    0.7], as a pure function. *)
Definition low_confidence (result : value) : exn + bool :=
  fst ((c <- getitem result (lit "confidence") ;; lt_float c f_0_7) []).

(** What the exception handler of the local-first branch does when a remote
    client is configured or not, from the log [l]. *)
Definition escalate (cfg : Config) (t : str) (l : log)
  : (exn + ClassifyResponse) * log :=
  match anthropic_client cfg with
  | Some _ =>
      match remote_result cfg (uses Remote l) t with
      | inr result => (response_of cfg result CLAUDE_MODEL true, l ++ [Remote])
      | inl _ => (inr (degraded t), l ++ [Remote])
      end
  | None => (inr (degraded t), l)
  end.

(** [v >= f] and [v < f] on the numbers a confidence can be. *)
Definition ge_float (v : value) (f : PyFloat.float) : bool :=
  match v with
  | VFloat x => PyFloat.leb f x
  | VInt n => PyFloat.int_leb_rev f n
  | VBool b => PyFloat.int_leb_rev f (if b then 1 else 0)
  | _ => false
  end.

Definition below_float (v : value) (f : PyFloat.float) : bool :=
  match v with
  | VFloat x => PyFloat.ltb x f
  | VInt n => PyFloat.int_ltb n f
  | VBool b => PyFloat.int_ltb (if b then 1 else 0) f
  | _ => false
  end.

(** A result whose three fields have the types of the response model. *)
Definition well_typed (cfg : Config) (result : value) (ts : list str)
           (sm : str) (vc : value) (c : PyFloat.float) : Prop :=
  exists d,
    result = VDict d /\
    Dict.get d (lit "tags") = Some (VList (List.map VStr ts)) /\
    Dict.get d (lit "summary") = Some (VStr sm) /\
    Dict.get d (lit "confidence") = Some vc /\
    as_float cfg vc = Some c.

(* ===================================================================== *)
(** * Fenced blocks *)
(* ===================================================================== *)

Definition fence : str := lit "```".

Definition all_space (w : str) : Prop := forallb is_space w = true.

(** The optional tag after the opening fence. *)
Definition is_tag (t : str) : Prop := t = [] \/ t = lit "json".

(** A brace-delimited object: an opening brace, any text, a closing brace. *)
Definition braced (g : str) : Prop := exists body, g = lit "{" ++ body ++ lit "}".

(** [s] starts with a fenced block whose content is the brace-delimited
    object [g]; [post] is what follows the closing fence. *)
Definition fenced_block (s g post : str) : Prop :=
  exists tag ws1 ws2,
    is_tag tag /\ all_space ws1 /\ all_space ws2 /\ braced g /\
    s = fence ++ tag ++ ws1 ++ g ++ ws2 ++ fence ++ post.

(** The first fenced block of [t]: it starts after [pre], no fenced block
    starts earlier, and [g] is the shortest object that closes it. *)
Definition first_fenced_block (t pre g post : str) : Prop :=
  fenced_block (skipn (length pre) t) g post /\
  length pre <= length t /\
  (forall i g' post', i < length pre -> ~ fenced_block (skipn i t) g' post') /\
  (forall g' post', fenced_block (skipn (length pre) t) g' post' ->
                    length g <= length g').

Definition object_re : Re.regex :=
  Re.Cat (Re.Lit (lit "{")) (Re.Cat (Re.StarLazy any_char) (Re.Lit (lit "}"))).
Definition close_re : Re.regex := Re.Cat (Re.Star is_space) (Re.Lit (lit "```")).
Definition body_re : Re.regex :=
  Re.Cat (Re.Star is_space) (Re.Cat (Re.Group object_re) close_re).

Definition report (st : Re.mstate) : option (nat * option str) :=
  Some (Re.pos st, Re.grp st).

(** A sufficient condition that is checked by reading the text: no backtick
    before the block and none inside the object. *)
Definition no_backtick (x : str) : bool := forallb (fun c => negb (c =? 96)%N) x.

Definition non_space (c : char) : bool := negb (is_space c).

(** A token: not empty, no whitespace in it. *)
Definition token (w : str) : Prop := w <> [] /\ forallb non_space w = true.

(** The text is over, or goes on with whitespace. *)
Definition starts_blank (s : str) : Prop :=
  match s with
  | [] => True
  | c :: _ => is_space c = true
  end.

(** The whitespace tokens of a text, as the specification counts them,
    without reference to [str.split]: a text of whitespace only has none;
    otherwise the text is whitespace, then a token that stops where the
    text ends or whitespace begins, then a text whose tokens are the
    others. *)
Inductive words_of : str -> list str -> Prop :=
| words_none s : all_space s -> words_of s []
| words_some lead w rest ws :
    all_space lead -> token w -> starts_blank rest -> words_of rest ws ->
    words_of (lead ++ w ++ rest) (w :: ws).

(* ===================================================================== *)
(** * JSON text *)
(* ===================================================================== *)

(** The grammar of RFC 8259, written without reference to the decoder, with
    the three constants [NaN], [Infinity] and [-Infinity] that Python
    accepts besides.  A text outside this grammar is syntactically invalid. *)
Module JsonText.

Definition blanks (w : str) : Prop :=
  forallb (fun c => (c =? 32) || (c =? 9) || (c =? 10) || (c =? 13))%N w = true.

Definition is_hex (c : char) : bool :=
  ((48 <=? c) && (c <=? 57) || (97 <=? c) && (c <=? 102)
   || (65 <=? c) && (c <=? 70))%N.

(** A character that stands for itself inside a string: not the quote, not
    the backslash, not a control character. *)
Definition plain (c : char) : bool :=
  (negb (c =? 34) && negb (c =? 92) && (32 <=? c))%N.

(** The characters after a backslash in a two-character escape: quote,
    backslash, slash, b, f, n, r, t. *)
Definition escapable (c : char) : bool :=
  ((c =? 34) || (c =? 92) || (c =? 47) || (c =? 98) || (c =? 102)
   || (c =? 110) || (c =? 114) || (c =? 116))%N.

(** What stands between the quotes of a string. *)
Inductive chars : str -> Prop :=
| chars_nil : chars []
| chars_plain (c : char) (r : str) : plain c = true -> chars r -> chars (c :: r)
| chars_escape (e : char) (r : str) :
    escapable e = true -> chars r -> chars (92%N :: e :: r)
| chars_unicode (a b c d : char) (r : str) :
    is_hex a = true -> is_hex b = true -> is_hex c = true -> is_hex d = true ->
    chars r -> chars (92%N :: 117%N :: a :: b :: c :: d :: r).

Definition string (s : str) : Prop :=
  exists b : str, chars b /\ s = 34%N :: b ++ [34%N].

Definition digits (ds : str) : Prop :=
  ds <> [] /\ forallb (fun c => (48 <=? c) && (c <=? 57))%N ds = true.

(** [0], or digits that do not start with [0]. *)
Definition int_part (i : str) : Prop :=
  i = [48%N] \/ (digits i /\ hd 48%N i <> 48%N).

Definition frac_part (f : str) : Prop :=
  f = [] \/ exists ds : str, digits ds /\ f = 46%N :: ds.

Definition exp_part (e : str) : Prop :=
  e = [] \/
  exists (m : char) (sg ds : str),
    (m = 101%N \/ m = 69%N) /\ (sg = [] \/ sg = [43%N] \/ sg = [45%N]) /\
    digits ds /\ e = m :: sg ++ ds.

Definition number (s : str) : Prop :=
  exists sg i f e : str,
    (sg = [] \/ sg = [45%N]) /\ int_part i /\ frac_part f /\ exp_part e /\
    s = sg ++ i ++ f ++ e.

Definition constant (s : str) : Prop :=
  s = lit "null" \/ s = lit "true" \/ s = lit "false" \/
  s = lit "NaN" \/ s = lit "Infinity" \/ s = lit "-Infinity".

(** Values; [items] is what stands between the brackets of an array that is
    not empty, [pairs] between the braces of such an object. *)
Inductive value : str -> Prop :=
| value_string (s : str) : string s -> value s
| value_number (s : str) : number s -> value s
| value_constant (s : str) : constant s -> value s
| value_empty_array (w : str) : blanks w -> value (91%N :: w ++ [93%N])
| value_array (w xs : str) : blanks w -> items xs -> value (91%N :: w ++ xs ++ [93%N])
| value_empty_object (w : str) : blanks w -> value (123%N :: w ++ [125%N])
| value_object (w ps : str) : blanks w -> pairs ps -> value (123%N :: w ++ ps ++ [125%N])
with items : str -> Prop :=
| items_last (v w : str) : value v -> blanks w -> items (v ++ w)
| items_more (v w1 w2 xs : str) :
    value v -> blanks w1 -> blanks w2 -> items xs ->
    items (v ++ w1 ++ 44%N :: w2 ++ xs)
with pairs : str -> Prop :=
| pairs_last (k w1 w2 v w3 : str) :
    string k -> blanks w1 -> blanks w2 -> value v -> blanks w3 ->
    pairs (k ++ w1 ++ 58%N :: w2 ++ v ++ w3)
| pairs_more (k w1 w2 v w3 w4 ps : str) :
    string k -> blanks w1 -> blanks w2 -> value v -> blanks w3 -> blanks w4 ->
    pairs ps ->
    pairs (k ++ w1 ++ 58%N :: w2 ++ v ++ w3 ++ 44%N :: w4 ++ ps).

(** A document: one value, whitespace around it. *)
Definition text (s : str) : Prop :=
  exists w1 v w2 : str, blanks w1 /\ value v /\ blanks w2 /\ s = w1 ++ v ++ w2.

End JsonText.

(** What may follow a value inside a document: the end, whitespace, a
    comma, a closing bracket or brace. *)
Definition follows (rest : str) : Prop :=
  match rest with
  | [] => True
  | c :: _ =>
      ((c =? 32) || (c =? 9) || (c =? 10) || (c =? 13)
       || (c =? 44) || (c =? 93) || (c =? 125))%N = true
  end.

(** The text is over, or goes on with something else than a digit. *)
Definition no_digit_next (r : str) : Prop :=
  match r with
  | [] => True
  | c :: _ => Json.is_digit c = false
  end.

(** A call of the scanner that read what the grammar says, or stopped on
    one of the two limits of the interpreter (or on its budget, which
    [JsonFacts.budget] excludes). *)
Definition reads {A} (r : Json.res (A * str)) (rest : str) : Prop :=
  (exists a, r = Json.Ok (a, rest)) \/ r = Json.DigitLimit \/
  r = Json.RecursionLimit \/ r = Json.JSONDecodeError Json.BudgetExhausted.

(* ===================================================================== *)
(** * Fixtures *)
(* ===================================================================== *)

Definition request (t : str) (fl fa : bool) : ClassifyRequest :=
  Build_ClassifyRequest t None None fl fa.

(** A client that gives the same reply to every request. *)
Definition always (r : reply) : Client := fun _ _ => r.

(** A client whose requests all fail. *)
Definition failing : Client := always (Raises (ClientError 503)).

(** A reader of plain decimal numerals for [str_as_float]: an optional
    sign, digits with an optional point, an optional exponent, and nothing
    else. *)
Definition decimal_float (s : str) : option PyFloat.float :=
  let '(neg, s1) :=
    match s with
    | c :: t =>
        if (c =? 45)%N then (true, t) else if (c =? 43)%N then (false, t)
        else (false, s)
    | [] => (false, s)
    end in
  let '(ids, s2) := Json.take_digits s1 in
  let '(fds, s3) :=
    match s2 with
    | c :: t => if (c =? 46)%N then Json.take_digits t else ([], s2)
    | [] => ([], s2)
    end in
  let '(e, s4) :=
    match Json.take_exp s3 with
    | Some (e, r) => (e, r)
    | None => (0%Z, s3)
    end in
  match ids ++ fds, s4 with
  | _ :: _, [] =>
      Some (PyFloat.of_decimal neg (Json.digits_value (ids ++ fds))
                               (e - Z.of_nat (length fds)))
  | _, _ => None
  end.

(** The configurations of the examples: CPython's default limit of 4300
    digits, room for 1000 nested containers, and [decimal_float]. *)
Definition config (first : bool) (l r : option Client) : Config :=
  Build_Config (lit "Qwen/Qwen2.5-14B-Instruct-AWQ") first l r
               4300 1000 decimal_float.

Definition hello : str := lit "hello world".

(** The reply of the specification's example, fenced. *)
Definition fenced_reply : str :=
  lit "```json" ++ [10%N]
  ++ jq "{'tags':['a'],'summary':'s','confidence':0.9}"
  ++ [10%N] ++ lit "```".

Definition f_0_9 : PyFloat.float := Eval vm_compute in PyFloat.of_decimal false 9 (-1).

Definition example_object : value :=
  VDict [ (lit "tags", VList [VStr (lit "a")]);
          (lit "summary", VStr (lit "s"));
          (lit "confidence", VFloat f_0_9) ].

Definition confident_reply : str :=
  jq "{'tags':['a','b','c'],'summary':'s','confidence':0.95}".
Definition unsure_reply : str :=
  jq "{'tags':['a','b','c'],'summary':'s','confidence':0.4}".
Definition remote_reply : str :=
  jq "{'tags':['x','y','z'],'summary':'r','confidence':0.8}".
Definition out_of_range_reply : str :=
  jq "{'tags':[],'summary':'s','confidence':5.0}".

(** What the specification promises of every outcome. *)
Definition in_range (resp : ClassifyResponse) : Prop :=
  PyFloat.leb f_0_0 (confidence resp) = true /\
  PyFloat.leb (confidence resp) f_1_0 = true /\
  1 <= length (tags resp) <= 7.

(** The decoding step of [parse_json_response] on the normalized text. *)
Definition decode (cfg : Config) (s : str) : exn + value :=
  match json_loads cfg s with
  | Json.Ok v => inr v
  | Json.JSONDecodeError e => inl (ValueError (FailedToParseJSON e))
  | Json.DigitLimit => inl (ValueError ExceedsIntMaxStrDigits)
  | Json.RecursionLimit => inl RecursionError
  end.

Definition is_dict (v : value) : bool :=
  match v with VDict _ => true | _ => false end.

(** Where an outcome comes from. *)
Definition from_degraded (t : str) (resp : ClassifyResponse) : Prop :=
  resp = degraded t /\ confidence resp = f_0_3 /\ 3 <= length (tags resp) <= 4.

(** The value a key has after [setdefault]: the one it had, or the
    default. *)
Definition or_default (d : Dict.dict) (k : str) (default : value) : value :=
  match Dict.get d k with
  | Some v => v
  | None => default
  end.

(** The adapter invocation an outcome comes from: it is the last one of
    the log, [c] is the client of its backend, [n] the number of requests
    that client had served before in this call, and [model] names the
    backend. *)
Definition produced_by (cfg : Config) (l : log) (resp : ClassifyResponse)
           (c : Client) (n : nat) : Prop :=
  exists b l0,
    l = l0 ++ [b] /\ n = uses b l0 /\
    match b with
    | Local => local_client cfg = Some c /\ model resp = LOCAL_MODEL cfg
    | Remote => anthropic_client cfg = Some c /\ model resp = CLAUDE_MODEL
    end.

(** The outcome carries what the backend replied to that invocation: the
    reply decodes to a dict, and the tags, the summary and the confidence of
    the outcome are those of the dict ([[]], [""] and [0.5] for a key the
    dict does not have), the confidence as the float field reads it. *)
Definition from_backend (cfg : Config) (t : str) (l : log)
           (resp : ClassifyResponse) : Prop :=
  exists c n content d0,
    produced_by cfg l resp c n /\
    c n (user_message t) = Returns content /\
    parse_json_response cfg content = inr (VDict d0) /\
    or_default d0 (lit "tags") (VList []) = VList (List.map VStr (tags resp)) /\
    or_default d0 (lit "summary") (VStr []) = VStr (summary resp) /\
    as_float cfg (or_default d0 (lit "confidence") (VFloat f_0_5))
    = Some (confidence resp).

Definition f_0_95 : PyFloat.float := Eval vm_compute in PyFloat.of_decimal false 95 (-2).
Definition f_0_8 : PyFloat.float := Eval vm_compute in PyFloat.of_decimal false 8 (-1).
Definition f_0_4 : PyFloat.float := Eval vm_compute in PyFloat.of_decimal false 4 (-1).
Definition f_5_0 : PyFloat.float := Eval vm_compute in PyFloat.of_decimal false 50 (-1).

(** Two texts for the degraded responder: two words between spaces, a line
    feed and a tab; and [n] words separated by single spaces. *)
Definition spaced_text : str := lit "  hello" ++ [10; 9]%N ++ lit "world ".

Definition many_words (n : nat) : str := join (lit " ") (repeat (lit "ab") n).

(** A reply without tags, whose confidence is written as a string, and what
    the caller receives for it. *)
Definition bare_reply : str := jq "{'summary':'s','confidence':'0.9'}".

Definition bare_response : ClassifyResponse :=
  {| tags := []; summary := lit "s"; confidence := f_0_9;
     model := lit "Qwen/Qwen2.5-14B-Instruct-AWQ"; fallback_used := false |}.

(** What the caller receives for [out_of_range_reply]. *)
Definition out_of_range_response : ClassifyResponse :=
  {| tags := []; summary := lit "s"; confidence := f_5_0;
     model := lit "Qwen/Qwen2.5-14B-Instruct-AWQ"; fallback_used := false |}.

Definition abc : list str := [lit "a"; lit "b"; lit "c"].
Definition xyz : list str := [lit "x"; lit "y"; lit "z"].

Definition both_configured (local_reply : str) : Config :=
  config true (Some (always (Returns local_reply)))
              (Some (always (Returns remote_reply))).

(** The result an adapter makes of a reply. *)
Definition result_of (content : str) : value :=
  match finish (config true None None) content with
  | inr v => v
  | inl _ => VNone
  end.

Definition dict_of (v : value) : Dict.dict :=
  match v with
  | VDict d => d
  | _ => []
  end.

Definition confident_result : value := Eval vm_compute in result_of confident_reply.
Definition unsure_result : value := Eval vm_compute in result_of unsure_reply.
Definition remote_result_value : value := Eval vm_compute in result_of remote_reply.

(** A reply with prose before and after the fenced block of the example. *)
Definition chatty_reply : str :=
  lit "  Here you go: " ++ fenced_reply ++ lit " Hope this helps! ``` {} ```  ".

(* ===================================================================== *)
(** * Module start-up and the health endpoint *)
(* ===================================================================== *)

(** The four environment variables the module reads; each one is unset or
    holds a string. *)
Record Environ := {
  ENV_LOCAL_VLLM_BASE : option str;
  ENV_LOCAL_MODEL : option str;
  ENV_ANTHROPIC_API_KEY : option str;
  ENV_USE_LOCAL_FIRST : option str
}.

(** [os.getenv(name, default)] *)
Definition getenv (v : option str) (default : str) : str :=
  match v with
  | Some s => s
  | None => default
  end.

(** The globals of the module after import: the two strings [health] reads
    and the configuration [classify] uses. *)
Record Globals := {
  LOCAL_VLLM_BASE : str;
  ANTHROPIC_API_KEY : str;
  settings : Config
}.

(** The answer of [GET /health]. *)
Record HealthReport := {
  status : str;
  local_configured : bool;
  api_configured : bool;
  models : list str
}.

Section Startup.

(** [str.lower], and the two client constructors ([OpenAI(base_url=...)],
    [Anthropic(api_key=...)]), are taken as given. *)
Variable lower : str -> str.
Variable OpenAI : str -> Client.
Variable Anthropic : str -> Client.

(** What the process takes from the interpreter and from pydantic (see
    [Config]). *)
Variable max_digits : nat.
Variable depth : nat.
Variable float_of_str : str -> option PyFloat.float.

(** The top-level statements of the module. *)
Definition load (env : Environ) : Globals :=
  let base := getenv (ENV_LOCAL_VLLM_BASE env) [] in
  let local_model :=
    getenv (ENV_LOCAL_MODEL env) (lit "Qwen/Qwen2.5-14B-Instruct-AWQ") in
  let key := getenv (ENV_ANTHROPIC_API_KEY env) [] in
  let first :=
    str_eqb (lower (getenv (ENV_USE_LOCAL_FIRST env) (lit "true"))) (lit "true") in
  {| LOCAL_VLLM_BASE := base;
     ANTHROPIC_API_KEY := key;
     settings :=
       {| LOCAL_MODEL := local_model;
          USE_LOCAL_FIRST := first;
          local_client := if truthy base then Some (OpenAI base) else None;
          anthropic_client := if truthy key then Some (Anthropic key) else None;
          int_max_str_digits := max_digits;
          recursion_limit := depth;
          str_as_float := float_of_str |} |}.

End Startup.

Definition health (g : Globals) : HealthReport :=
  let local_configured := negb (str_eqb (LOCAL_VLLM_BASE g) []) in
  let api_configured := negb (str_eqb (ANTHROPIC_API_KEY g) []) in
  let models := [] in
  let models :=
    if local_configured then models ++ [LOCAL_MODEL (settings g)] else models in
  let models :=
    if api_configured then models ++ [CLAUDE_MODEL] else models in
  {| status := lit "healthy";
     local_configured := local_configured;
     api_configured := api_configured;
     models := models |}.

(** [str.lower] on the ASCII range. *)
Definition ascii_lower (c : char) : char :=
  if ((65 <=? c) && (c <=? 90))%N then (c + 32)%N else c.

Definition is_ascii (s : str) : bool := forallb (fun c => (c <? 128)%N) s.

(* ===================================================================== *)
(** * Definitions used by the further properties *)
(* ===================================================================== *)

Definition is_default_key (k : str) : bool :=
  str_eqb k (lit "tags") || str_eqb k (lit "summary") || str_eqb k (lit "confidence").

(** [d] is the decoded reply [d0] with the three defaults filled in: every
    entry of [d0] is kept, each of the three keys is present, and no other
    key is added. *)
Definition filled (d0 d : Dict.dict) : Prop :=
  (forall k v, Dict.get d0 k = Some v -> Dict.get d k = Some v) /\
  Dict.get d (lit "tags") = Some (or_default d0 (lit "tags") (VList [])) /\
  Dict.get d (lit "summary") = Some (or_default d0 (lit "summary") (VStr [])) /\
  Dict.get d (lit "confidence")
  = Some (or_default d0 (lit "confidence") (VFloat f_0_5)) /\
  (forall k, is_default_key k = false -> Dict.get d k = Dict.get d0 k).

(** The values [<] compares with a float without a [TypeError]. *)
Definition numeric (v : value) : bool :=
  match v with
  | VFloat _ | VInt _ | VBool _ => true
  | _ => false
  end.

(** The logs a request can leave. *)
Definition possible_logs : list log :=
  [[]; [Remote]; [Local]; [Local; Remote]; [Local; Remote; Remote]].

(** Fixtures of the further properties. *)
Definition local_down : Config :=
  config true (Some failing) (Some (always (Returns remote_reply))).

Definition remote_only : Config :=
  config false (Some (always (Returns confident_reply)))
               (Some (always (Returns remote_reply))).

Definition local_only (local_reply : str) : Config :=
  config true (Some (always (Returns local_reply))) None.

Definition odd_confidence_reply : str :=
  jq "{'tags':['a','b','c'],'summary':'s','confidence':'high'}".

Definition xyz_response (fallback : bool) : ClassifyResponse :=
  {| tags := xyz; summary := lit "r"; confidence := f_0_8;
     model := CLAUDE_MODEL; fallback_used := fallback |}.

Definition abc_response (c : PyFloat.float) : ClassifyResponse :=
  {| tags := abc; summary := lit "s"; confidence := c;
     model := lit "Qwen/Qwen2.5-14B-Instruct-AWQ"; fallback_used := false |}.

(** The four letters of ["true"], each in either case. *)
Definition spells_true (v : str) : bool :=
  match v with
  | [t; r; u; e] =>
      ((t =? 116) || (t =? 84)) && ((r =? 114) || (r =? 82))
      && ((u =? 117) || (u =? 85)) && ((e =? 101) || (e =? 69))
  | _ => false
  end%N.

Definition env_with_flag (v : option str) : Environ :=
  {| ENV_LOCAL_VLLM_BASE := Some (lit "http://vllm:8000/v1");
     ENV_LOCAL_MODEL := None;
     ENV_ANTHROPIC_API_KEY := None;
     ENV_USE_LOCAL_FIRST := v |}.

Definition lower_ascii_only (s : str) : str := List.map ascii_lower s.

(** A text of more than 4000 characters: 4000 letters, then [suffix]. *)
Definition long_text (suffix : str) : str := repeat 97%N 4000 ++ suffix.

(** Two optional clients that are both absent, or both present and reply
    alike to the message [m], however many requests came before. *)
Definition agree_on (m : str) (c c' : option Client) : Prop :=
  match c, c' with
  | None, None => True
  | Some f, Some g => forall n, f n m = g n m
  | _, _ => False
  end.

(** [cfg] with other clients. *)
Definition with_clients (cfg : Config) (l r : option Client) : Config :=
  {| LOCAL_MODEL := LOCAL_MODEL cfg;
     USE_LOCAL_FIRST := USE_LOCAL_FIRST cfg;
     local_client := l;
     anthropic_client := r;
     int_max_str_digits := int_max_str_digits cfg;
     recursion_limit := recursion_limit cfg;
     str_as_float := str_as_float cfg |}.

(** The client that replies as [c] to the message [m] and with [other] to
    every other message. *)
Definition only_on (m : str) (c : Client) (other : reply) : Client :=
  fun n x => if str_eqb x m then c n x else other.

(** What [lead_re] is written for: a fence at the start of the text, the
    optional tag and the whitespace after it. *)
Definition opening_marker (o : str) : Prop :=
  exists tag ws, is_tag tag /\ all_space ws /\ o = fence ++ tag ++ ws.

(** What [trail_re] is written for: a fence at the end of the text and the
    whitespace before it. *)
Definition closing_marker (c : str) : Prop :=
  exists ws, all_space ws /\ c = ws ++ fence.

(** The number of backticks of a text. *)
Definition ticks (s : str) : nat := count_occ N.eq_dec s 96%N.

Definition fenced_array : str := lit "```json" ++ [10%N] ++ lit "[1, 2]" ++ [10%N] ++ lit "```".

(* ===================================================================== *)
(** * [json.loads] never uses up its budget *)
(* ===================================================================== *)

Module JsonFacts.
Import Json.

Lemma good_mono {A} s s' (r : res (A * str)) :
  good s r -> length s <= length s' -> good s' r.
Proof.
  destruct r as [[a rest] | m | |]; simpl; [lia | auto | auto | auto].
Qed.

Lemma skip_ws_le s : length (skip_ws s) <= length s.
Proof.
  induction s as [| c t IH]; simpl; [lia |].
  destruct (is_ws c); simpl; lia.
Qed.

Ltac split_matches H :=
  repeat (cbv beta match in H;
          match type of H with
          | context [match ?x with _ => _ end] => destruct x eqn:?
          end).

Lemma scanstring_good : forall n s acc,
  length s <= n -> good s (scanstring acc s).
Proof.
  induction n as [| n IH]; intros s acc Hn.
  - destruct s; [simpl; discriminate | simpl in Hn; lia].
  - destruct s as [| c t]; [simpl; discriminate |].
    unfold good.
    destruct (scanstring acc (c :: t)) as [[x r] | m | |] eqn:H;
      [| | exact I | exact I];
      cbn [scanstring] in H; split_matches H;
      try discriminate H;
      try (injection H as <- <-; simpl; lia);
      try (injection H as <-; discriminate);
      match type of H with
      | scanstring ?a ?l = _ =>
          let G := fresh in
          assert (G : length l <= n) by (simpl in *; lia);
          pose proof (IH l a G) as G'; rewrite H in G'; simpl in *;
          try lia; try exact G'
      end.
Qed.

Lemma take_digits_le s : forall ds r,
  take_digits s = (ds, r) -> length r + length ds = length s.
Proof.
  induction s as [| c t IH]; intros ds r H; simpl in H.
  - injection H as <- <-. reflexivity.
  - destruct (is_digit c).
    + destruct (take_digits t) as [ds' r'] eqn:E. injection H as <- <-.
      specialize (IH _ _ eq_refl). simpl. lia.
    + injection H as <- <-. simpl. lia.
Qed.

Lemma take_int_part_lt s ds r :
  take_int_part s = Some (ds, r) -> length r < length s.
Proof.
  unfold take_int_part. destruct s as [| c t]; [discriminate |].
  destruct (c =? 48)%N; [intros [= <- <-]; simpl; lia |].
  destruct (is_digit c) eqn:Hc; [| discriminate].
  intros [= H]. simpl in H. rewrite Hc in H.
  destruct (take_digits t) as [ds' r'] eqn:E. injection H as <- <-.
  apply take_digits_le in E. simpl. lia.
Qed.

Lemma take_frac_le s ds r : take_frac s = Some (ds, r) -> length r <= length s.
Proof.
  unfold take_frac. destruct s as [| c t]; [discriminate |].
  destruct (c =? 46)%N; [| discriminate].
  destruct (take_digits t) as [ds' r'] eqn:E. apply take_digits_le in E.
  destruct ds'; [discriminate |]. intros [= <- <-]. simpl in *. lia.
Qed.

Lemma take_exp_le s e r : take_exp s = Some (e, r) -> length r <= length s.
Proof.
  unfold take_exp. destruct s as [| c t]; [discriminate |].
  destruct ((c =? 101) || (c =? 69))%N; [| discriminate].
  destruct t as [| sg t1].
  - simpl. discriminate.
  - destruct (sg =? 45)%N; [| destruct (sg =? 43)%N];
      match goal with
      | |- context [take_digits ?l] =>
          destruct (take_digits l) as [ds' r'] eqn:E; apply take_digits_le in E
      end;
      (destruct ds'; [discriminate |]); intros [= <- <-]; simpl in *; lia.
Qed.

Lemma match_number_lt k s v r :
  match_number k s = Some (Ok (v, r)) -> length r < length s.
Proof.
  unfold match_number.
  set (p := match s with
            | c :: t => if (c =? 45)%N then (true, t) else (false, s)
            | [] => (false, s)
            end).
  assert (Hp : length (snd p) <= length s).
  { subst p. destruct s as [| c t]; simpl; [lia |].
    destruct (c =? 45)%N; simpl; lia. }
  destruct p as [neg s1]. simpl in Hp.
  destruct (take_int_part s1) as [[ids s2] |] eqn:E1; [| discriminate].
  apply take_int_part_lt in E1.
  destruct (take_frac s2) as [[fds r2] |] eqn:E2.
  - apply take_frac_le in E2.
    destruct (take_exp r2) as [[e r3] |] eqn:E3.
    + apply take_exp_le in E3. intros [= <- <-]. lia.
    + intros [= <- <-]. lia.
  - destruct (take_exp s2) as [[e r3] |] eqn:E3.
    + apply take_exp_le in E3. intros [= <- <-]. lia.
    + destruct (too_many_digits k ids); [discriminate |].
      intros [= <- <-]. lia.
Qed.

Lemma match_number_good k s r : match_number k s = Some r -> good s r.
Proof.
  destruct r as [[v rest] | m | |]; intros H; simpl; auto.
  - exact (match_number_lt _ _ H).
  - exfalso. revert H. unfold match_number.
    repeat match goal with
           | |- context [match ?x with _ => _ end] => destruct x
           end; discriminate.
Qed.

Lemma strip_prefix_length l : forall s r,
  Re.strip_prefix l s = Some r -> length s = length l + length r.
Proof.
  induction l as [| a l IH]; intros s r H; simpl in H.
  - injection H as <-. reflexivity.
  - destruct s as [| b s']; [discriminate |].
    destruct (a =? b)%N; [| discriminate].
    simpl. rewrite (IH _ _ H). reflexivity.
Qed.

Lemma match_constant_lt s v r :
  match_constant constants s = Some (v, r) -> length r < length s.
Proof.
  unfold constants. cbn [match_constant].
  repeat match goal with
         | |- context [Re.strip_prefix ?l s] =>
             let E := fresh "E" in
             destruct (Re.strip_prefix l s) eqn:E;
             [apply strip_prefix_length in E; intros [= <- <-];
              rewrite E; simpl; lia |]
         end.
  discriminate.
Qed.

(** With enough budget for the text in hand, none of the three functions
    reports the budget error, and each one consumes some text. *)
Lemma budget k : forall fuel,
  (forall depth s, 2 * length s + 1 <= fuel -> good s (scan_once k fuel depth s)) /\
  (forall depth d s, 2 * length s + 1 <= fuel -> good s (members k fuel depth d s)) /\
  (forall depth acc s,
     2 * length s + 2 <= fuel -> good s (elements k fuel depth acc s)).
Proof.
  induction fuel as [| n (IHs & IHm & IHe)].
  - repeat split; intros; lia.
  - repeat split.
    + intros depth s Hn. destruct s as [| c t]; [simpl; discriminate |].
      cbn [scan_once].
      destruct (c =? 34)%N.
      { pose proof (@scanstring_good (length t) t [] (le_n _)) as G.
        destruct (scanstring [] t) as [[x r] | m | |]; simpl in *;
          [lia | exact G | exact I | exact I]. }
      destruct (c =? 123)%N.
      { destruct depth as [| inner]; [exact I |].
        pose proof (skip_ws_le t) as L.
        destruct (skip_ws t) as [| c1 t1]; [simpl; discriminate |].
        destruct (c1 =? 125)%N; [simpl in *; lia |].
        destruct (c1 =? 34)%N; [| simpl; discriminate].
        apply good_mono with (s := t1); [| simpl in *; lia].
        apply IHm. simpl in *. lia. }
      destruct (c =? 91)%N.
      { destruct depth as [| inner]; [exact I |].
        pose proof (skip_ws_le t) as L.
        destruct (skip_ws t) as [| c1 t1].
        - apply good_mono with (s := []); [| simpl; lia].
          apply IHe. simpl in *. lia.
        - destruct (c1 =? 93)%N; [simpl in *; lia |].
          apply good_mono with (s := c1 :: t1); [| simpl in *; lia].
          apply IHe. simpl in *. lia. }
      destruct (match_number k (c :: t)) as [r |] eqn:E.
      { exact (match_number_good _ _ E). }
      destruct (match_constant constants (c :: t)) as [[v r] |] eqn:E'.
      { apply match_constant_lt in E'. exact E'. }
      simpl. discriminate.
    + intros depth d s Hn. cbn [members].
      pose proof (@scanstring_good (length s) s [] (le_n _)) as G.
      destruct (scanstring [] s) as [[key s1] | m | |];
        [| exact G | exact I | exact I].
      simpl in G. pose proof (skip_ws_le s1) as L1.
      destruct (skip_ws s1) as [| c s2]; [simpl; discriminate |].
      destruct (c =? 58)%N; [| simpl; discriminate].
      pose proof (skip_ws_le s2) as L2.
      assert (Gv : good (skip_ws s2) (scan_once k n depth (skip_ws s2)))
        by (apply IHs; simpl in *; lia).
      destruct (scan_once k n depth (skip_ws s2)) as [[v s3] | m | |];
        [| exact Gv | exact I | exact I].
      simpl in Gv. pose proof (skip_ws_le s3) as L3.
      destruct (skip_ws s3) as [| c1 s4]; [simpl; discriminate |].
      destruct (c1 =? 125)%N; [simpl in *; lia |].
      destruct (c1 =? 44)%N; [| simpl; discriminate].
      pose proof (skip_ws_le s4) as L4.
      destruct (skip_ws s4) as [| c2 s5]; [simpl; discriminate |].
      destruct (c2 =? 34)%N; [| simpl; discriminate].
      apply good_mono with (s := s5); [| simpl in *; lia].
      apply IHm. simpl in *. lia.
    + intros depth acc s Hn. cbn [elements].
      assert (Gv : good s (scan_once k n depth s)) by (apply IHs; lia).
      destruct (scan_once k n depth s) as [[v s1] | m | |];
        [| exact Gv | exact I | exact I].
      simpl in Gv. pose proof (skip_ws_le s1) as L1.
      destruct (skip_ws s1) as [| c s2]; [simpl; discriminate |].
      destruct (c =? 93)%N; [simpl in *; lia |].
      destruct (c =? 44)%N; [| simpl; discriminate].
      pose proof (skip_ws_le s2) as L2.
      apply good_mono with (s := skip_ws s2); [| simpl in *; lia].
      apply IHe. simpl in *. lia.
Qed.

(** [json.loads] never fails for lack of budget. *)
Lemma loads_within_budget k depth s :
  loads k depth s <> JSONDecodeError BudgetExhausted.
Proof.
  unfold loads. destruct (starts_with_bom s); [discriminate |].
  pose proof (skip_ws_le s) as L.
  assert (G : good (skip_ws s) (scan_once k (2 * length s + 2) depth (skip_ws s)))
    by (apply (proj1 (budget k _)); lia).
  destruct (scan_once k (2 * length s + 2) depth (skip_ws s)) as [[v r] | m | |].
  - destruct (skip_ws r); discriminate.
  - simpl in G. congruence.
  - discriminate.
  - discriminate.
Qed.

End JsonFacts.

(* ===================================================================== *)
(** * Running the adapters *)
(* ===================================================================== *)

Lemma after_parse_run cfg content l :
  after_parse cfg content l = (finish cfg content, l).
Proof.
  unfold after_parse, finish, bind, lift, setdefault, ret, raise.
  destruct (parse_json_response cfg content) as [e | v]; [reflexivity |].
  destruct v; reflexivity.
Qed.

Lemma uses_snoc b l : uses b (l ++ [b]) = S (uses b l).
Proof.
  unfold uses. rewrite filter_app, length_app. simpl.
  destruct b; simpl; lia.
Qed.

Lemma create_run b c t l :
  create b c t l =
  (match c (pred (uses b l)) (user_message t) with
   | Raises e => inl e
   | Returns content => inr content
   end, l).
Proof.
  cbv [create bind served uses].
  destruct (c _ (user_message t)); reflexivity.
Qed.

Lemma classify_with_local_run cfg t l :
  classify_with_local cfg t l = (local_result cfg (uses Local l) t, l ++ [Local]).
Proof.
  unfold classify_with_local, local_result, invoke.
  cbv [bind enter].
  destruct (local_client cfg) as [c |]; [| reflexivity].
  cbv [bind]. rewrite create_run, uses_snoc. simpl.
  destruct (c (uses Local l) (user_message t)); [reflexivity |].
  apply after_parse_run.
Qed.

Lemma classify_with_api_run cfg t l :
  classify_with_api cfg t l = (remote_result cfg (uses Remote l) t, l ++ [Remote]).
Proof.
  unfold classify_with_api, remote_result, invoke.
  cbv [bind enter].
  destruct (anthropic_client cfg) as [c |]; [| reflexivity].
  cbv [bind]. rewrite create_run, uses_snoc. simpl.
  destruct (c (uses Remote l) (user_message t)); [reflexivity |].
  apply after_parse_run.
Qed.

(* ===================================================================== *)
(** * Basic facts about strings *)
(* ===================================================================== *)

Lemma lstrip_all_space s : forallb is_space s = true -> lstrip s = [].
Proof.
  induction s as [| c t IH]; simpl; [reflexivity |].
  intros H. apply andb_true_iff in H as [Hc Ht]. rewrite Hc. auto.
Qed.

Lemma strip_all_space s : forallb is_space s = true -> strip s = [].
Proof.
  intros H. unfold strip. rewrite (lstrip_all_space _ H). reflexivity.
Qed.

Lemma blank_false t : strip t <> [] -> blank t = false.
Proof.
  intros H. unfold blank.
  destruct t as [| c t']; [exfalso; apply H; reflexivity |].
  destruct (strip (c :: t')); [congruence | reflexivity].
Qed.

Lemma blank_true t : t = [] \/ forallb is_space t = true -> blank t = true.
Proof.
  intros [-> | H]; [reflexivity |].
  unfold blank. rewrite (strip_all_space _ H). apply orb_true_r.
Qed.

Lemma as_str_list_map l : as_str_list (List.map VStr l) = Some l.
Proof.
  induction l as [| a l IH]; simpl; [reflexivity |]. rewrite IH. reflexivity.
Qed.

(* ===================================================================== *)
(** * The degraded responder *)
(* ===================================================================== *)

Lemma min_firstn {A} n (l : list A) : firstn (Nat.min n (length l)) l = firstn n l.
Proof.
  destruct (Nat.le_ge_cases n (length l)) as [H | H].
  - rewrite Nat.min_l by exact H. reflexivity.
  - rewrite Nat.min_r by exact H.
    rewrite firstn_all. symmetry. apply firstn_all2. exact H.
Qed.

Lemma heuristic_fallback_eq t :
  heuristic_fallback t =
  VDict [ (lit "tags", VList (List.map VStr (tags (degraded t))));
          (lit "summary", VStr (summary (degraded t)));
          (lit "confidence", VFloat f_0_3) ].
Proof.
  unfold heuristic_fallback, degraded, slice_to. cbn [tags summary].
  rewrite min_firstn.
  destruct (length (split t) <? 100); [| destruct (1000 <? length (split t))];
    destruct (50 <? length (split t)); rewrite ?app_nil_r; reflexivity.
Qed.

Lemma respond_degraded cfg t l :
  respond cfg (heuristic_fallback t) (lit "heuristic") true l = (inr (degraded t), l).
Proof.
  rewrite heuristic_fallback_eq.
  cbv [respond bind getitem].
  change (Dict.get _ (lit "tags"))
    with (Some (VList (List.map VStr (tags (degraded t))))).
  change (Dict.get _ (lit "summary")) with (Some (VStr (summary (degraded t)))).
  change (Dict.get _ (lit "confidence")) with (Some (VFloat f_0_3)).
  cbv [ret make_response as_float]. rewrite as_str_list_map.
  reflexivity.
Qed.

(* ===================================================================== *)
(** * The paths of [classify] *)
(* ===================================================================== *)

Lemma classify_unfold cfg request :
  classify cfg request =
  if blank (text request)
  then raise (HTTPException 400 (lit "Text cannot be empty"))
  else
    '(result, model_used, fallback_used) <-
      try_except
        (if force_api request then
           result <- classify_with_api cfg (text request) ;;
           ret (result, CLAUDE_MODEL, false)
         else if force_local request then
           result <- classify_with_local cfg (text request) ;;
           ret (result, LOCAL_MODEL cfg, false)
         else if USE_LOCAL_FIRST cfg && is_some (local_client cfg) then
           try_except
             (result <- classify_with_local cfg (text request) ;;
              c <- getitem result (lit "confidence") ;;
              low <- lt_float c f_0_7 ;;
              if low && is_some (anthropic_client cfg) then
                result <- classify_with_api cfg (text request) ;;
                ret (result, CLAUDE_MODEL, true)
              else ret (result, LOCAL_MODEL cfg, false))
             (fun e =>
                if is_some (anthropic_client cfg) then
                  result <- classify_with_api cfg (text request) ;;
                  ret (result, CLAUDE_MODEL, true)
                else raise e)
         else if is_some (anthropic_client cfg) then
           result <- classify_with_api cfg (text request) ;;
           ret (result, CLAUDE_MODEL, false)
         else
           raise (HTTPException 503 (lit "No classification backend configured")))
        (fun e => ret (heuristic_fallback (text request), lit "heuristic", true)) ;;
    respond cfg result model_used fallback_used.
Proof. reflexivity. Qed.

Lemma respond_run cfg result m fb l :
  respond cfg result m fb l = (response_of cfg result m fb, l).
Proof.
  unfold response_of, respond. cbv [bind getitem ret raise].
  destruct result; try reflexivity.
  destruct (Dict.get d (lit "tags")) as [vt |]; [| reflexivity].
  destruct (Dict.get d (lit "summary")) as [vs |]; [| reflexivity].
  destruct (Dict.get d (lit "confidence")) as [vc |]; [| reflexivity].
  unfold make_response.
  destruct vt; try reflexivity.
  destruct vs; try reflexivity.
  destruct (as_float cfg vc); [| reflexivity].
  destruct (as_str_list l0); reflexivity.
Qed.

Ltac handler_run :=
  cbv [bind try_except ret raise];
  repeat first
    [ rewrite classify_with_api_run
    | rewrite classify_with_local_run
    | rewrite respond_degraded
    | rewrite respond_run ];
  cbn [uses filter backend_eqb length app].

(** Forcing the remote backend: one remote invocation, whatever else is
    set. *)
Lemma classify_force_api cfg request :
  blank (text request) = false ->
  force_api request = true ->
  run_handler (classify cfg request) =
  match remote_result cfg 0 (text request) with
  | inr result => (response_of cfg result CLAUDE_MODEL false, [Remote])
  | inl _ => (inr (degraded (text request)), [Remote])
  end.
Proof.
  intros Hb Hf. unfold run_handler. rewrite classify_unfold, Hb, Hf.
  handler_run.
  destruct (remote_result cfg 0 (text request)); handler_run; reflexivity.
Qed.

(** Forcing the local backend (and not the remote one). *)
Lemma classify_force_local cfg request :
  blank (text request) = false ->
  force_api request = false ->
  force_local request = true ->
  run_handler (classify cfg request) =
  match local_result cfg 0 (text request) with
  | inr result => (response_of cfg result (LOCAL_MODEL cfg) false, [Local])
  | inl _ => (inr (degraded (text request)), [Local])
  end.
Proof.
  intros Hb Ha Hl. unfold run_handler. rewrite classify_unfold, Hb, Ha, Hl.
  handler_run.
  destruct (local_result cfg 0 (text request)); handler_run; reflexivity.
Qed.

(** The local-first branch. *)
Lemma classify_local_first cfg request lc :
  blank (text request) = false ->
  force_api request = false ->
  force_local request = false ->
  USE_LOCAL_FIRST cfg = true ->
  local_client cfg = Some lc ->
  run_handler (classify cfg request) =
  match local_result cfg 0 (text request) with
  | inl _ => escalate cfg (text request) [Local]
  | inr result =>
      match low_confidence result with
      | inl _ => escalate cfg (text request) [Local]
      | inr low =>
          if low && is_some (anthropic_client cfg) then
            match remote_result cfg 0 (text request) with
            | inr result2 =>
                (response_of cfg result2 CLAUDE_MODEL true, [Local; Remote])
            | inl _ => escalate cfg (text request) [Local; Remote]
            end
          else (response_of cfg result (LOCAL_MODEL cfg) false, [Local])
      end
  end.
Proof.
  intros Hb Ha Hl Hf Hc. unfold run_handler.
  rewrite classify_unfold, Hb, Ha, Hl, Hf, Hc. cbn [is_some andb].
  unfold escalate, low_confidence. handler_run.
  destruct (local_result cfg 0 (text request)) as [e | result] eqn:Hr;
    handler_run.
  - destruct (anthropic_client cfg); cbn [is_some]; handler_run;
      [destruct (remote_result cfg 0 (text request)) |]; handler_run;
      reflexivity.
  - destruct (getitem result (lit "confidence") [Local]) as [[e | c] l1] eqn:Hg.
    + assert (Hg' : getitem result (lit "confidence") [] = (inl e, [])
                    /\ l1 = [Local]).
      { revert Hg. cbv [getitem ret raise]. destruct result; try (intros [= <- <-]; auto).
        destruct (Dict.get d (lit "confidence")); intros [= <- <-]; auto. }
      destruct Hg' as [-> ->]. cbn [fst].
      destruct (anthropic_client cfg); cbn [is_some]; handler_run;
        [destruct (remote_result cfg 0 (text request)) |]; handler_run;
        reflexivity.
    + assert (Hg' : getitem result (lit "confidence") [] = (inr c, [])
                    /\ l1 = [Local]).
      { revert Hg. cbv [getitem ret raise]. destruct result; try (intros [= <- <-]; auto).
        destruct (Dict.get d (lit "confidence")); intros [= <- <-]; auto. }
      destruct Hg' as [-> ->].
      cbv [lt_float ret raise].
      destruct c; cbn [fst];
        try (destruct (anthropic_client cfg); cbn [is_some]; handler_run;
             [destruct (remote_result cfg 0 (text request)) |]; handler_run;
             reflexivity);
        match goal with
        | |- context [if ?b && _ then _ else _] => destruct b
        end; cbn [andb];
        destruct (anthropic_client cfg); cbn [is_some]; handler_run;
        try reflexivity;
        destruct (remote_result cfg 0 (text request)); handler_run;
        try reflexivity;
        destruct (remote_result cfg 1 (text request)); handler_run;
        reflexivity.
Qed.

(** No flag, and local-first off or no local client: the remote client when
    there is one. *)
Lemma classify_remote_only cfg request rc :
  blank (text request) = false ->
  force_api request = false ->
  force_local request = false ->
  USE_LOCAL_FIRST cfg && is_some (local_client cfg) = false ->
  anthropic_client cfg = Some rc ->
  run_handler (classify cfg request) =
  match remote_result cfg 0 (text request) with
  | inr result => (response_of cfg result CLAUDE_MODEL false, [Remote])
  | inl _ => (inr (degraded (text request)), [Remote])
  end.
Proof.
  intros Hb Ha Hl Hf Hc. unfold run_handler.
  rewrite classify_unfold, Hb, Ha, Hl, Hf, Hc. cbn [is_some]. handler_run.
  destruct (remote_result cfg 0 (text request)); handler_run; reflexivity.
Qed.

(** No flag and nothing to call: the [HTTPException] raised in the last
    branch is caught by the handler of the enclosing [try]. *)
Lemma classify_no_backend cfg request :
  blank (text request) = false ->
  force_api request = false ->
  force_local request = false ->
  USE_LOCAL_FIRST cfg && is_some (local_client cfg) = false ->
  anthropic_client cfg = None ->
  run_handler (classify cfg request) = (inr (degraded (text request)), []).
Proof.
  intros Hb Ha Hl Hf Hc. unfold run_handler.
  rewrite classify_unfold, Hb, Ha, Hl, Hf, Hc. cbn [is_some]. handler_run.
  reflexivity.
Qed.

Lemma classify_blank cfg request :
  blank (text request) = true ->
  run_handler (classify cfg request) =
  (inl (HTTPException 400 (lit "Text cannot be empty")), []).
Proof.
  intros Hb. unfold run_handler. rewrite classify_unfold, Hb. reflexivity.
Qed.

Lemma escalate_log cfg t l out l' :
  escalate cfg t l = (out, l') -> l' = l \/ l' = l ++ [Remote].
Proof.
  unfold escalate. destruct (anthropic_client cfg).
  - destruct (remote_result cfg (uses Remote l) t); intros [= _ <-]; auto.
  - intros [= _ <-]. auto.
Qed.

(** The logs a request can leave: the local adapter is invoked at most once,
    the remote adapter at most twice. *)
Lemma classify_invocations cfg rq out l :
  run_handler (classify cfg rq) = (out, l) ->
  In l [[]; [Remote]; [Local]; [Local; Remote]; [Local; Remote; Remote]].
Proof.
  intros H. destruct (blank (text rq)) eqn:Hb.
  { rewrite (classify_blank cfg rq Hb) in H. injection H as _ <-. simpl. auto. }
  destruct (force_api rq) eqn:Ha.
  { rewrite (classify_force_api cfg rq Hb Ha) in H.
    destruct (remote_result cfg 0 (text rq)); injection H as _ <-; simpl; auto. }
  destruct (force_local rq) eqn:Hl.
  { rewrite (classify_force_local cfg rq Hb Ha Hl) in H.
    destruct (local_result cfg 0 (text rq)); injection H as _ <-; simpl; auto. }
  destruct (USE_LOCAL_FIRST cfg && is_some (local_client cfg)) eqn:Hf.
  - apply andb_true_iff in Hf as [Hf Hc].
    destruct (local_client cfg) as [lc |] eqn:Hlc; [| discriminate].
    rewrite (classify_local_first cfg rq Hb Ha Hl Hf Hlc) in H.
    assert (E1 : forall o l', escalate cfg (text rq) [Local] = (o, l') ->
                   In l' [[]; [Remote]; [Local]; [Local; Remote]; [Local; Remote; Remote]]).
    { intros o l' E. apply escalate_log in E as [-> | ->]; simpl; auto. }
    assert (E2 : forall o l', escalate cfg (text rq) [Local; Remote] = (o, l') ->
                   In l' [[]; [Remote]; [Local]; [Local; Remote]; [Local; Remote; Remote]]).
    { intros o l' E. apply escalate_log in E as [-> | ->]; simpl; auto 6. }
    destruct (local_result cfg 0 (text rq)); [exact (E1 _ _ H) |].
    destruct (low_confidence v); [exact (E1 _ _ H) |].
    destruct (b && is_some (anthropic_client cfg)).
    + destruct (remote_result cfg 0 (text rq)); [exact (E2 _ _ H) |].
      injection H as _ <-. simpl. auto.
    + injection H as _ <-. simpl. auto.
  - destruct (anthropic_client cfg) as [rc |] eqn:Hrc.
    + rewrite (classify_remote_only cfg rq Hb Ha Hl Hf Hrc) in H.
      destruct (remote_result cfg 0 (text rq)); injection H as _ <-; simpl; auto.
    + rewrite (classify_no_backend cfg rq Hb Ha Hl Hf Hrc) in H.
      injection H as _ <-. simpl. auto.
Qed.

Lemma classify_invocation_bounds cfg rq out l :
  run_handler (classify cfg rq) = (out, l) ->
  uses Local l <= 1 /\ uses Remote l <= 2.
Proof.
  intros H. apply classify_invocations in H.
  simpl in H. destruct H as [<- | [<- | [<- | [<- | [<- | []]]]]];
    unfold uses; simpl; lia.
Qed.

(* ===================================================================== *)
(** * Comparing confidences *)
(* ===================================================================== *)

Lemma SFcompare_swap a b :
  SFcompare a b = option_map CompOpp (SFcompare b a).
Proof.
  destruct a as [sa | sa | | sa ma ea], b as [sb | sb | | sb mb eb];
    try (destruct sa); try (destruct sb); try reflexivity;
    cbn [SFcompare option_map];
    rewrite (Z.compare_antisym ea eb);
    destruct (ea ?= eb)%Z; cbn [CompOpp]; try reflexivity;
    change (Pos.compare_cont Eq mb ma) with (Pos.compare mb ma);
    change (Pos.compare_cont Eq ma mb) with (Pos.compare ma mb);
    rewrite (Pos.compare_antisym ma mb);
    destruct (ma ?= mb)%positive; reflexivity.
Qed.

Lemma leb_not_ltb f x : PyFloat.leb f x = true -> PyFloat.ltb x f = false.
Proof.
  unfold PyFloat.leb, PyFloat.ltb, SFleb, SFltb.
  rewrite (SFcompare_swap x f).
  destruct (SFcompare f x) as [[| |] |]; simpl; congruence.
Qed.

Lemma int_leb_not_ltb f n :
  PyFloat.int_leb_rev f n = true -> PyFloat.int_ltb n f = false.
Proof.
  unfold PyFloat.int_leb_rev, PyFloat.int_ltb.
  destruct (PyFloat.int_compare n f) as [[| |] |]; congruence.
Qed.

Lemma ge_float_not_low d c :
  Dict.get d (lit "confidence") = Some c ->
  ge_float c f_0_7 = true ->
  low_confidence (VDict d) = inr false.
Proof.
  intros Hg Hge. unfold low_confidence. cbv [bind getitem]. rewrite Hg.
  cbv [ret lt_float]. destruct c; simpl in Hge; try discriminate; cbn [fst].
  - rewrite (int_leb_not_ltb _ _ Hge). reflexivity.
  - rewrite (int_leb_not_ltb _ _ Hge). reflexivity.
  - rewrite (leb_not_ltb _ _ Hge). reflexivity.
Qed.

Lemma below_float_low d c :
  Dict.get d (lit "confidence") = Some c ->
  below_float c f_0_7 = true ->
  low_confidence (VDict d) = inr true.
Proof.
  intros Hg Hlt. unfold low_confidence. cbv [bind getitem]. rewrite Hg.
  cbv [ret lt_float]. destruct c; simpl in Hlt; try discriminate; cbn [fst];
    rewrite Hlt; reflexivity.
Qed.

Lemma response_of_well_typed cfg result ts sm vc c m fb :
  well_typed cfg result ts sm vc c ->
  response_of cfg result m fb = inr (Build_ClassifyResponse ts sm c m fb).
Proof.
  intros (d & -> & Ht & Hs & Hc & Hf).
  unfold response_of, respond. cbv [bind getitem]. rewrite Ht, Hs, Hc.
  cbv [ret make_response]. rewrite Hf, as_str_list_map. reflexivity.
Qed.

(* ===================================================================== *)
(** * The matcher: what a run finds *)
(* ===================================================================== *)

Module ReFacts.
Import Re.

Lemma strip_prefix_some l s r : strip_prefix l s = Some r -> s = l ++ r.
Proof.
  revert s. induction l as [| a l IH]; intros s H; simpl in *.
  - congruence.
  - destruct s as [| b s']; [discriminate |].
    destruct (N.eqb_spec a b) as [-> |]; [| discriminate].
    rewrite (IH _ H). reflexivity.
Qed.

Lemma strip_prefix_app l r : strip_prefix l (l ++ r) = Some r.
Proof.
  induction l as [| a l IH]; simpl; [reflexivity |].
  rewrite N.eqb_refl. exact IH.
Qed.

Section Repetition.
Context {A : Type}.
Variables (p : char -> bool) (g : option str) (k : mstate -> option A).

(** A greedy repetition that succeeds stopped after some prefix made of
    characters of the class. *)
Lemma greedy_some s : forall n a,
  greedy p n s g k = Some a ->
  exists w r, s = w ++ r /\ forallb p w = true /\
              k (MState (n + length w) r g) = Some a.
Proof.
  induction s as [| c t IH]; intros n a H; simpl in H.
  - exists [], []. simpl. rewrite Nat.add_0_r. auto.
  - destruct (p c) eqn:Hc.
    + destruct (greedy p (S n) t g k) as [a' |] eqn:Hg.
      * injection H as <-. destruct (IH _ _ Hg) as (w & r & -> & Hw & Hk).
        exists (c :: w), r. simpl. rewrite Hc, Hw.
        replace (n + S (length w)) with (S n + length w) by lia. auto.
      * exists [], (c :: t). simpl. rewrite Nat.add_0_r. auto.
    + exists [], (c :: t). simpl. rewrite Nat.add_0_r. auto.
Qed.

(** A greedy repetition that fails has tried every such prefix. *)
Lemma greedy_none s : forall n,
  greedy p n s g k = None ->
  forall w r, s = w ++ r -> forallb p w = true ->
              k (MState (n + length w) r g) = None.
Proof.
  induction s as [| c t IH]; intros n H w r Hs Hw; simpl in H.
  - destruct w; [| discriminate]. simpl in Hs. subst r.
    simpl. rewrite Nat.add_0_r. exact H.
  - destruct w as [| c' w'].
    + simpl in Hs. subst r. simpl. rewrite Nat.add_0_r.
      destruct (p c); [| exact H].
      destruct (greedy p (S n) t g k); [discriminate | exact H].
    + simpl in Hs. injection Hs as <- ->.
      simpl in Hw. apply andb_true_iff in Hw as [Hc Hw'].
      rewrite Hc in H.
      destruct (greedy p (S n) (w' ++ r) g k) eqn:Hg; [discriminate |].
      simpl. replace (n + S (length w')) with (S n + length w') by lia.
      apply (IH _ Hg); auto.
Qed.

(** A non-greedy repetition that succeeds stopped at the shortest prefix
    after which the continuation succeeds. *)
Lemma lazy_some s : forall n a,
  lazy p n s g k = Some a ->
  exists w r, s = w ++ r /\ forallb p w = true /\
              k (MState (n + length w) r g) = Some a /\
              forall w' r', s = w' ++ r' -> length w' < length w ->
                            k (MState (n + length w') r' g) = None.
Proof.
  induction s as [| c t IH]; intros n a H; simpl in H.
  - destruct (k (MState n [] g)) eqn:Hk; [| discriminate].
    exists [], []. simpl. rewrite Nat.add_0_r.
    repeat split; try congruence. intros w' r' _ Hlt. simpl in Hlt. lia.
  - destruct (k (MState n (c :: t) g)) eqn:Hk.
    + exists [], (c :: t). simpl. rewrite Nat.add_0_r.
      repeat split; try congruence. intros w' r' _ Hlt. simpl in Hlt. lia.
    + destruct (p c) eqn:Hc; [| discriminate].
      destruct (IH _ _ H) as (w & r & -> & Hw & Hka & Hmin).
      exists (c :: w), r. simpl. rewrite Hc, Hw.
      replace (n + S (length w)) with (S n + length w) by lia.
      repeat split; auto.
      intros w' r' Hs Hlt. destruct w' as [| c' w''].
      * simpl in Hs. subst r'. simpl. rewrite Nat.add_0_r. exact Hk.
      * simpl in Hs. injection Hs as <- Hs. simpl in Hlt.
        simpl. replace (n + S (length w'')) with (S n + length w'') by lia.
        apply Hmin; [exact Hs | lia].
Qed.

Lemma lazy_none s : forall n,
  lazy p n s g k = None ->
  forall w r, s = w ++ r -> forallb p w = true ->
              k (MState (n + length w) r g) = None.
Proof.
  induction s as [| c t IH]; intros n H w r Hs Hw; simpl in H.
  - destruct w; [| discriminate]. simpl in Hs. subst r.
    simpl. rewrite Nat.add_0_r.
    destruct (k (MState n [] g)); [discriminate | reflexivity].
  - destruct (k (MState n (c :: t) g)) eqn:Hk; [discriminate |].
    destruct w as [| c' w'].
    + simpl in Hs. subst r. simpl. rewrite Nat.add_0_r. exact Hk.
    + simpl in Hs. injection Hs as <- ->.
      simpl in Hw. apply andb_true_iff in Hw as [Hc Hw'].
      rewrite Hc in H.
      simpl. replace (n + S (length w')) with (S n + length w') by lia.
      apply (IH _ H); auto.
Qed.
End Repetition.

(** [re.search] returns the match at the first offset that has one. *)
Lemma search_from_some r s : forall n m,
  search_from r n s = Some m ->
  exists i, i <= length s /\
            match_at r (n + i) (skipn i s) = Some m /\
            forall j, j < i -> match_at r (n + j) (skipn j s) = None.
Proof.
  induction s as [| c t IH]; intros n m H; simpl in H.
  - destruct (match_at r n []) eqn:Hm; [| discriminate].
    exists 0. simpl. rewrite Nat.add_0_r. repeat split; try congruence; lia.
  - destruct (match_at r n (c :: t)) eqn:Hm.
    + exists 0. simpl. rewrite Nat.add_0_r. repeat split; try congruence; lia.
    + destruct (IH _ _ H) as (i & Hi & Hmi & Hmin).
      exists (S i). simpl.
      replace (n + S i) with (S n + i) by lia.
      repeat split; [lia | exact Hmi |].
      intros [| j] Hj; simpl.
      * rewrite Nat.add_0_r. exact Hm.
      * replace (n + S j) with (S n + j) by lia. apply Hmin. lia.
Qed.

Lemma search_from_none r s : forall n,
  search_from r n s = None ->
  forall i, i <= length s -> match_at r (n + i) (skipn i s) = None.
Proof.
  induction s as [| c t IH]; intros n H i Hi; simpl in H.
  - destruct (match_at r n []) eqn:Hm; [discriminate |].
    simpl in Hi. replace i with 0 by lia. simpl. rewrite Nat.add_0_r. exact Hm.
  - destruct (match_at r n (c :: t)) eqn:Hm; [discriminate |].
    destruct i as [| i'].
    + simpl. rewrite Nat.add_0_r. exact Hm.
    + simpl. replace (n + S i') with (S n + i') by lia.
      apply (IH _ H). simpl in Hi. lia.
Qed.

End ReFacts.

Module FenceFacts.
Import Re ReFacts.

Lemma fence_re_parts :
  fence_re = Cat (Lit (lit "```")) (Cat (Opt (Lit (lit "json"))) body_re).
Proof. reflexivity. Qed.

Lemma forallb_any w : forallb any_char w = true.
Proof. induction w; simpl; auto. Qed.

(** Two readings of the same text as whitespace followed by a character
    that is not whitespace agree. *)
Lemma span_unique w w' c c' x x' :
  all_space w -> all_space w' -> is_space c = false -> is_space c' = false ->
  w ++ c :: x = w' ++ c' :: x' -> w = w' /\ c = c' /\ x = x'.
Proof.
  unfold all_space. revert w'.
  induction w as [| a w IH]; intros [| a' w'] Hw Hw' Hc Hc' H; simpl in *.
  - injection H as -> ->. auto.
  - injection H as -> _. apply andb_true_iff in Hw' as [Ha _]. congruence.
  - injection H as -> _. apply andb_true_iff in Hw as [Ha _]. congruence.
  - injection H as -> H.
    apply andb_true_iff in Hw as [_ Hw]. apply andb_true_iff in Hw' as [_ Hw'].
    destruct (IH _ Hw Hw' Hc Hc' H) as (-> & -> & ->). auto.
Qed.

(** The closing part: whitespace, then the fence. *)
Lemma close_sound n s g m :
  run close_re (MState n s g) report = Some m ->
  exists w post, all_space w /\ s = w ++ fence ++ post /\ snd m = g.
Proof.
  unfold close_re. cbn [run pos rest grp]. intros H.
  apply greedy_some in H as (w & r & -> & Hw & H).
  cbn [run pos rest grp] in H.
  destruct (strip_prefix (lit "```") r) as [post |] eqn:Hp; [| discriminate].
  apply strip_prefix_some in Hp. subst r.
  exists w, post. unfold report in H. cbn [pos grp] in H.
  injection H as <-. auto.
Qed.

Lemma close_complete n w post g :
  all_space w ->
  run close_re (MState n (w ++ fence ++ post) g) report <> None.
Proof.
  intros Hw H. unfold close_re in H. cbn [run pos rest grp] in H.
  pose proof (@greedy_none _ _ _ _ _ _ H w (fence ++ post) eq_refl Hw) as Hk.
  cbn [run pos rest grp] in Hk. unfold fence in Hk.
  rewrite strip_prefix_app in Hk. discriminate.
Qed.

(** The captured object and what follows it. *)
Lemma object_sound n s g0 m :
  run (Group object_re) (MState n s g0) (fun st => run close_re st report) = Some m ->
  exists body w post,
    all_space w /\
    s = lit "{" ++ body ++ lit "}" ++ w ++ fence ++ post /\
    snd m = Some (lit "{" ++ body ++ lit "}") /\
    forall body' w' post',
      all_space w' ->
      body ++ lit "}" ++ w ++ fence ++ post =
      body' ++ lit "}" ++ w' ++ fence ++ post' ->
      length body <= length body'.
Proof.
  unfold object_re. cbn [run pos rest grp]. intros H.
  destruct (strip_prefix (lit "{") s) as [s1 |] eqn:H1; [| discriminate].
  apply strip_prefix_some in H1. subst s.
  apply lazy_some in H as (body & r & -> & _ & H & Hmin).
  cbn [run pos rest grp] in H.
  destruct (strip_prefix (lit "}") r) as [r1 |] eqn:H2; [| discriminate].
  apply strip_prefix_some in H2. subst r.
  apply close_sound in H as (w & post & Hw & -> & Hg).
  exists body, w, post. repeat split; auto.
  - rewrite Hg. f_equal.
    replace (n + length (lit "{") + length body + length (lit "}") - n)
      with (length (lit "{" ++ body ++ lit "}"))
      by (rewrite !length_app; simpl; lia).
    replace (lit "{" ++ body ++ lit "}" ++ w ++ fence ++ post)
      with ((lit "{" ++ body ++ lit "}") ++ w ++ fence ++ post)
      by (rewrite <- !app_assoc; reflexivity).
    rewrite firstn_app, firstn_all, Nat.sub_diag, firstn_O, app_nil_r.
    reflexivity.
  - intros body' w' post' Hw' Heq.
    destruct (Nat.le_gt_cases (length body) (length body')) as [| Hlt]; [assumption |].
    exfalso.
    specialize (Hmin body' _ Heq Hlt).
    cbn [run pos rest grp] in Hmin.
    change (lit "}" ++ w' ++ fence ++ post')
      with (lit "}" ++ (w' ++ fence ++ post')) in Hmin.
    rewrite strip_prefix_app in Hmin.
    exact (@close_complete _ _ _ _ Hw' Hmin).
Qed.

Lemma object_complete n body w post g0 :
  all_space w ->
  run (Group object_re)
      (MState n (lit "{" ++ body ++ lit "}" ++ w ++ fence ++ post) g0)
      (fun st => run close_re st report) <> None.
Proof.
  intros Hw H. unfold object_re in H. cbn [run pos rest grp] in H.
  rewrite strip_prefix_app in H.
  pose proof (@lazy_none _ _ _ _ _ _ H body _ eq_refl (forallb_any body)) as Hk.
  cbn [run pos rest grp] in Hk.
  rewrite strip_prefix_app in Hk.
  exact (@close_complete _ _ _ _ Hw Hk).
Qed.

Lemma body_sound n s m :
  run body_re (MState n s None) report = Some m ->
  exists w1 body w post,
    all_space w1 /\ all_space w /\
    s = w1 ++ lit "{" ++ body ++ lit "}" ++ w ++ fence ++ post /\
    snd m = Some (lit "{" ++ body ++ lit "}") /\
    forall body' w' post',
      all_space w' ->
      body ++ lit "}" ++ w ++ fence ++ post =
      body' ++ lit "}" ++ w' ++ fence ++ post' ->
      length body <= length body'.
Proof.
  unfold body_re. cbn [run pos rest grp]. intros H.
  apply greedy_some in H as (w1 & r & -> & Hw1 & H).
  apply object_sound in H as (body & w & post & Hw & -> & Hm & Hmin).
  exists w1, body, w, post. auto.
Qed.

Lemma body_complete n w1 body w post :
  all_space w1 -> all_space w ->
  run body_re
      (MState n (w1 ++ lit "{" ++ body ++ lit "}" ++ w ++ fence ++ post) None)
      report <> None.
Proof.
  intros Hw1 Hw H. unfold body_re in H. cbn [run pos rest grp] in H.
  pose proof (@greedy_none _ _ _ _ _ _ H w1 _ eq_refl Hw1) as Hk.
  exact (@object_complete _ _ _ _ _ Hw Hk).
Qed.

(** The tag and the whitespace before the object are determined by the
    text. *)
Lemma lead_unique tag tag' w w' x x' :
  is_tag tag -> is_tag tag' -> all_space w -> all_space w' ->
  tag ++ w ++ lit "{" ++ x = tag' ++ w' ++ lit "{" ++ x' ->
  w = w' /\ x = x'.
Proof.
  intros Ht Ht' Hw Hw' H.
  assert (Hsp : forall v y v' y', all_space v -> all_space v' ->
                  v ++ lit "{" ++ y = v' ++ lit "{" ++ y' -> v = v' /\ y = y').
  { intros v y v' y' Hv Hv' E.
    destruct (@span_unique v v' 123%N 123%N y y' Hv Hv' eq_refl eq_refl E)
      as (-> & _ & ->). auto. }
  assert (Hj : forall v y z, all_space v ->
                 v ++ lit "{" ++ y = lit "json" ++ z -> False).
  { intros v y z Hv E. destruct v as [| a v]; [discriminate E |].
    injection E as -> _. discriminate Hv. }
  destruct Ht as [-> | ->], Ht' as [-> | ->].
  - apply Hsp; assumption.
  - exfalso. exact (Hj _ _ _ Hw H).
  - exfalso. symmetry in H. exact (Hj _ _ _ Hw' H).
  - apply app_inv_head in H. apply Hsp; assumption.
Qed.

(** A successful attempt has found a fenced block, and the shortest object
    that closes it. *)
Lemma fence_sound n s m :
  match_at fence_re n s = Some m ->
  exists g post,
    snd m = Some g /\ fenced_block s g post /\
    forall g' post', fenced_block s g' post' -> length g <= length g'.
Proof.
  unfold match_at. rewrite fence_re_parts. cbn [run pos rest grp].
  fold report. intros H.
  destruct (strip_prefix (lit "```") s) as [s1 |] eqn:H1; [| discriminate].
  apply strip_prefix_some in H1. subst s.
  assert (Hb : exists tag s2 n',
             is_tag tag /\ s1 = tag ++ s2 /\
             run body_re (MState n' s2 None) report = Some m).
  { destruct (strip_prefix (lit "json") s1) as [s2 |] eqn:H2.
    - apply strip_prefix_some in H2.
      destruct (run body_re (MState (n + length (lit "```") + length (lit "json")) s2 None) report)
        as [a |] eqn:Hr.
      + injection H as <-. exists (lit "json"), s2. eexists.
        repeat split; [right; reflexivity | exact H2 | exact Hr].
      + exists [], s1. eexists. repeat split; [left; reflexivity | exact H].
    - exists [], s1. eexists. repeat split; [left; reflexivity | exact H]. }
  destruct Hb as (tag & s2 & n' & Htag & -> & Hr).
  apply body_sound in Hr as (w1 & body & w & post & Hw1 & Hw & -> & Hm & Hmin).
  exists (lit "{" ++ body ++ lit "}"), post. split; [exact Hm |]. split.
  - exists tag, w1, w. repeat split; auto.
    + exists body. reflexivity.
    + unfold fence. rewrite <- !app_assoc. reflexivity.
  - intros g' post' (tag' & ws1' & ws2' & Htag' & Hws1' & Hws2' & [body' ->] & E).
    unfold fence in E. apply app_inv_head in E.
    rewrite <- !app_assoc in E.
    apply lead_unique in E as [_ E]; try assumption.
    specialize (Hmin body' ws2' post' Hws2' E).
    rewrite !length_app. simpl. lia.
Qed.

Lemma fence_complete n s g post :
  fenced_block s g post -> match_at fence_re n s <> None.
Proof.
  intros (tag & ws1 & ws2 & Htag & Hws1 & Hws2 & [body ->] & ->).
  unfold match_at. rewrite fence_re_parts. cbn [run pos rest grp].
  fold report. unfold fence. rewrite strip_prefix_app.
  rewrite <- !app_assoc.
  destruct Htag as [-> | ->].
  - cbn [app].
    match goal with
    | |- match ?X with _ => _ end <> None => destruct X; [discriminate |]
    end.
    apply body_complete; assumption.
  - rewrite strip_prefix_app.
    match goal with
    | |- match ?X with _ => _ end <> None => destruct X eqn:HX; [discriminate |]
    end.
    exfalso. revert HX. apply body_complete; assumption.
Qed.

(** [re.search] on a text with a first fenced block returns its object. *)
Lemma search_first_fenced_block t pre g post :
  first_fenced_block t pre g post ->
  exists e, search fence_re t = Some (e, Some g).
Proof.
  intros (Hblock & Hlen & Hfirst & Hshort).
  unfold search.
  destruct (search_from fence_re 0 t) as [[e og] |] eqn:Hs.
  - exists e. f_equal. f_equal.
    apply search_from_some in Hs as (i & Hi & Hm & Hmin). simpl in Hm.
    assert (i = length pre) as ->.
    { destruct (Nat.lt_trichotomy i (length pre)) as [Hlt | [-> | Hgt]]; auto.
      - apply fence_sound in Hm as (g' & post' & _ & Hb & _).
        exfalso. exact (Hfirst _ _ _ Hlt Hb).
      - exfalso. apply (@fence_complete (0 + length pre) _ _ _ Hblock).
        apply Hmin. exact Hgt. }
    apply fence_sound in Hm as (g' & post' & Hog & Hb & Hshort').
    simpl in Hog. rewrite Hog. f_equal.
    pose proof (Hshort _ _ Hb) as L1. pose proof (Hshort' _ _ Hblock) as L2.
    destruct Hblock as (tag & ws1 & ws2 & Htag & Hws1 & Hws2 & [body ->] & E).
    destruct Hb as (tag' & ws1' & ws2' & Htag' & Hws1' & Hws2' & [body' ->] & E').
    rewrite E in E'. unfold fence in E'. apply app_inv_head in E'.
    rewrite <- !app_assoc in E'.
    apply lead_unique in E' as [_ E']; try assumption.
    rewrite !length_app in L1, L2. simpl in L1, L2.
    assert (Hl : length body' = length body) by lia.
    f_equal.
    assert (Hf : firstn (length body') (body' ++ lit "}" ++ ws2' ++ lit "```" ++ post')
                 = firstn (length body') (body ++ lit "}" ++ ws2 ++ lit "```" ++ post))
      by (rewrite E'; reflexivity).
    rewrite firstn_app, firstn_all, Nat.sub_diag, firstn_O, app_nil_r in Hf.
    rewrite Hl, firstn_app, firstn_all, Nat.sub_diag, firstn_O, app_nil_r in Hf.
    rewrite Hf. reflexivity.
  - exfalso.
    apply (@fence_complete (0 + length pre) _ _ _ Hblock).
    apply (search_from_none _ _ _ Hs). exact Hlen.
Qed.

(** The two [re.sub] calls leave a brace-delimited object as it is. *)
Lemma sub_lead_later s : forall n, sub_from lead_re 0 (S n) s = s.
Proof.
  induction s as [| c t IH]; intros n; [reflexivity |].
  cbn [sub_from]. unfold match_at, lead_re. cbn [run pos].
  rewrite IH. reflexivity.
Qed.

Lemma sub_lead_braced x : sub_empty lead_re (lit "{" ++ x) = lit "{" ++ x.
Proof.
  unfold sub_empty. change (lit "{" ++ x) with (123%N :: x).
  cbn [sub_from]. unfold match_at, lead_re. cbn [run pos rest grp].
  change (strip_prefix (lit "```") (123%N :: x)) with (@None str).
  rewrite sub_lead_later. reflexivity.
Qed.

Lemma trail_no_match n s y :
  s = y ++ lit "}" -> match_at trail_re n s = None.
Proof.
  intros Hs.
  destruct (match_at trail_re n s) as [m |] eqn:H; [| reflexivity].
  exfalso. unfold match_at, trail_re in H. cbn [run pos rest grp] in H.
  apply greedy_some in H as (w & r & E & _ & H). rewrite Hs in E.
  cbn [run pos rest grp] in H.
  destruct (strip_prefix (lit "```") r) as [r' |] eqn:Hp; [| discriminate].
  apply strip_prefix_some in Hp. subst r.
  destruct r' as [| c [| c' r'']]; try discriminate.
  - change (w ++ lit "```" ++ []) with (w ++ [96; 96] ++ [96])%N in E.
    rewrite !app_assoc in E. apply app_inj_tail in E as [_ E]. discriminate.
  - destruct (N.eqb_spec c 10) as [-> |]; [| discriminate].
    change (w ++ lit "```" ++ [10%N]) with (w ++ lit "```" ++ [10%N]) in E.
    rewrite !app_assoc in E. apply app_inj_tail in E as [_ E]. discriminate.
Qed.

Lemma sub_trail_braced x : forall n,
  sub_from trail_re 0 n (x ++ lit "}") = x ++ lit "}".
Proof.
  induction x as [| c x IH]; intros n.
  - change ([] ++ lit "}") with [125%N]. cbn [sub_from].
    rewrite (@trail_no_match n [125%N] [] eq_refl). reflexivity.
  - change ((c :: x) ++ lit "}") with (c :: (x ++ lit "}")).
    cbn [sub_from].
    rewrite (@trail_no_match n (c :: x ++ lit "}") (c :: x) eq_refl).
    rewrite IH. reflexivity.
Qed.

Lemma normalize_braced body :
  Re.sub_empty trail_re (Re.sub_empty lead_re (lit "{" ++ body ++ lit "}"))
  = lit "{" ++ body ++ lit "}".
Proof.
  rewrite sub_lead_braced. unfold sub_empty.
  rewrite app_assoc. apply sub_trail_braced.
Qed.

(** With a first fenced block, the text handed to [json.loads] is the
    object of that block. *)
Lemma normalize_first_fenced_block t pre g post :
  first_fenced_block (strip t) pre g post -> normalize t = g.
Proof.
  intros H. unfold normalize.
  destruct (search_first_fenced_block H) as [e ->].
  destruct H as ((_ & _ & _ & _ & _ & _ & [body ->] & _) & _).
  apply normalize_braced.
Qed.

Lemma skipn_in_prefix pre rest : forall i,
  no_backtick pre = true -> i < length pre ->
  exists c x, skipn i (pre ++ rest) = c :: x /\ c <> 96%N.
Proof.
  induction pre as [| a pre IH]; intros i Hn Hi; simpl in Hi; [lia |].
  simpl in Hn. apply andb_true_iff in Hn as [Ha Hn].
  destruct i as [| i].
  - exists a, (pre ++ rest). split; [reflexivity |].
    intros ->. discriminate Ha.
  - simpl. apply IH; [exact Hn | lia].
Qed.

Lemma space_run_no_brace w : forall l z z',
  all_space w -> no_backtick l = true ->
  w ++ 96%N :: z = l ++ 125%N :: z' -> False.
Proof.
  unfold all_space.
  induction w as [| a w IH]; intros [| b l] z z' Hw Hl E; simpl in *.
  - discriminate E.
  - injection E as <- _. discriminate Hl.
  - injection E as -> _. discriminate Hw.
  - injection E as -> E.
    apply andb_true_iff in Hw as [_ Hw]. apply andb_true_iff in Hl as [_ Hl].
    exact (IH _ _ _ Hw Hl E).
Qed.

Lemma first_fenced_block_intro pre tag ws1 body ws2 post :
  no_backtick pre = true -> no_backtick body = true ->
  is_tag tag -> all_space ws1 -> all_space ws2 ->
  first_fenced_block
    (pre ++ fence ++ tag ++ ws1 ++ (lit "{" ++ body ++ lit "}") ++ ws2 ++ fence ++ post)
    pre (lit "{" ++ body ++ lit "}") post.
Proof.
  intros Hpre Hbody Htag Hws1 Hws2.
  assert (Hblock : fenced_block
            (fence ++ tag ++ ws1 ++ (lit "{" ++ body ++ lit "}") ++ ws2 ++ fence ++ post)
            (lit "{" ++ body ++ lit "}") post).
  { exists tag, ws1, ws2. repeat split; auto. exists body. reflexivity. }
  unfold first_fenced_block.
  rewrite skipn_app, skipn_all, Nat.sub_diag. cbn [app skipn].
  repeat split.
  - exact Hblock.
  - rewrite length_app. lia.
  - intros i g' post' Hi (tag' & ws1' & ws2' & _ & _ & _ & _ & E).
    destruct (skipn_in_prefix pre
                (fence ++ tag ++ ws1 ++ (lit "{" ++ body ++ lit "}") ++ ws2 ++ fence ++ post)
                Hpre Hi) as (c & x & Hc & Hne).
    rewrite Hc in E. injection E as -> _. congruence.
  - intros g' post' (tag' & ws1' & ws2' & Htag' & Hws1' & Hws2' & [body' ->] & E).
    unfold fence in E. apply app_inv_head in E.
    rewrite <- !app_assoc in E.
    apply lead_unique in E as [_ E]; try assumption.
    rewrite !length_app. simpl.
    destruct (Nat.le_gt_cases (length body) (length body')) as [| Hlt]; [lia |].
    exfalso.
    apply app_eq_app in E as [l [[E1 E2] | [E1 E2]]].
    + subst body. rewrite length_app in Hlt.
      destruct l as [| c l]; [simpl in Hlt; lia |].
      injection E2 as <- E2.
      unfold no_backtick in Hbody. rewrite forallb_app in Hbody.
      apply andb_true_iff in Hbody as [_ Hl]. simpl in Hl.
      exact (@space_run_no_brace ws2' l _ _ Hws2' Hl E2).
    + subst body'. rewrite length_app in Hlt. lia.
Qed.

End FenceFacts.

(* ===================================================================== *)
(** * Tokens of [str.split] *)
(* ===================================================================== *)

Lemma forallb_rev {A} (f : A -> bool) l : forallb f (rev l) = forallb f l.
Proof.
  induction l as [| a l IH]; simpl; [reflexivity |].
  rewrite forallb_app, IH. simpl. rewrite andb_true_r. apply andb_comm.
Qed.

Lemma split_from_tokens s : forall cur,
  forallb non_space cur = true -> Forall token (split_from cur s).
Proof.
  induction s as [| c t IH]; intros cur Hcur; simpl.
  - destruct cur as [| a cur']; constructor; [| constructor].
    split.
    + intros E. apply (f_equal (@length _)) in E.
      rewrite length_rev in E. discriminate.
    + rewrite forallb_rev. exact Hcur.
  - destruct (is_space c) eqn:Hc.
    + destruct cur as [| a cur']; [apply IH; reflexivity |].
      constructor; [| apply IH; reflexivity].
      split.
      * intros E. apply (f_equal (@length _)) in E.
        rewrite length_rev in E. discriminate.
      * rewrite forallb_rev. exact Hcur.
    + apply IH. simpl. unfold non_space at 1. rewrite Hc. exact Hcur.
Qed.

Lemma split_from_concat s : forall cur,
  concat (split_from cur s) = rev cur ++ filter non_space s.
Proof.
  induction s as [| c t IH]; intros cur; simpl.
  - destruct cur; simpl; rewrite ?app_nil_r; reflexivity.
  - unfold non_space at 1. destruct (is_space c); simpl.
    + destruct cur as [| a cur']; simpl; rewrite IH; reflexivity.
    + rewrite IH. simpl. rewrite <- app_assoc. reflexivity.
Qed.

Lemma split_tokens t : Forall token (split t).
Proof. apply split_from_tokens. reflexivity. Qed.

Lemma split_concat t : concat (split t) = filter non_space t.
Proof. unfold split. rewrite split_from_concat. reflexivity. Qed.

(** Splitting the single-space join of tokens gives the tokens back. *)
Lemma split_from_word w : forall cur rest,
  forallb non_space w = true ->
  split_from cur (w ++ rest) = split_from (rev w ++ cur) rest.
Proof.
  induction w as [| c w IH]; intros cur rest Hw; [reflexivity |].
  simpl in Hw. apply andb_true_iff in Hw as [Hc Hw].
  unfold non_space in Hc. apply negb_true_iff in Hc.
  simpl. rewrite Hc, IH by exact Hw. rewrite <- app_assoc. reflexivity.
Qed.

Lemma split_join ws : Forall token ws -> split (join (lit " ") ws) = ws.
Proof.
  unfold split. induction 1 as [| w ws [Hne Hw] Hws IH]; [reflexivity |].
  destruct ws as [| w' ws'].
  - simpl. rewrite <- (app_nil_r w) at 1.
    rewrite split_from_word by exact Hw. simpl. rewrite app_nil_r.
    destruct (rev w) eqn:E.
    + apply (f_equal (@length _)) in E. rewrite length_rev in E.
      destruct w; [congruence | discriminate].
    + rewrite <- E, rev_involutive. reflexivity.
  - change (join (lit " ") (w :: w' :: ws'))
      with (w ++ 32%N :: join (lit " ") (w' :: ws')).
    rewrite split_from_word by exact Hw. rewrite app_nil_r.
    cbn [split_from]. change (is_space 32%N) with true. cbv iota.
    destruct (rev w) eqn:E.
    + apply (f_equal (@length _)) in E. rewrite length_rev in E.
      destruct w; [congruence | discriminate].
    + rewrite <- E, rev_involutive, IH. reflexivity.
Qed.

Lemma firstn_tokens n ws : Forall token ws -> Forall token (firstn n ws).
Proof.
  intros H. revert n. induction H as [| w ws Hw _ IH]; intros [| n]; simpl;
    constructor; auto.
Qed.

(** ** The tokens of a text are what [str.split] returns *)

Lemma split_from_lead lead s :
  all_space lead -> split_from [] (lead ++ s) = split_from [] s.
Proof.
  unfold all_space. induction lead as [| c lead IH]; intros H; [reflexivity |].
  simpl in H. apply andb_true_iff in H as [Hc Hl].
  cbn [app split_from]. rewrite Hc. exact (IH Hl).
Qed.

Lemma split_all_space s : all_space s -> split s = [].
Proof.
  intros H. unfold split. rewrite <- (app_nil_r s).
  rewrite (@split_from_lead s [] H). reflexivity.
Qed.

Lemma rev_token w : token w -> exists c cur, rev w = c :: cur.
Proof.
  intros [Hne _]. destruct (rev w) as [| c cur] eqn:E; [| eauto].
  apply (f_equal (@length _)) in E. rewrite length_rev in E.
  destruct w; [congruence | discriminate].
Qed.

Lemma split_word w rest :
  token w -> starts_blank rest -> split (w ++ rest) = w :: split rest.
Proof.
  intros Hw Hr. unfold split.
  rewrite split_from_word by exact (proj2 Hw). rewrite app_nil_r.
  destruct (@rev_token w Hw) as (c & cur & E).
  destruct rest as [| a rest]; cbn [split_from].
  - rewrite E, <- E, rev_involutive. reflexivity.
  - simpl in Hr. rewrite Hr, E, <- E, rev_involutive. reflexivity.
Qed.

(** [words_of] has one answer, the one of [str.split]. *)
Lemma words_of_unique t ws : words_of t ws -> split t = ws.
Proof.
  induction 1 as [s Hs | lead w rest ws Hlead Hw Hr _ IH].
  - exact (split_all_space Hs).
  - unfold split. rewrite (@split_from_lead lead _ Hlead).
    fold (split (w ++ rest)). rewrite (@split_word _ _ Hw Hr), IH. reflexivity.
Qed.

Lemma words_of_space c s ws :
  is_space c = true -> words_of s ws -> words_of (c :: s) ws.
Proof.
  intros Hc H. destruct H as [s Hs | lead w rest ws Hlead Hw Hr H].
  - apply words_none. unfold all_space in *. simpl. rewrite Hc. exact Hs.
  - apply (@words_some (c :: lead) w rest ws); auto.
    unfold all_space in *. simpl. rewrite Hc. exact Hlead.
Qed.

Lemma words_of_split_from s : forall cur,
  forallb non_space cur = true -> words_of (rev cur ++ s) (split_from cur s).
Proof.
  induction s as [| c s IH]; intros cur Hcur.
  - destruct cur as [| a cur]; [apply words_none; reflexivity |].
    cbn [split_from].
    apply (@words_some [] (rev (a :: cur)) [] []).
    + reflexivity.
    + split; [| rewrite forallb_rev; exact Hcur].
      intros E. apply (f_equal (@length _)) in E. rewrite length_rev in E.
      discriminate E.
    + exact I.
    + apply words_none. reflexivity.
  - cbn [split_from]. destruct (is_space c) eqn:Hc.
    + pose proof (@words_of_space c _ _ Hc (IH [] eq_refl)) as Hrest.
      destruct cur as [| a cur]; [exact Hrest |].
      apply (@words_some [] (rev (a :: cur)) (c :: s) (split_from [] s)).
      * reflexivity.
      * split; [| rewrite forallb_rev; exact Hcur].
        intros E. apply (f_equal (@length _)) in E. rewrite length_rev in E.
        discriminate E.
      * exact Hc.
      * exact Hrest.
    + replace (rev cur ++ c :: s) with (rev (c :: cur) ++ s)
        by (simpl; rewrite <- app_assoc; reflexivity).
      apply IH. simpl. unfold non_space at 1. rewrite Hc. exact Hcur.
Qed.

Lemma words_of_split t : words_of t (split t).
Proof. exact (words_of_split_from t [] eq_refl). Qed.

(** The single-space join of tokens has these tokens. *)
Lemma words_of_join ws : Forall token ws -> words_of (join (lit " ") ws) ws.
Proof.
  induction 1 as [| w ws Hw Hws IH]; [apply words_none; reflexivity |].
  destruct ws as [| w' ws'].
  - pose proof (@words_some [] w [] [] eq_refl Hw I (@words_none [] eq_refl)) as H.
    cbn [app] in H. rewrite app_nil_r in H. exact H.
  - change (join (lit " ") (w :: w' :: ws'))
      with ([] ++ w ++ 32%N :: join (lit " ") (w' :: ws')).
    apply words_some; [reflexivity | exact Hw | reflexivity |].
    apply words_of_space; [reflexivity | exact IH].
Qed.

(* ===================================================================== *)
(** * Fenced blocks and [str.strip] *)
(* ===================================================================== *)

Module StripFacts.

Lemma lstrip_split t : exists a, all_space a /\ t = a ++ lstrip t.
Proof.
  induction t as [| c t (a & Ha & Ht)]; [exists []; split; reflexivity |].
  simpl. destruct (is_space c) eqn:Hc.
  - exists (c :: a). split; [unfold all_space; simpl; rewrite Hc; exact Ha |].
    simpl. f_equal. exact Ht.
  - exists []. split; reflexivity.
Qed.

Lemma rstrip_split t : exists b, all_space b /\ t = rstrip t ++ b.
Proof.
  destruct (lstrip_split (rev t)) as (a & Ha & Ht).
  exists (rev a). split.
  - unfold all_space. rewrite forallb_rev. exact Ha.
  - unfold rstrip. rewrite <- rev_app_distr, <- Ht, rev_involutive. reflexivity.
Qed.

(** The text is its stripped form between two runs of whitespace. *)
Lemma strip_split t :
  exists a b, all_space a /\ all_space b /\ t = a ++ strip t ++ b.
Proof.
  destruct (lstrip_split t) as (a & Ha & Ht).
  destruct (rstrip_split (lstrip t)) as (b & Hb & Hl).
  exists a, b. repeat split; auto. unfold strip. rewrite <- Hl. exact Ht.
Qed.

Lemma fenced_block_head s g post :
  fenced_block s g post -> exists x, s = 96%N :: x.
Proof.
  intros (tag & ws1 & ws2 & _ & _ & _ & _ & ->). eexists. reflexivity.
Qed.

(** A fenced block does not start on whitespace. *)
Lemma no_block_in_space a r i g post :
  all_space a -> i < length a -> ~ fenced_block (skipn i (a ++ r)) g post.
Proof.
  unfold all_space. revert i.
  induction a as [| c a IH]; intros i Ha Hi H; simpl in Hi; [lia |].
  simpl in Ha. apply andb_true_iff in Ha as [Hc Ha].
  destruct i as [| i].
  - apply fenced_block_head in H as [x E]. simpl in E. injection E as -> _.
    discriminate Hc.
  - simpl in H. apply (IH i Ha); [lia | exact H].
Qed.

Lemma no_block_at_end b i g post :
  all_space b -> ~ fenced_block (skipn i b) g post.
Proof.
  unfold all_space. revert i.
  induction b as [| c b IH]; intros i Hb H.
  - rewrite skipn_nil in H. apply fenced_block_head in H as [x E]. discriminate E.
  - simpl in Hb. apply andb_true_iff in Hb as [Hc Hb].
    destruct i as [| i].
    + apply fenced_block_head in H as [x E]. simpl in E. injection E as -> _.
      discriminate Hc.
    + simpl in H. exact (IH i Hb H).
Qed.

(** A backtick of [s ++ b] lies in [s] when [b] is whitespace. *)
Lemma backtick_before_space s b y post :
  all_space b -> s ++ b = y ++ 96%N :: post ->
  exists post0, post = post0 ++ b /\ s = y ++ 96%N :: post0.
Proof.
  unfold all_space. revert y.
  induction s as [| c s IH]; intros y Hb E.
  - exfalso. simpl in E. subst b. rewrite forallb_app in Hb.
    apply andb_true_iff in Hb as [_ Hb]. discriminate Hb.
  - destruct y as [| c' y].
    + simpl in E. injection E as -> E. exists s. auto.
    + simpl in E. injection E as -> E.
      destruct (IH y Hb E) as (post0 & -> & ->). exists post0. auto.
Qed.

Lemma fenced_block_trim s b g post :
  all_space b -> fenced_block (s ++ b) g post ->
  exists post0, post = post0 ++ b /\ fenced_block s g post0.
Proof.
  intros Hb (tag & ws1 & ws2 & Htag & Hws1 & Hws2 & Hg & E).
  assert (E' : s ++ b = (fence ++ tag ++ ws1 ++ g ++ ws2 ++ [96; 96]%N) ++ 96%N :: post).
  { rewrite E. unfold fence. rewrite <- !app_assoc. reflexivity. }
  destruct (backtick_before_space _ _ _ Hb E') as (post0 & -> & Hs).
  exists post0. split; [reflexivity |].
  exists tag, ws1, ws2. repeat split; auto.
  rewrite Hs. unfold fence. rewrite <- !app_assoc. reflexivity.
Qed.

Lemma fenced_block_extend s b g post :
  fenced_block s g post -> fenced_block (s ++ b) g (post ++ b).
Proof.
  intros (tag & ws1 & ws2 & Htag & Hws1 & Hws2 & Hg & ->).
  exists tag, ws1, ws2. repeat split; auto.
  rewrite <- !app_assoc. reflexivity.
Qed.

(** The first fenced block of a text is the first fenced block of the
    stripped text. *)
Lemma first_fenced_block_strip t pre g post :
  first_fenced_block t pre g post ->
  exists pre' post', first_fenced_block (strip t) pre' g post'.
Proof.
  intros (Hblock & Hlen & Hfirst & Hshort).
  destruct (strip_split t) as (a & b & Ha & Hb & Ht).
  set (st := strip t) in *.
  assert (Hge : length a <= length pre).
  { destruct (Nat.le_gt_cases (length a) (length pre)) as [| Hlt]; [assumption |].
    exfalso. rewrite Ht in Hblock. exact (no_block_in_space _ Ha Hlt Hblock). }
  assert (Hskip : forall i, i <= length st ->
                    skipn (length a + i) t = skipn i st ++ b).
  { intros i Hi. rewrite Ht at 1. rewrite skipn_app.
    rewrite skipn_all2 by lia. cbn [app].
    replace (length a + i - length a) with i by lia.
    rewrite skipn_app. replace (i - length st) with 0 by lia. reflexivity. }
  assert (Hlt : length pre - length a <= length st).
  { destruct (Nat.le_gt_cases (length pre - length a) (length st)) as [| Hgt];
      [assumption |].
    exfalso. rewrite Ht in Hblock. rewrite !skipn_app in Hblock.
    rewrite skipn_all2 in Hblock by lia.
    rewrite (skipn_all2 st) in Hblock by lia. cbn [app] in Hblock.
    exact (no_block_at_end _ Hb Hblock). }
  pose proof (Hskip (length pre - length a) Hlt) as Hpre.
  replace (length a + (length pre - length a)) with (length pre) in Hpre by lia.
  rewrite Hpre in Hblock, Hshort.
  destruct (fenced_block_trim _ Hb Hblock) as (post0 & -> & Hblock0).
  exists (skipn (length a) pre), post0.
  unfold first_fenced_block. rewrite length_skipn.
  repeat split.
  - exact Hblock0.
  - exact Hlt.
  - intros i g' post' Hi H.
    apply (Hfirst (length a + i) g' (post' ++ b)); [lia |].
    rewrite Hskip by lia. apply fenced_block_extend. exact H.
  - intros g' post' H. apply (Hshort g' (post' ++ b)).
    apply fenced_block_extend. exact H.
Qed.

End StripFacts.

(* ===================================================================== *)
(** * [json.loads] reads every JSON text *)
(* ===================================================================== *)

Scheme value_min := Minimality for JsonText.value Sort Prop
  with items_min := Minimality for JsonText.items Sort Prop
  with pairs_min := Minimality for JsonText.pairs Sort Prop.
Combined Scheme json_text_min from value_min, items_min, pairs_min.

Module JsonTextFacts.
Import Json.

(** ** Whitespace *)

Lemma blanks_is_ws w : JsonText.blanks w -> forallb is_ws w = true.
Proof. exact (fun H => H). Qed.

Lemma skip_ws_blanks (w s : str) : JsonText.blanks w -> skip_ws (w ++ s) = skip_ws s.
Proof.
  unfold JsonText.blanks. induction w as [| c w IH]; intros H; [reflexivity |].
  simpl in H. apply andb_true_iff in H as [Hc Hw].
  cbn [app skip_ws]. unfold is_ws. rewrite Hc. exact (IH Hw).
Qed.

Lemma skip_ws_head (c : char) (s : str) : is_ws c = false -> skip_ws (c :: s) = c :: s.
Proof. intros H. simpl. rewrite H. reflexivity. Qed.

Lemma skip_ws_all w : JsonText.blanks w -> skip_ws w = [].
Proof.
  intros H. rewrite <- (app_nil_r w). rewrite (skip_ws_blanks [] H). reflexivity.
Qed.

(** ** Strings *)

Lemma hex_val_some c : JsonText.is_hex c = true -> exists v, hex_val c = Some v.
Proof.
  unfold JsonText.is_hex, hex_val. intros H.
  destruct ((48 <=? c) && (c <=? 57))%N; [eauto |].
  destruct ((97 <=? c) && (c <=? 102))%N; [eauto |].
  destruct ((65 <=? c) && (c <=? 70))%N; [eauto | discriminate H].
Qed.

Lemma hex4_some a b c d :
  JsonText.is_hex a = true -> JsonText.is_hex b = true ->
  JsonText.is_hex c = true -> JsonText.is_hex d = true ->
  exists u, hex4 a b c d = Some u.
Proof.
  intros Ha Hb Hc Hd. unfold hex4.
  destruct (hex_val_some _ Ha) as [x ->]. destruct (hex_val_some _ Hb) as [y ->].
  destruct (hex_val_some _ Hc) as [z ->]. destruct (hex_val_some _ Hd) as [w ->].
  eauto.
Qed.

Lemma escapable_simple e :
  JsonText.escapable e = true ->
  (e =? 117)%N = false /\ exists c, simple_escape e = Some c.
Proof.
  unfold JsonText.escapable, simple_escape. intros H.
  repeat match type of H with
         | (_ || _)%bool = true => apply orb_true_iff in H as [H | H]
         end;
    apply N.eqb_eq in H; subst e; split; try reflexivity; eexists; reflexivity.
Qed.

(** After a [\uXXXX] escape the scanner goes on with the text that follows,
    unless the escape is a high surrogate followed by a second escape, which
    it reads at once. *)
Lemma scanstring_after_unicode (acc : str) (a b c d : char) u (T : str) :
  hex4 a b c d = Some u -> T <> [] ->
  scanstring acc (92%N :: 117%N :: a :: b :: c :: d :: T) = scanstring (u :: acc) T
  \/ exists (a' b' c' d' q : char) (t3 : str),
       T = 92%N :: 117%N :: a' :: b' :: c' :: d' :: q :: t3 /\
       scanstring acc (92%N :: 117%N :: a :: b :: c :: d :: T)
       = match hex4 a' b' c' d' with
         | None => JSONDecodeError InvalidUnicodeEscape
         | Some u2 =>
             if is_low_surrogate u2
             then scanstring (join_surrogates u u2 :: acc) (q :: t3)
             else scanstring (u :: acc) T
         end.
Proof.
  intros Hu HT. cbn [scanstring]. change (92 =? 34)%N with false.
  change (92 =? 92)%N with true. change (117 =? 117)%N with true. cbv iota.
  destruct T as [| q1 T1]; [congruence |]. rewrite Hu.
  destruct (is_high_surrogate u); [| left; reflexivity].
  destruct T1 as [| u1 [| a' [| b' [| c' [| d' [| q t3]]]]]];
    try (left; reflexivity).
  destruct ((q1 =? 92) && (u1 =? 117))%N eqn:Hq; [| left; reflexivity].
  apply andb_true_iff in Hq as [Hq1 Hu1].
  apply N.eqb_eq in Hq1, Hu1. subst q1 u1.
  right. exists a', b', c', d', q, t3. split; reflexivity.
Qed.

(** The scanner reads the characters of a string up to its closing quote. *)
Lemma scanstring_chars : forall n (b : str),
  length b <= n -> JsonText.chars b ->
  forall acc rest : str, exists x, scanstring acc (b ++ 34%N :: rest) = Ok (x, rest).
Proof.
  induction n as [| n IH]; intros b Hn Hb acc rest.
  - destruct b; [| simpl in Hn; lia]. simpl. eauto.
  - inversion Hb as [| c r Hc Hr | e r He Hr | a b' c d r Ha Hb' Hc Hd Hr]; subst b.
    + simpl. eauto.
    + unfold JsonText.plain in Hc.
      apply andb_true_iff in Hc as [Hc H32]. apply andb_true_iff in Hc as [H34 H92].
      apply negb_true_iff in H34, H92.
      cbn [app scanstring]. rewrite H34, H92.
      replace (c <? 32)%N with false
        by (symmetry; apply N.ltb_ge; apply N.leb_le; exact H32).
      apply IH; [simpl in Hn; lia | exact Hr].
    + destruct (escapable_simple _ He) as (Hu & c' & Hs).
      cbn [app scanstring]. change (92 =? 34)%N with false.
      change (92 =? 92)%N with true. cbv iota. rewrite Hu, Hs.
      apply IH; [simpl in Hn; lia | exact Hr].
    + destruct (@hex4_some _ _ _ _ Ha Hb' Hc Hd) as [u Hu].
      assert (Hnext : forall acc', exists x,
                scanstring acc' (r ++ 34%N :: rest) = Ok (x, rest))
        by (intros acc'; apply IH; [simpl in Hn; lia | exact Hr]).
      assert (HT : r ++ 34%N :: rest <> []) by (destruct r; discriminate).
      change ((92%N :: 117%N :: a :: b' :: c :: d :: r) ++ 34%N :: rest)
        with (92%N :: 117%N :: a :: b' :: c :: d :: (r ++ 34%N :: rest)).
      destruct (@scanstring_after_unicode acc _ _ _ _ _ _ Hu HT)
        as [-> | (a0 & b0 & c0 & d0 & q & t3 & ET & ->)]; [apply Hnext |].
      (* the next item is a unicode escape too *)
      inversion Hr as [E | c1 r1 Hc1 Hr1 E | e1 r1 He1 Hr1 E
                         | a1 b1 c1 d1 r1 Ha1 Hb1 Hc1 Hd1 Hr1 E];
        subst r; try discriminate ET.
      * injection ET as E1 _. subst c1. discriminate Hc1.
      * injection ET as E1 _. subst e1. discriminate He1.
      * injection ET as -> -> -> -> Et3.
        destruct (@hex4_some _ _ _ _ Ha1 Hb1 Hc1 Hd1) as [u2 ->].
        destruct (is_low_surrogate u2); [| apply Hnext].
        rewrite <- Et3. apply IH; [simpl in Hn; lia | exact Hr1].
Qed.

Lemma scanstring_string (s rest : str) :
  JsonText.string s ->
  exists b : str, s = 34%N :: b /\
            forall acc, exists x, scanstring acc (b ++ rest) = Ok (x, rest).
Proof.
  intros (b & Hb & ->). exists (b ++ [34%N]). split; [reflexivity |].
  intros acc. rewrite <- app_assoc.
  exact (@scanstring_chars (length b) b (le_n _) Hb acc rest).
Qed.

(** ** Numbers *)

Lemma follows_next (rest : str) :
  follows rest ->
  no_digit_next rest /\ take_frac rest = None /\ take_exp rest = None.
Proof.
  destruct rest as [| c r]; [repeat split |]. unfold follows. intros H.
  repeat match type of H with
         | (_ || _)%bool = true => apply orb_true_iff in H as [H | H]
         end;
    apply N.eqb_eq in H; subst c; repeat split.
Qed.

Lemma take_digits_app (ds r : str) :
  forallb is_digit ds = true -> no_digit_next r -> take_digits (ds ++ r) = (ds, r).
Proof.
  induction ds as [| c ds IH]; intros Hd Hr.
  - destruct r as [| c r]; [reflexivity |]. simpl in *. rewrite Hr. reflexivity.
  - simpl in Hd. apply andb_true_iff in Hd as [Hc Hd].
    cbn [app take_digits]. rewrite Hc, (IH Hd Hr). reflexivity.
Qed.

Lemma digits_head (ds : str) :
  JsonText.digits ds ->
  exists (c : char) (t : str), ds = c :: t /\ is_digit c = true /\ forallb is_digit ds = true.
Proof.
  intros [Hne Hd]. destruct ds as [| c t]; [congruence |].
  exists c, t. repeat split; [| exact Hd].
  simpl in Hd. apply andb_true_iff in Hd as [Hc _]. exact Hc.
Qed.

Lemma no_digit_cons c r : is_digit c = false -> no_digit_next (c :: r).
Proof. exact (fun H => H). Qed.

Lemma take_int_part_app (i r : str) :
  JsonText.int_part i -> no_digit_next r -> take_int_part (i ++ r) = Some (i, r).
Proof.
  intros [-> | [Hd Hz]] Hr; [reflexivity |].
  destruct (@digits_head _ Hd) as (c & t & -> & Hc & Hall).
  simpl in Hz. cbn [app take_int_part].
  destruct (N.eqb_spec c 48) as [E | _]; [congruence |]. rewrite Hc.
  change (c :: t ++ r) with ((c :: t) ++ r).
  rewrite (@take_digits_app _ _ Hall Hr). reflexivity.
Qed.

Lemma take_frac_app (ds r : str) :
  JsonText.digits ds -> no_digit_next r -> take_frac (46%N :: ds ++ r) = Some (ds, r).
Proof.
  intros Hd Hr. destruct (@digits_head _ Hd) as (c & t & -> & _ & Hall).
  cbn [take_frac]. change (46 =? 46)%N with true. cbv iota.
  rewrite (@take_digits_app _ _ Hall Hr). reflexivity.
Qed.

Lemma take_exp_app (m : char) (sg ds r : str) :
  m = 101%N \/ m = 69%N -> sg = [] \/ sg = [43%N] \/ sg = [45%N] ->
  JsonText.digits ds -> no_digit_next r ->
  exists z, take_exp (m :: sg ++ ds ++ r) = Some (z, r).
Proof.
  intros Hm Hs Hd Hr. destruct (@digits_head _ Hd) as (c & t & -> & Hc & Hall).
  assert (Hm' : ((m =? 101) || (m =? 69))%N = true)
    by (destruct Hm as [-> | ->]; reflexivity).
  cbn [take_exp]. rewrite Hm'.
  destruct Hs as [-> | [-> | ->]]; cbn [app].
  - assert (H45 : (c =? 45)%N = false).
    { destruct (N.eqb_spec c 45) as [-> |]; [discriminate Hc | reflexivity]. }
    assert (H43 : (c =? 43)%N = false).
    { destruct (N.eqb_spec c 43) as [-> |]; [discriminate Hc | reflexivity]. }
    rewrite H45, H43. change (c :: t ++ r) with ((c :: t) ++ r).
    rewrite (@take_digits_app _ _ Hall Hr). eexists. reflexivity.
  - change (43 =? 45)%N with false. change (43 =? 43)%N with true. cbv iota.
    change (c :: t ++ r) with ((c :: t) ++ r).
    rewrite (@take_digits_app _ _ Hall Hr). eexists. reflexivity.
  - change (45 =? 45)%N with true. cbv iota.
    change (c :: t ++ r) with ((c :: t) ++ r).
    rewrite (@take_digits_app _ _ Hall Hr). eexists. reflexivity.
Qed.

(** What follows the fraction, and the exponent, of a number. *)
Lemma exp_step (e rest : str) :
  JsonText.exp_part e -> follows rest ->
  no_digit_next (e ++ rest) /\ take_frac (e ++ rest) = None /\
  ((exists z, take_exp (e ++ rest) = Some (z, rest)) \/
   take_exp (e ++ rest) = None /\ e = []).
Proof.
  intros [-> | (m & sg & ds & Hm & Hs & Hd & ->)] Hf.
  - destruct (@follows_next _ Hf) as (H1 & H2 & H3). auto.
  - destruct (@follows_next _ Hf) as (H1 & _ & _).
    destruct (@take_exp_app _ _ _ _ Hm Hs Hd H1) as [z Hz].
    change ((m :: sg ++ ds) ++ rest) with (m :: (sg ++ ds) ++ rest).
    rewrite <- app_assoc. repeat split; [| | left; exists z; exact Hz].
    + destruct Hm as [-> | ->]; reflexivity.
    + destruct Hm as [-> | ->]; reflexivity.
Qed.

Lemma frac_step (f e rest : str) :
  JsonText.frac_part f -> JsonText.exp_part e -> follows rest ->
  no_digit_next (f ++ e ++ rest) /\
  ((exists fds, take_frac (f ++ e ++ rest) = Some (fds, e ++ rest)) \/
   take_frac (f ++ e ++ rest) = None /\ f = []).
Proof.
  intros [-> | (ds & Hd & ->)] He Hf;
    destruct (@exp_step _ _ He Hf) as (H1 & H2 & _).
  - auto.
  - split; [reflexivity |]. left. exists ds.
    exact (@take_frac_app _ _ Hd H1).
Qed.

(** The scanner reads a number up to what follows it. *)
Lemma match_number_app k (sg i f e rest : str) :
  (sg = [] \/ sg = [45%N]) -> JsonText.int_part i -> JsonText.frac_part f ->
  JsonText.exp_part e -> follows rest ->
  (exists v, match_number k (sg ++ i ++ f ++ e ++ rest) = Some (Ok (v, rest)))
  \/ match_number k (sg ++ i ++ f ++ e ++ rest) = Some DigitLimit.
Proof.
  intros Hsg Hi Hfr He Hf.
  destruct (@frac_step _ _ _ Hfr He Hf) as (Hn & Hfrac).
  destruct (@exp_step _ _ He Hf) as (_ & _ & Hexp).
  pose proof (@take_int_part_app _ _ Hi Hn) as Hint.
  unfold match_number. destruct Hsg as [-> | ->]; cbn [app].
  - destruct (i ++ f ++ e ++ rest) as [| c t] eqn:E; [discriminate Hint |].
    assert (H45 : (c =? 45)%N = false).
    { destruct (N.eqb_spec c 45) as [-> |]; [discriminate Hint | reflexivity]. }
    rewrite H45, Hint.
    destruct Hfrac as [[fds ->] | [-> ->]]; cbn [app].
    + destruct Hexp as [[z ->] | [-> ->]]; cbn [app]; left; eexists; reflexivity.
    + destruct Hexp as [[z ->] | [-> ->]]; cbn [app];
        [left; eexists; reflexivity |].
      destruct (too_many_digits k i); [right; reflexivity | left; eexists; reflexivity].
  - change (45 =? 45)%N with true. cbv iota. rewrite Hint.
    destruct Hfrac as [[fds ->] | [-> ->]]; cbn [app].
    + destruct Hexp as [[z ->] | [-> ->]]; cbn [app]; left; eexists; reflexivity.
    + destruct Hexp as [[z ->] | [-> ->]]; cbn [app];
        [left; eexists; reflexivity |].
      destruct (too_many_digits k i); [right; reflexivity | left; eexists; reflexivity].
Qed.

Lemma number_head (s : str) :
  JsonText.number s -> exists (c : char) (t : str), s = c :: t /\ (c = 45%N \/ is_digit c = true).
Proof.
  intros (sg & i & f & e & Hsg & Hi & _ & _ & ->).
  destruct Hsg as [-> | ->]; [| exists 45%N; eexists; split; [reflexivity | auto]].
  destruct Hi as [-> | [Hd _]].
  - exists 48%N. eexists. split; [reflexivity | auto].
  - destruct (@digits_head _ Hd) as (c & t & -> & Hc & _).
    exists c. eexists. split; [reflexivity | auto].
Qed.

(** ** Values *)

Lemma number_char (c : char) :
  c = 45%N \/ is_digit c = true ->
  is_ws c = false /\ (c =? 93)%N = false /\ (c =? 65279)%N = false /\
  (c =? 34)%N = false /\ (c =? 123)%N = false /\ (c =? 91)%N = false.
Proof.
  intros [-> | H]; [repeat split |]. unfold is_ws.
  repeat split;
    repeat match goal with
           | |- context [(c =? ?x)%N] =>
               destruct (N.eqb_spec c x) as [E | _]; [subst c; discriminate H |]
           end; reflexivity.
Qed.

(** A value starts with a character that is neither whitespace, nor a
    closing bracket, nor a byte order mark. *)
Lemma value_head (v : str) :
  JsonText.value v ->
  exists (c : char) (t : str), v = c :: t /\ is_ws c = false /\ (c =? 93)%N = false /\
              (c =? 65279)%N = false.
Proof.
  intros H. destruct H as [s Hs | s Hs | s Hs | w Hw | w xs Hw Hxs | w Hw | w ps Hw Hps].
  - destruct Hs as (b & _ & ->). eexists _, _. repeat split.
  - destruct (@number_head _ Hs) as (c & t & -> & Hc).
    destruct (@number_char _ Hc) as (H1 & H2 & H3 & _). exists c, t. auto.
  - destruct Hs as [-> | [-> | [-> | [-> | [-> | ->]]]]];
      eexists _, _; repeat split.
  - eexists _, _. repeat split.
  - eexists _, _. repeat split.
  - eexists _, _. repeat split.
  - eexists _, _. repeat split.
Qed.

Lemma items_head (xs : str) :
  JsonText.items xs ->
  exists (c : char) (t : str), xs = c :: t /\ is_ws c = false /\ (c =? 93)%N = false.
Proof.
  intros H.
  destruct H as [v w Hv _ | v w1 w2 xs' Hv _ _ _];
    destruct (@value_head _ Hv) as (c & t & -> & H1 & H2 & _);
    eexists c, _; repeat split; auto.
Qed.

Lemma follows_blanks (w : str) (c : char) (r : str) :
  JsonText.blanks w -> c = 44%N \/ c = 93%N \/ c = 125%N -> follows (w ++ c :: r).
Proof.
  intros Hw Hc. destruct w as [| a w].
  - destruct Hc as [-> | [-> | ->]]; reflexivity.
  - unfold JsonText.blanks in Hw. simpl in Hw.
    apply andb_true_iff in Hw as [Ha _]. unfold follows. cbn [app].
    rewrite !orb_true_iff in *. tauto.
Qed.

Ltac flat :=
  repeat (rewrite <- app_assoc || rewrite <- app_comm_cons || rewrite app_nil_l).

Ltac stopped := first [ right; left; reflexivity
                      | right; right; left; reflexivity
                      | right; right; right; reflexivity ].

(** On a value of the grammar, followed by what may follow a value, the
    scanner returns a value and what follows, unless it stops on a limit;
    likewise on the items of an array and on the pairs of an object. *)
Lemma scanner_reads :
  (forall v, JsonText.value v ->
     forall k fuel depth (rest : str), follows rest ->
       reads (scan_once k fuel depth (v ++ rest)) rest) /\
  (forall xs, JsonText.items xs ->
     forall k fuel depth acc (rest : str),
       reads (elements k fuel depth acc (xs ++ 93%N :: rest)) rest) /\
  (forall ps, JsonText.pairs ps ->
     forall k fuel depth d (rest : str),
       exists p' : str, ps = 34%N :: p' /\
                  reads (members k fuel depth d (p' ++ 125%N :: rest)) rest).
Proof.
  apply json_text_min.
  - (* a string *)
    intros s Hs k fuel depth rest Hf. destruct fuel as [| n]; [stopped |].
    destruct (@scanstring_string _ rest Hs) as (b & -> & Hscan).
    cbn [app scan_once]. change (34 =? 34)%N with true. cbv iota.
    destruct (Hscan []) as [x ->]. left. eexists. reflexivity.
  - (* a number *)
    intros s Hs k fuel depth rest Hf. destruct fuel as [| n]; [stopped |].
    destruct (@number_head _ Hs) as (c & t & Es & Hc).
    destruct (@number_char _ Hc) as (_ & _ & _ & H34 & H123 & H91).
    destruct Hs as (sg & i & f & e & Hsg & Hi & Hfr & He & Edec).
    pose proof (@match_number_app k _ _ _ _ _ Hsg Hi Hfr He Hf) as Hm.
    replace (sg ++ i ++ f ++ e ++ rest) with (s ++ rest) in Hm
      by (rewrite Edec; flat; reflexivity).
    rewrite Es in *. cbn [app] in *. cbn [scan_once].
    rewrite H34, H123, H91.
    destruct Hm as [[v ->] | ->]; [left; eexists; reflexivity | stopped].
  - (* a constant *)
    intros s Hs k fuel depth rest Hf. destruct fuel as [| n]; [stopped |].
    destruct Hs as [-> | [-> | [-> | [-> | [-> | ->]]]]];
      left; eexists; vm_compute; reflexivity.
  - (* an empty array *)
    intros w Hw k fuel depth rest Hf. destruct fuel as [| n]; [stopped |].
    flat. cbn [scan_once]. change (91 =? 34)%N with false.
    change (91 =? 123)%N with false. change (91 =? 91)%N with true. cbv iota.
    destruct depth as [| inner]; [stopped |].
    rewrite (@skip_ws_blanks _ _ Hw). cbn [skip_ws].
    change (is_ws 93%N) with false. cbv iota. change (93 =? 93)%N with true.
    left. eexists. reflexivity.
  - (* an array *)
    intros w xs Hw Hxs IH k fuel depth rest Hf. destruct fuel as [| n]; [stopped |].
    flat. cbn [scan_once]. change (91 =? 34)%N with false.
    change (91 =? 123)%N with false. change (91 =? 91)%N with true. cbv iota.
    destruct depth as [| inner]; [stopped |].
    rewrite (@skip_ws_blanks _ _ Hw).
    pose proof (IH k n inner [] rest) as H.
    destruct (@items_head _ Hxs) as (c & t & -> & Hc & H93).
    cbn [app] in *. rewrite (@skip_ws_head _ _ Hc), H93. exact H.
  - (* an empty object *)
    intros w Hw k fuel depth rest Hf. destruct fuel as [| n]; [stopped |].
    flat. cbn [scan_once]. change (123 =? 34)%N with false.
    change (123 =? 123)%N with true. cbv iota.
    destruct depth as [| inner]; [stopped |].
    rewrite (@skip_ws_blanks _ _ Hw). cbn [skip_ws].
    change (is_ws 125%N) with false. cbv iota. change (125 =? 125)%N with true.
    left. eexists. reflexivity.
  - (* an object *)
    intros w ps Hw Hps IH k fuel depth rest Hf. destruct fuel as [| n]; [stopped |].
    flat. cbn [scan_once]. change (123 =? 34)%N with false.
    change (123 =? 123)%N with true. cbv iota.
    destruct depth as [| inner]; [stopped |].
    rewrite (@skip_ws_blanks _ _ Hw).
    destruct (IH k n inner [] rest) as (p' & -> & H).
    cbn [app skip_ws]. change (is_ws 34%N) with false. cbv iota.
    change (34 =? 125)%N with false. change (34 =? 34)%N with true. cbv iota.
    exact H.
  - (* the last item *)
    intros v w Hv IHv Hw k fuel depth acc rest. destruct fuel as [| n]; [stopped |].
    flat. cbn [elements].
    destruct (IHv k n depth (w ++ 93%N :: rest)
                  (@follows_blanks _ _ _ Hw (or_intror (or_introl eq_refl))))
      as [[a ->] | [-> | [-> | ->]]]; try stopped.
    rewrite (@skip_ws_blanks _ _ Hw). cbn [skip_ws].
    change (is_ws 93%N) with false. cbv iota. change (93 =? 93)%N with true.
    left. eexists. reflexivity.
  - (* an item and more *)
    intros v w1 w2 xs Hv IHv Hw1 Hw2 Hxs IH k fuel depth acc rest.
    destruct fuel as [| n]; [stopped |].
    flat. cbn [elements].
    destruct (IHv k n depth (w1 ++ 44%N :: w2 ++ xs ++ 93%N :: rest)
                  (@follows_blanks _ _ _ Hw1 (or_introl eq_refl)))
      as [[a ->] | [-> | [-> | ->]]]; try stopped.
    rewrite (@skip_ws_blanks _ _ Hw1). cbn [skip_ws].
    change (is_ws 44%N) with false. cbv iota. change (44 =? 93)%N with false.
    change (44 =? 44)%N with true. cbv iota.
    rewrite (@skip_ws_blanks _ _ Hw2).
    pose proof (IH k n depth (a :: acc) rest) as H.
    destruct (@items_head _ Hxs) as (c & t & -> & Hc & _).
    cbn [app] in *. rewrite (@skip_ws_head _ _ Hc). exact H.
  - (* the last pair *)
    intros key w1 w2 v w3 Hkey Hw1 Hw2 Hv IHv Hw3 k fuel depth d rest.
    destruct (@scanstring_string _ (w1 ++ 58%N :: w2 ++ v ++ w3 ++ 125%N :: rest) Hkey)
      as (b & -> & Hscan).
    exists (b ++ w1 ++ 58%N :: w2 ++ v ++ w3). split; [reflexivity |].
    destruct fuel as [| n]; [stopped |].
    flat. cbn [members]. destruct (Hscan []) as [x ->].
    rewrite (@skip_ws_blanks _ _ Hw1). cbn [skip_ws].
    change (is_ws 58%N) with false. cbv iota. change (58 =? 58)%N with true. cbv iota.
    rewrite (@skip_ws_blanks _ _ Hw2).
    destruct (@value_head _ Hv) as (c & t & Ev & Hc & _).
    assert (Es : skip_ws (v ++ w3 ++ 125%N :: rest) = v ++ w3 ++ 125%N :: rest)
      by (rewrite Ev; cbn [app]; apply skip_ws_head; exact Hc).
    rewrite Es.
    destruct (IHv k n depth (w3 ++ 125%N :: rest)
                  (@follows_blanks _ _ _ Hw3 (or_intror (or_intror eq_refl))))
      as [[a ->] | [-> | [-> | ->]]]; try stopped.
    rewrite (@skip_ws_blanks _ _ Hw3). cbn [skip_ws].
    change (is_ws 125%N) with false. cbv iota. change (125 =? 125)%N with true.
    left. eexists. reflexivity.
  - (* a pair and more *)
    intros key w1 w2 v w3 w4 ps Hkey Hw1 Hw2 Hv IHv Hw3 Hw4 Hps IH k fuel depth d rest.
    destruct (@scanstring_string _
                (w1 ++ 58%N :: w2 ++ v ++ w3 ++ 44%N :: w4 ++ ps ++ 125%N :: rest) Hkey)
      as (b & -> & Hscan).
    exists (b ++ w1 ++ 58%N :: w2 ++ v ++ w3 ++ 44%N :: w4 ++ ps).
    split; [reflexivity |].
    destruct fuel as [| n]; [stopped |].
    flat. cbn [members]. destruct (Hscan []) as [x ->].
    rewrite (@skip_ws_blanks _ _ Hw1). cbn [skip_ws].
    change (is_ws 58%N) with false. cbv iota. change (58 =? 58)%N with true. cbv iota.
    rewrite (@skip_ws_blanks _ _ Hw2).
    destruct (@value_head _ Hv) as (c & t & Ev & Hc & _).
    assert (Es : skip_ws (v ++ w3 ++ 44%N :: w4 ++ ps ++ 125%N :: rest)
                 = v ++ w3 ++ 44%N :: w4 ++ ps ++ 125%N :: rest)
      by (rewrite Ev; cbn [app]; apply skip_ws_head; exact Hc).
    rewrite Es.
    destruct (IHv k n depth (w3 ++ 44%N :: w4 ++ ps ++ 125%N :: rest)
                  (@follows_blanks _ _ _ Hw3 (or_introl eq_refl)))
      as [[a ->] | [-> | [-> | ->]]]; try stopped.
    rewrite (@skip_ws_blanks _ _ Hw3). cbn [skip_ws].
    change (is_ws 44%N) with false. cbv iota. change (44 =? 125)%N with false.
    change (44 =? 44)%N with true. cbv iota.
    rewrite (@skip_ws_blanks _ _ Hw4).
    destruct (IH k n depth (Dict.set d x a) rest) as (p' & -> & H).
    cbn [app skip_ws]. change (is_ws 34%N) with false. cbv iota.
    change (34 =? 34)%N with true. cbv iota. exact H.
Qed.

(** [json.loads] on a JSON text: a value, or one of the two limits; never a
    [json.JSONDecodeError]. *)
Lemma loads_text k depth s :
  JsonText.text s ->
  (exists v, loads k depth s = Ok v) \/ loads k depth s = DigitLimit \/
  loads k depth s = RecursionLimit.
Proof.
  intros (w1 & v & w2 & Hw1 & Hv & Hw2 & ->).
  pose proof (@JsonFacts.loads_within_budget k depth (w1 ++ v ++ w2)) as Hb.
  unfold loads in *.
  destruct (@value_head _ Hv) as (c & t & Ev & Hc & _ & Hbom).
  assert (Hs : starts_with_bom (w1 ++ v ++ w2) = false).
  { destruct w1 as [| a w1]; [rewrite Ev; exact Hbom |].
    unfold JsonText.blanks in Hw1. simpl in Hw1.
    apply andb_true_iff in Hw1 as [Ha _]. cbn [app starts_with_bom].
    destruct (N.eqb_spec a 65279) as [-> |]; [discriminate Ha | reflexivity]. }
  rewrite Hs in *. rewrite (@skip_ws_blanks _ _ Hw1) in *.
  assert (Es : skip_ws (v ++ w2) = v ++ w2)
    by (rewrite Ev; cbn [app]; apply skip_ws_head; exact Hc).
  rewrite Es in *.
  assert (Hf : follows w2).
  { destruct w2 as [| a w2]; [exact I |].
    unfold JsonText.blanks in Hw2. simpl in Hw2.
    apply andb_true_iff in Hw2 as [Ha _]. unfold follows.
    rewrite !orb_true_iff in *. tauto. }
  destruct (proj1 scanner_reads v Hv k (2 * length (w1 ++ v ++ w2) + 2) depth w2 Hf)
    as [[a E] | [E | [E | E]]]; rewrite E in *.
  - left. rewrite (@skip_ws_all _ Hw2). eauto.
  - auto.
  - auto.
  - congruence.
Qed.

End JsonTextFacts.
(* ===================================================================== *)
(** * Results and responses *)
(* ===================================================================== *)

Lemma as_str_list_inv l : forall ts,
  as_str_list l = Some ts -> l = List.map VStr ts.
Proof.
  induction l as [| v l IH]; intros ts H; simpl in H.
  - injection H as <-. reflexivity.
  - destruct v; try discriminate.
    destruct (as_str_list l) as [r |]; [| discriminate].
    injection H as <-. simpl. rewrite (IH r eq_refl). reflexivity.
Qed.

(** A response built from a result carries the fields of that result. *)
Lemma response_of_inv cfg result m fb resp :
  response_of cfg result m fb = inr resp ->
  exists vc, well_typed cfg result (tags resp) (summary resp) vc (confidence resp)
             /\ model resp = m /\ fallback_used resp = fb.
Proof.
  unfold response_of, respond. cbv [bind getitem ret raise].
  destruct result; try discriminate.
  destruct (Dict.get d (lit "tags")) as [vt |] eqn:Ht; [| discriminate].
  destruct (Dict.get d (lit "summary")) as [vs |] eqn:Hs; [| discriminate].
  destruct (Dict.get d (lit "confidence")) as [vc |] eqn:Hc; [| discriminate].
  unfold make_response, ret, raise.
  destruct vt; try discriminate. destruct vs; try discriminate.
  destruct (as_float cfg vc) as [c |] eqn:Hf; [| discriminate].
  destruct (as_str_list l) as [ts |] eqn:Hl; [| discriminate].
  cbn [fst]. intros [= <-]. cbn [tags summary confidence model fallback_used].
  exists vc. repeat split; try reflexivity.
  apply as_str_list_inv in Hl. subst l.
  exists d. auto.
Qed.

Lemma degraded_from t : from_degraded t (degraded t).
Proof.
  repeat split; unfold degraded; cbn [tags];
    destruct (length (split t) <? 100); simpl;
    try destruct (1000 <? length (split t)); simpl; lia.
Qed.

Lemma str_eqb_refl a : str_eqb a a = true.
Proof. unfold str_eqb. destruct (list_eq_dec N.eq_dec a a); congruence. Qed.

Lemma str_eqb_true a b : str_eqb a b = true -> a = b.
Proof. unfold str_eqb. destruct (list_eq_dec N.eq_dec a b); congruence. Qed.

Lemma str_eqb_neq a b : a <> b -> str_eqb a b = false.
Proof. unfold str_eqb. destruct (list_eq_dec N.eq_dec a b); congruence. Qed.

(** ** The adapters *)

Lemma get_app_last d k v k' :
  Dict.get (d ++ [(k, v)]) k' =
  match Dict.get d k' with
  | Some x => Some x
  | None => if str_eqb k k' then Some v else None
  end.
Proof.
  induction d as [| [k0 v0] d IH]; simpl; [reflexivity |].
  destruct (str_eqb k0 k'); [reflexivity | exact IH].
Qed.

Lemma get_setdefault_same d k v :
  Dict.get (Dict.setdefault d k v) k = Some (or_default d k v).
Proof.
  unfold Dict.setdefault, or_default.
  destruct (Dict.get d k) eqn:E; [exact E |].
  rewrite get_app_last, E, str_eqb_refl. reflexivity.
Qed.

Lemma get_setdefault_other d k v k' :
  k <> k' -> Dict.get (Dict.setdefault d k v) k' = Dict.get d k'.
Proof.
  intros Hne. unfold Dict.setdefault.
  destruct (Dict.get d k); [reflexivity |].
  rewrite get_app_last, (str_eqb_neq Hne).
  destruct (Dict.get d k'); reflexivity.
Qed.

Lemma get_setdefault_kept d k v k' x :
  Dict.get d k' = Some x -> Dict.get (Dict.setdefault d k v) k' = Some x.
Proof.
  intros H. unfold Dict.setdefault.
  destruct (Dict.get d k); [exact H |].
  rewrite get_app_last, H. reflexivity.
Qed.

Lemma finish_filled cfg content r :
  finish cfg content = inr r ->
  exists d0 d,
    parse_json_response cfg content = inr (VDict d0) /\ r = VDict d /\ filled d0 d.
Proof.
  unfold finish.
  destruct (parse_json_response cfg content) as [e | v]; [discriminate |].
  destruct v; try discriminate. intros [= <-].
  exists d. eexists. split; [reflexivity |]. split; [reflexivity |].
  unfold filled. repeat split.
  - intros k v H. repeat apply get_setdefault_kept. exact H.
  - rewrite !get_setdefault_other by discriminate. apply get_setdefault_same.
  - rewrite get_setdefault_other by discriminate.
    rewrite get_setdefault_same. unfold or_default.
    rewrite get_setdefault_other by discriminate. reflexivity.
  - rewrite get_setdefault_same. unfold or_default.
    rewrite !get_setdefault_other by discriminate. reflexivity.
  - intros k Hk. unfold is_default_key in Hk.
    apply orb_false_iff in Hk as [Hk Hc]. apply orb_false_iff in Hk as [Ht Hs].
    rewrite !get_setdefault_other; [reflexivity | | |];
      intros <-; rewrite str_eqb_refl in *; discriminate.
Qed.

Lemma invoke_inr cfg client missing n t r :
  invoke cfg client missing n t = inr r ->
  exists c content,
    client = Some c /\ c n (user_message t) = Returns content /\
    finish cfg content = inr r.
Proof.
  unfold invoke. destruct client as [c |]; [| discriminate].
  destruct (c n (user_message t)) as [e | content] eqn:E; [discriminate |].
  intros H. exists c, content. auto.
Qed.

(** ** The outcomes of [classify] *)

Lemma escalate_cases cfg t l :
  l = [Local] \/ l = [Local; Remote] ->
  (exists l', escalate cfg t l = (inr (degraded t), l') /\ In l' possible_logs)
  \/ (exists r, remote_result cfg (uses Remote l) t = inr r /\
                escalate cfg t l = (response_of cfg r CLAUDE_MODEL true, l ++ [Remote])).
Proof.
  intros Hl. unfold escalate. destruct (anthropic_client cfg).
  - destruct (remote_result cfg (uses Remote l) t) as [e | r].
    + left. eexists. split; [reflexivity |].
      destruct Hl as [-> | ->]; simpl; auto 6.
    + right. exists r. auto.
  - left. eexists. split; [reflexivity |].
    destruct Hl as [-> | ->]; simpl; auto 6.
Qed.

(** Every run on a text that is not blank ends in one of four ways. *)
Lemma classify_cases cfg rq :
  blank (text rq) = false ->
  (exists l, run_handler (classify cfg rq) = (inr (degraded (text rq)), l) /\
             In l possible_logs)
  \/ (exists r, local_result cfg 0 (text rq) = inr r /\
                run_handler (classify cfg rq)
                = (response_of cfg r (LOCAL_MODEL cfg) false, [Local]))
  \/ (exists r, remote_result cfg 0 (text rq) = inr r /\
                run_handler (classify cfg rq)
                = (response_of cfg r CLAUDE_MODEL false, [Remote]))
  \/ (exists r n, remote_result cfg n (text rq) = inr r /\
                  run_handler (classify cfg rq)
                  = (response_of cfg r CLAUDE_MODEL true, Local :: repeat Remote (S n)) /\
                  n <= 1).
Proof.
  intros Hb.
  assert (Hesc : forall l, l = [Local] \/ l = [Local; Remote] ->
            forall out, out = escalate cfg (text rq) l ->
            (exists l', out = (inr (degraded (text rq)), l') /\ In l' possible_logs)
            \/ (exists r n, remote_result cfg n (text rq) = inr r /\
                  out = (response_of cfg r CLAUDE_MODEL true, Local :: repeat Remote (S n)) /\
                  n <= 1)).
  { intros l Hl out ->.
    destruct (escalate_cases cfg (text rq) Hl) as [H | (r & Hr & ->)]; [left; exact H |].
    right. exists r, (uses Remote l).
    destruct Hl as [-> | ->]; simpl; auto. }
  destruct (force_api rq) eqn:Ha.
  { rewrite (classify_force_api cfg rq Hb Ha).
    destruct (remote_result cfg 0 (text rq)) as [e | r].
    - left. eexists. split; [reflexivity | simpl; auto].
    - right. right. left. exists r. auto. }
  destruct (force_local rq) eqn:Hl.
  { rewrite (classify_force_local cfg rq Hb Ha Hl).
    destruct (local_result cfg 0 (text rq)) as [e | r].
    - left. eexists. split; [reflexivity | simpl; auto].
    - right. left. exists r. auto. }
  destruct (USE_LOCAL_FIRST cfg && is_some (local_client cfg)) eqn:Hf.
  - apply andb_true_iff in Hf as [Hf Hc].
    destruct (local_client cfg) as [lc |] eqn:Hlc; [| discriminate].
    rewrite (classify_local_first cfg rq Hb Ha Hl Hf Hlc).
    destruct (local_result cfg 0 (text rq)) as [e | r].
    { destruct (Hesc [Local] (or_introl eq_refl) _ eq_refl) as [H | H]; auto. }
    destruct (low_confidence r) as [e | low].
    { destruct (Hesc [Local] (or_introl eq_refl) _ eq_refl) as [H | H]; auto. }
    destruct (low && is_some (anthropic_client cfg)).
    + destruct (remote_result cfg 0 (text rq)) as [e | r2] eqn:Hr2.
      * destruct (Hesc [Local; Remote] (or_intror eq_refl) _ eq_refl) as [H | H]; auto.
      * right. right. right. exists r2, 0. auto.
    + right. left. exists r. auto.
  - destruct (anthropic_client cfg) as [rc |] eqn:Hrc.
    + rewrite (classify_remote_only cfg rq Hb Ha Hl Hf Hrc).
      destruct (remote_result cfg 0 (text rq)) as [e | r].
      * left. eexists. split; [reflexivity | simpl; auto].
      * right. right. left. exists r. auto.
    + rewrite (classify_no_backend cfg rq Hb Ha Hl Hf Hrc).
      left. eexists. split; [reflexivity | simpl; auto].
Qed.

Lemma response_of_filled_error cfg d0 d m fb e :
  filled d0 d -> response_of cfg (VDict d) m fb = inl e -> e = ValidationError.
Proof.
  intros (_ & Ht & Hs & Hc & _).
  unfold response_of, respond. cbv [bind getitem]. rewrite Ht, Hs, Hc.
  cbv [ret make_response raise].
  destruct (or_default d0 (lit "tags") (VList [])); cbn [fst];
    try (intros [= <-]; reflexivity).
  destruct (or_default d0 (lit "summary") (VStr [])); cbn [fst];
    try (intros [= <-]; reflexivity).
  destruct (as_float cfg _); cbn [fst]; [| intros [= <-]; reflexivity].
  destruct (as_str_list l); cbn [fst]; [discriminate | intros [= <-]; reflexivity].
Qed.

Lemma adapter_response_error cfg client missing n t r m fb e :
  invoke cfg client missing n t = inr r ->
  response_of cfg r m fb = inl e -> e = ValidationError.
Proof.
  intros H He. apply invoke_inr in H as (c & content & _ & _ & Hf).
  apply finish_filled in Hf as (d0 & d & _ & -> & Hfill).
  exact (@response_of_filled_error _ _ _ _ _ _ Hfill He).
Qed.

(** An error of a request whose text is not blank is the validation error
    of the response, after at least one invocation. *)
Lemma error_of_a_text cfg rq e l :
  blank (text rq) = false ->
  run_handler (classify cfg rq) = (inl e, l) ->
  e = ValidationError /\ l <> [].
Proof.
  intros Hb H.
  destruct (classify_cases cfg rq Hb)
    as [(l' & E & _) | [(r & Hr & E) | [(r & Hr & E) | (r & n & Hr & E & _)]]];
    rewrite E in H; [discriminate H | | |]; injection H as H <-;
    (split; [exact (@adapter_response_error _ _ _ _ _ _ _ _ _ Hr H) | discriminate]).
Qed.


(** A response built from the result of an adapter carries the fields of
    the reply the adapter received, defaults included. *)
Lemma response_carries_reply cfg client missing n t r m fb resp :
  invoke cfg client missing n t = inr r ->
  response_of cfg r m fb = inr resp ->
  exists c content d0,
    client = Some c /\ c n (user_message t) = Returns content /\
    parse_json_response cfg content = inr (VDict d0) /\
    or_default d0 (lit "tags") (VList []) = VList (List.map VStr (tags resp)) /\
    or_default d0 (lit "summary") (VStr []) = VStr (summary resp) /\
    as_float cfg (or_default d0 (lit "confidence") (VFloat f_0_5))
    = Some (confidence resp) /\
    model resp = m /\ fallback_used resp = fb.
Proof.
  intros H Hr. apply invoke_inr in H as (c & content & Hc & Hq & Hf).
  apply finish_filled in Hf as (d0 & d & Hp & -> & (_ & Ht & Hs & Hcf & _)).
  apply response_of_inv in Hr
    as (vc & (d' & Hd & Ht' & Hs' & Hc' & Ha) & Hm & Hfb).
  injection Hd as <-.
  rewrite Ht in Ht'. rewrite Hs in Hs'. rewrite Hcf in Hc'.
  injection Ht' as Ht'. injection Hs' as Hs'. injection Hc' as Hc'.
  exists c, content, d0. repeat split; auto. rewrite Hc'. exact Ha.
Qed.
(* ===================================================================== *)
(** * The properties of the specification *)
(* ===================================================================== *)

(** C1.  No flag, no local adapter, no remote adapter: the specification
    says the caller gets the 503 condition and no degraded result.  In the
    code the [HTTPException] is raised inside the [try] whose handler
    catches [Exception], so the caller gets the degraded result. *)
Theorem C1_no_backend_returns_degraded :
  let outcome :=
    run_handler (classify (config false None None) (request hello false false)) in
  outcome = (inr (degraded hello), [])
  /\ model (degraded hello) = lit "heuristic"
  /\ fallback_used (degraded hello) = true
  /\ forall detail, fst outcome <> inl (HTTPException 503 detail).
Proof.
  cbv zeta.
  rewrite (@classify_no_backend (config false None None)
             (request hello false false) eq_refl eq_refl eq_refl eq_refl eq_refl).
  repeat split. discriminate.
Qed.

(** C2 as the specification states it fails: a backend reply with an empty
    tag list and confidence 5.0 reaches the caller unchanged. *)
Lemma C2_counterexample :
  strip hello <> [] /\
  run_handler (classify (config true (Some (always (Returns out_of_range_reply))) None)
                        (request hello false false))
  = (inr out_of_range_response, [Local]) /\
  length (tags out_of_range_response) = 0 /\
  PyFloat.leb (confidence out_of_range_response) f_1_0 = false /\
  ~ in_range out_of_range_response.
Proof.
  split; [discriminate |]. split; [vm_compute; reflexivity |].
  split; [reflexivity |]. split; [reflexivity |].
  intros (_ & _ & H & _). vm_compute in H. lia.
Qed.

(** C2, amended.  An outcome is either the degraded responder's (confidence
    0.3, three or four tags, so within the ranges of the claim), or it comes
    from the last adapter invocation of the log and carries what the backend
    replied to it: its tags and its summary as they are, its confidence as
    the float field of the response reads it, with [[]], [""] and [0.5] for
    a key the reply does not have.  Nothing clamps or checks a range. *)
Theorem C2_outcome_is_degraded_or_backend cfg rq resp l :
  strip (text rq) <> [] ->
  run_handler (classify cfg rq) = (inr resp, l) ->
  (from_degraded (text rq) resp /\ in_range resp)
  \/ from_backend cfg (text rq) l resp.
Proof.
  intros Hv H. pose proof (blank_false _ Hv) as Hb.
  assert (Hd : from_degraded (text rq) (degraded (text rq)) /\
               in_range (degraded (text rq))).
  { pose proof (degraded_from (text rq)) as Hr. split; [exact Hr |].
    destruct Hr as (_ & Hc & Ht).
    unfold in_range. rewrite Hc. repeat split; try reflexivity; lia. }
  destruct (classify_cases cfg rq Hb)
    as [(l' & E & _) | [(r & Hr & E) | [(r & Hr & E) | (r & n & Hr & E & Hn)]]];
    rewrite E in H.
  - injection H as <- _. left. exact Hd.
  - injection H as H <-. right.
    destruct (@response_carries_reply _ _ _ _ _ _ _ _ _ Hr H)
      as (c & content & d0 & Hc & Hq & Hp & Ht & Hs & Hf & Hm & _).
    exists c, 0, content, d0. repeat split; auto.
    exists Local, []. repeat split; auto.
  - injection H as H <-. right.
    destruct (@response_carries_reply _ _ _ _ _ _ _ _ _ Hr H)
      as (c & content & d0 & Hc & Hq & Hp & Ht & Hs & Hf & Hm & _).
    exists c, 0, content, d0. repeat split; auto.
    exists Remote, []. repeat split; auto.
  - injection H as H <-. right.
    destruct (@response_carries_reply _ _ _ _ _ _ _ _ _ Hr H)
      as (c & content & d0 & Hc & Hq & Hp & Ht & Hs & Hf & Hm & _).
    exists c, n, content, d0. repeat split; auto.
    exists Remote, (Local :: repeat Remote n).
    assert (Hn' : n = 0 \/ n = 1) by lia.
    destruct Hn' as [-> | ->]; repeat split; auto.
Qed.

Lemma C2_outcome_witness :
  let cfg := config true (Some (always (Returns bare_reply))) None in
  strip hello <> [] /\
  run_handler (classify cfg (request hello true false))
  = (inr bare_response, [Local]) /\
  ~ from_degraded hello bare_response /\
  from_backend cfg hello [Local] bare_response.
Proof.
  cbv zeta.
  assert (Hv : strip hello <> []) by discriminate.
  assert (Hrun : run_handler
                   (classify (config true (Some (always (Returns bare_reply))) None)
                             (request hello true false))
                 = (inr bare_response, [Local])) by (vm_compute; reflexivity).
  assert (Hn : ~ from_degraded hello bare_response)
    by (intros (E & _); discriminate E).
  split; [exact Hv |]. split; [exact Hrun |]. split; [exact Hn |].
  destruct (@C2_outcome_is_degraded_or_backend
              (config true (Some (always (Returns bare_reply))) None)
              (request hello true false) bare_response [Local] Hv Hrun)
    as [(Hd & _) | Hb].
  - exfalso. exact (Hn Hd).
  - exact Hb.
Defined.

(** C3.  The specification says no adapter is invoked twice within a
    request.  When the local result has low confidence and the remote
    request fails, the failure is raised inside the inner [try], whose
    handler invokes the remote adapter again. *)
Theorem C3_remote_invoked_twice :
  let l := snd (run_handler
                  (classify (config true (Some (always (Returns unsure_reply)))
                                    (Some failing))
                            (request hello false false))) in
  l = [Local; Remote; Remote] /\ uses Remote l = 2.
Proof. vm_compute. split; reflexivity. Qed.

(** C4.  The local-first branch: a local result of confidence at least 0.7
    is the outcome, with [fallback_used = false] and no remote invocation; a
    local result of confidence below 0.7, with a remote adapter that
    succeeds, is replaced by the remote result, with [fallback_used = true]. *)
Theorem C4_local_first_confidence_gate cfg rq lc result :
  strip (text rq) <> [] ->
  force_api rq = false -> force_local rq = false ->
  USE_LOCAL_FIRST cfg = true -> local_client cfg = Some lc ->
  local_result cfg 0 (text rq) = inr result ->
  (forall ts sm vc c,
     well_typed cfg result ts sm vc c -> ge_float vc f_0_7 = true ->
     run_handler (classify cfg rq)
     = (inr {| tags := ts; summary := sm; confidence := c;
               model := LOCAL_MODEL cfg; fallback_used := false |},
        [Local]))
  /\
  (forall d vc rc result2 ts sm vc2 c2,
     result = VDict d -> Dict.get d (lit "confidence") = Some vc ->
     below_float vc f_0_7 = true ->
     anthropic_client cfg = Some rc ->
     remote_result cfg 0 (text rq) = inr result2 ->
     well_typed cfg result2 ts sm vc2 c2 ->
     run_handler (classify cfg rq)
     = (inr {| tags := ts; summary := sm; confidence := c2;
               model := CLAUDE_MODEL; fallback_used := true |},
        [Local; Remote])).
Proof.
  intros Hv Ha Hl Hf Hlc Hr. pose proof (blank_false _ Hv) as Hb.
  rewrite (classify_local_first cfg rq Hb Ha Hl Hf Hlc), Hr.
  split.
  - intros ts sm vc c Hw Hge.
    pose proof Hw as (d & -> & _ & _ & Hc & _).
    rewrite (ge_float_not_low _ Hc Hge). cbn [andb].
    rewrite (response_of_well_typed _ _ Hw). reflexivity.
  - intros d vc rc result2 ts sm vc2 c2 -> Hc Hlt Hrc Hr2 Hw.
    rewrite (below_float_low _ Hc Hlt), Hrc, Hr2. cbn [andb is_some].
    rewrite (response_of_well_typed _ _ Hw). reflexivity.
Qed.

Lemma C4_witness :
  ge_float (VFloat f_0_95) f_0_7 = true /\
  below_float (VFloat f_0_4) f_0_7 = true /\
  run_handler (classify (both_configured confident_reply) (request hello false false))
  = (inr {| tags := abc; summary := lit "s"; confidence := f_0_95;
            model := lit "Qwen/Qwen2.5-14B-Instruct-AWQ";
            fallback_used := false |}, [Local]) /\
  run_handler (classify (both_configured unsure_reply) (request hello false false))
  = (inr {| tags := xyz; summary := lit "r"; confidence := f_0_8;
            model := CLAUDE_MODEL; fallback_used := true |}, [Local; Remote]).
Proof.
  split; [reflexivity |]. split; [reflexivity |]. split.
  - refine (proj1 (@C4_local_first_confidence_gate
                     (both_configured confident_reply) (request hello false false)
                     (always (Returns confident_reply)) confident_result
                     _ eq_refl eq_refl eq_refl eq_refl _)
                  abc (lit "s") (VFloat f_0_95) f_0_95 _ eq_refl).
    + discriminate.
    + vm_compute. reflexivity.
    + exists (dict_of confident_result). repeat split.
  - refine (proj2 (@C4_local_first_confidence_gate
                     (both_configured unsure_reply) (request hello false false)
                     (always (Returns unsure_reply)) unsure_result
                     _ eq_refl eq_refl eq_refl eq_refl _)
                  (dict_of unsure_result) (VFloat f_0_4)
                  (always (Returns remote_reply)) remote_result_value
                  xyz (lit "r") (VFloat f_0_8) f_0_8
                  eq_refl eq_refl eq_refl eq_refl _ _).
    + discriminate.
    + vm_compute. reflexivity.
    + vm_compute. reflexivity.
    + exists (dict_of remote_result_value). repeat split.
Defined.

(** C5.  With [force_api], a remote invocation that fails for any reason,
    the missing configuration included, gives the degraded result; the local
    adapter is not invoked. *)
Theorem C5_forced_remote_failure_degrades cfg rq :
  strip (text rq) <> [] ->
  force_api rq = true ->
  (anthropic_client cfg = None ->
   exists msg, remote_result cfg 0 (text rq) = inl (RuntimeError msg)) /\
  (forall e,
     remote_result cfg 0 (text rq) = inl e ->
     run_handler (classify cfg rq) = (inr (degraded (text rq)), [Remote]) /\
     model (degraded (text rq)) = lit "heuristic" /\
     fallback_used (degraded (text rq)) = true /\
     ~ In Local [Remote]).
Proof.
  intros Hv Ha. split.
  - intros Hn. unfold remote_result, invoke. rewrite Hn. eauto.
  - intros e He.
    rewrite (classify_force_api cfg rq (blank_false _ Hv) Ha), He.
    repeat split. intros [H | []]. discriminate H.
Qed.

Lemma C5_witness :
  strip hello <> [] /\
  run_handler
    (classify (config true (Some (always (Returns confident_reply))) None)
              (request hello false true))
  = (inr (degraded hello), [Remote]).
Proof.
  split; [discriminate |].
  refine (proj1 (proj2 (@C5_forced_remote_failure_degrades
                   (config true (Some (always (Returns confident_reply))) None)
                   (request hello false true) _ _)
                (RuntimeError (lit "Anthropic API not configured")) _)).
  - discriminate.
  - reflexivity.
  - reflexivity.
Defined.

Lemma finish_non_dict cfg content v :
  parse_json_response cfg content = inr v -> is_dict v = false ->
  finish cfg content = inl AttributeError.
Proof.
  intros Hp Hd. unfold finish. rewrite Hp. destruct v; try reflexivity.
  discriminate Hd.
Qed.

(** C6.  The degraded responder.  Every text has whitespace tokens, and for
    the tokens [ws] of the text, [n] of them: the tags are the three base
    tags, then ["short"] exactly when [n < 100] or ["long"] exactly when
    [n > 1000], at most seven in all; the summary is the first 50 tokens
    joined by single spaces, with ["..."] exactly when [n > 50]; the
    confidence is 0.3.  The function has no failure. *)
Theorem C6_degraded_responder t :
  (exists ws, words_of t ws) /\
  forall ws, words_of t ws ->
    let n := length ws in
    exists ts sm,
      heuristic_fallback t
      = VDict [ (lit "tags", VList (List.map VStr ts));
                (lit "summary", VStr sm);
                (lit "confidence", VFloat (PyFloat.of_decimal false 3 (-1))) ] /\
      ts = [lit "uncategorized"; lit "transcript"; lit "unclassified"]
           ++ (if n <? 100 then [lit "short"]
               else if 1000 <? n then [lit "long"] else []) /\
      (In (lit "short") ts <-> n < 100) /\
      (In (lit "long") ts <-> 1000 < n) /\
      length ts <= 7 /\
      sm = join (lit " ") (firstn 50 ws)
           ++ (if 50 <? n then lit "..." else []).
Proof.
  split; [exists (split t); apply words_of_split |].
  intros ws Hws. apply words_of_unique in Hws. subst ws. cbv zeta.
  exists (tags (degraded t)), (summary (degraded t)).
  split; [apply heuristic_fallback_eq |].
  split; [reflexivity |].
  unfold degraded. cbn [tags summary].
  repeat split.
  - destruct (Nat.ltb_spec (length (split t)) 100) as [H | H]; [intros _; exact H |].
    destruct (1000 <? length (split t)); simpl;
      intros [E | [E | [E | E]]]; try discriminate E;
      try (destruct E as [E | []]; discriminate E); destruct E.
  - intros H. apply Nat.ltb_lt in H. rewrite H. simpl. auto 6.
  - destruct (Nat.ltb_spec (length (split t)) 100) as [H | H].
    + simpl. intros [E | [E | [E | [E | []]]]]; discriminate E.
    + destruct (Nat.ltb_spec 1000 (length (split t))) as [H' | H'];
        [intros _; exact H' |].
      simpl. intros [E | [E | [E | []]]]; discriminate E.
  - intros H. pose proof H as H'. apply Nat.ltb_lt in H'. rewrite H'.
    destruct (Nat.ltb_spec (length (split t)) 100); [lia |]. simpl. auto 6.
  - destruct (length (split t) <? 100); [simpl; lia |].
    destruct (1000 <? length (split t)); simpl; lia.
Qed.

Lemma C6_witness :
  heuristic_fallback spaced_text
  = VDict [ (lit "tags",
             VList (List.map VStr
                      [lit "uncategorized"; lit "transcript";
                       lit "unclassified"; lit "short"]));
            (lit "summary", VStr (lit "hello world"));
            (lit "confidence", VFloat f_0_3) ] /\
  heuristic_fallback (many_words 1001)
  = VDict [ (lit "tags",
             VList (List.map VStr
                      [lit "uncategorized"; lit "transcript";
                       lit "unclassified"; lit "long"]));
            (lit "summary",
             VStr (join (lit " ") (repeat (lit "ab") 50) ++ lit "..."));
            (lit "confidence", VFloat f_0_3) ].
Proof.
  assert (H1 : words_of spaced_text [lit "hello"; lit "world"]).
  { apply (@words_some (lit "  ") (lit "hello")
             ([10; 9]%N ++ lit "world" ++ lit " ") [lit "world"]);
      [reflexivity | split; [discriminate | reflexivity] | reflexivity |].
    apply (@words_some [10; 9]%N (lit "world") (lit " ") []);
      [reflexivity | split; [discriminate | reflexivity] | reflexivity |].
    apply words_none. reflexivity. }
  assert (H2 : words_of (many_words 1001) (repeat (lit "ab") 1001)).
  { apply words_of_join. apply Forall_forall. intros w Hw.
    apply repeat_spec in Hw. subst w. split; [discriminate | reflexivity]. }
  split.
  - destruct (proj2 (C6_degraded_responder spaced_text) _ H1)
      as (ts & sm & E & -> & _ & _ & _ & ->).
    exact E.
  - destruct (proj2 (C6_degraded_responder (many_words 1001)) _ H2)
      as (ts & sm & E & -> & _ & _ & _ & ->).
    rewrite E. rewrite repeat_length. reflexivity.
Defined.

Lemma example_is_json_text :
  JsonText.text (jq "{'tags':['a'],'summary':'s','confidence':0.9}").
Proof.
  assert (Hs : forall b : str,
             forallb JsonText.plain b = true ->
             JsonText.string (34%N :: b ++ [34%N])).
  { intros b Hb. exists b. split; [| reflexivity].
    induction b as [| c b IH]; [constructor |].
    cbn [forallb] in Hb. apply andb_true_iff in Hb as [Hc Hb].
    apply JsonText.chars_plain; [exact Hc | exact (IH Hb)]. }
  exists [], (jq "{'tags':['a'],'summary':'s','confidence':0.9}"), [].
  split; [reflexivity |]. split; [| split; reflexivity].
  apply (@JsonText.value_object []
           (jq "'tags':['a'],'summary':'s','confidence':0.9") eq_refl).
  apply (@JsonText.pairs_more (jq "'tags'") [] [] (jq "['a']") [] []
           (jq "'summary':'s','confidence':0.9")
           (Hs (lit "tags") eq_refl) eq_refl eq_refl).
  - apply (@JsonText.value_array [] (jq "'a'") eq_refl).
    apply (@JsonText.items_last (jq "'a'") []); [| reflexivity].
    apply JsonText.value_string. exact (Hs (lit "a") eq_refl).
  - reflexivity.
  - reflexivity.
  - apply (@JsonText.pairs_more (jq "'summary'") [] [] (jq "'s'") [] []
             (jq "'confidence':0.9")
             (Hs (lit "summary") eq_refl) eq_refl eq_refl).
    + apply JsonText.value_string. exact (Hs (lit "s") eq_refl).
    + reflexivity.
    + reflexivity.
    + apply (@JsonText.pairs_last (jq "'confidence'") [] [] (lit "0.9") []
               (Hs (lit "confidence") eq_refl) eq_refl eq_refl); [| reflexivity].
      apply JsonText.value_number.
      exists [], (lit "0"), (lit ".9"), [].
      split; [left; reflexivity |]. split; [left; reflexivity |].
      split; [| split; [left; reflexivity | reflexivity]].
      right. exists (lit "9"). split; [| reflexivity].
      split; [discriminate | reflexivity].
Qed.



(** C8.  An empty or all-whitespace text is refused with status 400 before
    any adapter is invoked. *)
Theorem C8_blank_text_is_rejected cfg rq :
  text rq = [] \/ forallb is_space (text rq) = true ->
  run_handler (classify cfg rq)
  = (inl (HTTPException 400 (lit "Text cannot be empty")), []).
Proof.
  intros H. apply classify_blank. apply blank_true. exact H.
Qed.

Lemma C8_witness :
  forallb is_space (lit "   ") = true /\
  run_handler (classify (both_configured confident_reply)
                        (request (lit "   ") false false))
  = (inl (HTTPException 400 (lit "Text cannot be empty")), []).
Proof.
  split; [reflexivity |].
  apply (@C8_blank_text_is_rejected (both_configured confident_reply)
           (request (lit "   ") false false)).
  right. reflexivity.
Defined.

(** C9.  With both flags set the remote branch is taken: the outcome is the
    one of the request with [force_api] alone, and the local adapter is not
    invoked. *)
Theorem C9_both_flags_remote_wins cfg rq :
  force_api rq = true -> force_local rq = true ->
  (forall out l, run_handler (classify cfg rq) = (out, l) -> ~ In Local l) /\
  (strip (text rq) <> [] ->
   run_handler (classify cfg rq) =
   match remote_result cfg 0 (text rq) with
   | inr result => (response_of cfg result CLAUDE_MODEL false, [Remote])
   | inl _ => (inr (degraded (text rq)), [Remote])
   end) /\
  run_handler (classify cfg rq)
  = run_handler (classify cfg (request (text rq) false true)).
Proof.
  intros Ha Hl.
  assert (Hsame : run_handler (classify cfg rq)
                  = run_handler (classify cfg (request (text rq) false true))).
  { unfold run_handler. rewrite !classify_unfold. cbn [text force_api request].
    rewrite Ha. reflexivity. }
  split; [| split; [| exact Hsame]].
  - intros out l H. destruct (blank (text rq)) eqn:Hb.
    + rewrite (classify_blank cfg rq Hb) in H. injection H as _ <-. intros [].
    + rewrite (classify_force_api cfg rq Hb Ha) in H.
      destruct (remote_result cfg 0 (text rq)); injection H as _ <-;
        intros [E | []]; discriminate E.
  - intros Hv. apply classify_force_api; [apply blank_false; exact Hv | exact Ha].
Qed.

Lemma C9_witness :
  run_handler (classify (both_configured confident_reply) (request hello true true))
  = (inr {| tags := xyz; summary := lit "r"; confidence := f_0_8;
            model := CLAUDE_MODEL; fallback_used := false |}, [Remote]).
Proof.
  refine (eq_trans
            (proj1 (proj2 (@C9_both_flags_remote_wins
                             (both_configured confident_reply)
                             (request hello true true) _ _)) _) _).
  - reflexivity.
  - reflexivity.
  - discriminate.
  - vm_compute. reflexivity.
Defined.

(** C10.  A reply that is valid JSON but not an object ([[1, 2]], [3]) is
    returned by [parse_json_response] without error; the adapter then fails
    in [setdefault] with an [AttributeError], which is not the [ValueError]
    of a malformed reply, and [classify] answers with the degraded result. *)
Theorem C10_non_object_reply :
  let array := lit "[1, 2]" in
  let scalar := lit "3" in
  let cfg content := config true (Some (always (Returns content))) None in
  parse_json_response (cfg array) array = inr (VList [VInt 1; VInt 2]) /\
  parse_json_response (cfg scalar) scalar = inr (VInt 3) /\
  classify_with_local (cfg array) hello [] = (inl AttributeError, [Local]) /\
  classify_with_local (cfg scalar) hello [] = (inl AttributeError, [Local]) /\
  (forall m, AttributeError <> ValueError m) /\
  run_handler (classify (cfg array) (request hello false false))
  = (inr (degraded hello), [Local]) /\
  run_handler (classify (cfg scalar) (request hello true false))
  = (inr (degraded hello), [Local]).
Proof.
  cbv zeta. repeat split; try (vm_compute; reflexivity). discriminate.
Qed.

(* ===================================================================== *)
(** * Further properties of the code *)
(* ===================================================================== *)

(** ** The adapters *)

(** X1.  What an adapter returns, when it returns: the text its client
    answered decodes to a dict, and the result is that dict with [tags],
    [summary] and [confidence] present; an entry of the reply is never
    replaced, and no other key is added. *)
Theorem adapter_result_is_filled_reply cfg t l r l' :
  classify_with_local cfg t l = (inr r, l') \/
  classify_with_api cfg t l = (inr r, l') ->
  exists c n content d0 d,
    (local_client cfg = Some c \/ anthropic_client cfg = Some c) /\
    c n (user_message t) = Returns content /\
    parse_json_response cfg content = inr (VDict d0) /\
    r = VDict d /\ filled d0 d.
Proof.
  intros [H | H].
  - rewrite classify_with_local_run in H. injection H as H _.
    apply invoke_inr in H as (c & content & Hc & Hreq & Hf).
    apply finish_filled in Hf as (d0 & d & Hp & -> & Hfill).
    exists c, (uses Local l), content, d0, d. auto 6.
  - rewrite classify_with_api_run in H. injection H as H _.
    apply invoke_inr in H as (c & content & Hc & Hreq & Hf).
    apply finish_filled in Hf as (d0 & d & Hp & -> & Hfill).
    exists c, (uses Remote l), content, d0, d. auto 6.
Qed.

Lemma X1_witness :
  exists d0 d,
    parse_json_response (config true None None)
                        (jq "{'confidence': 0.4, 'note': 'n'}") = inr (VDict d0) /\
    filled d0 d /\
    Dict.get d (lit "tags") = Some (VList []) /\
    Dict.get d (lit "confidence") = Some (VFloat f_0_4) /\
    Dict.get d (lit "note") = Some (VStr (lit "n")).
Proof.
  destruct (@adapter_result_is_filled_reply
              (config true (Some (always (Returns (jq "{'confidence': 0.4, 'note': 'n'}")))) None)
              hello []
              (result_of (jq "{'confidence': 0.4, 'note': 'n'}")) [Local]
              (or_introl eq_refl))
    as (c & n & content & d0 & d & [Hc | Hc] & Hreq & Hp & Hr & Hfill);
    [| discriminate Hc].
  injection Hc as <-. injection Hreq as <-.
  exists d0, d. split; [exact Hp |]. split; [exact Hfill |].
  vm_compute in Hr. injection Hr as <-.
  repeat split; reflexivity.
Defined.

(** ** The outcomes of [classify] *)

(** X2.  The only errors [classify] lets out are the 400 of a blank text,
    raised before any adapter is invoked, and the validation error of a
    response whose fields have the wrong types; no error of a backend, of
    the parser or of a missing configuration reaches the caller, and neither
    does the 503. *)
Theorem classify_error_kinds cfg rq e l :
  run_handler (classify cfg rq) = (inl e, l) ->
  (e = HTTPException 400 (lit "Text cannot be empty") /\ l = [] /\
   blank (text rq) = true)
  \/ (e = ValidationError /\ l <> [] /\ blank (text rq) = false).
Proof.
  intros H. destruct (blank (text rq)) eqn:Hb.
  - rewrite (classify_blank cfg rq Hb) in H. injection H as <- <-. auto.
  - right. destruct (@error_of_a_text _ _ _ _ Hb H) as [-> Hl]. auto.
Qed.

Lemma X2_witness :
  run_handler
    (classify (config true (Some (always (Returns (jq "{'tags': 'x'}")))) None)
              (request hello false false))
  = (inl ValidationError, [Local]) /\
  ((ValidationError = HTTPException 400 (lit "Text cannot be empty") /\
    [Local] = [] /\ blank hello = true)
   \/ (ValidationError = ValidationError /\ [Local] <> [] /\ blank hello = false)).
Proof.
  assert (H : run_handler
                (classify (config true (Some (always (Returns (jq "{'tags': 'x'}")))) None)
                          (request hello false false))
              = (inl ValidationError, [Local])) by (vm_compute; reflexivity).
  split; [exact H |].
  exact (@classify_error_kinds _ _ _ _ H).
Defined.

(** X3.  Who produced an outcome.  A response is the degraded one, or it is
    attributed to the single adapter that was invoked, with [fallback_used =
    false], or to the remote adapter invoked after the local one, with
    [fallback_used = true].  So a response with [fallback_used = false]
    means that exactly one adapter was invoked and [model] names it. *)
Theorem classify_outcome_attribution cfg rq resp l :
  run_handler (classify cfg rq) = (inr resp, l) ->
  ((resp = degraded (text rq) /\ In l possible_logs)
   \/ (l = [Local] /\ model resp = LOCAL_MODEL cfg /\ fallback_used resp = false)
   \/ (l = [Remote] /\ model resp = CLAUDE_MODEL /\ fallback_used resp = false)
   \/ ((l = [Local; Remote] \/ l = [Local; Remote; Remote]) /\
       model resp = CLAUDE_MODEL /\ fallback_used resp = true))
  /\ (fallback_used resp = false ->
      (l = [Local] /\ model resp = LOCAL_MODEL cfg) \/
      (l = [Remote] /\ model resp = CLAUDE_MODEL)).
Proof.
  intros H.
  assert (Hb : blank (text rq) = false).
  { destruct (blank (text rq)) eqn:Hb; [| reflexivity].
    rewrite (classify_blank cfg rq Hb) in H. discriminate H. }
  assert (Hcases :
    (resp = degraded (text rq) /\ In l possible_logs)
    \/ (l = [Local] /\ model resp = LOCAL_MODEL cfg /\ fallback_used resp = false)
    \/ (l = [Remote] /\ model resp = CLAUDE_MODEL /\ fallback_used resp = false)
    \/ ((l = [Local; Remote] \/ l = [Local; Remote; Remote]) /\
        model resp = CLAUDE_MODEL /\ fallback_used resp = true)).
  { destruct (classify_cases cfg rq Hb)
      as [(l' & E & Hl) | [(r & Hr & E) | [(r & Hr & E) | (r & n & Hr & E & Hn)]]];
      rewrite E in H; injection H as H <-.
    - left. subst resp. auto.
    - right. left. apply response_of_inv in H as (vc & _ & Hm & Hf). auto.
    - right. right. left. apply response_of_inv in H as (vc & _ & Hm & Hf). auto.
    - right. right. right. apply response_of_inv in H as (vc & _ & Hm & Hf).
      split; [| auto].
      destruct n as [| [| n]]; [left | right | lia]; reflexivity. }
  split; [exact Hcases |].
  intros Hf.
  destruct Hcases as [[-> _] | [(Hl & Hm & _) | [(Hl & Hm & _) | (_ & _ & Ht)]]].
  - discriminate Hf.
  - left. auto.
  - right. auto.
  - congruence.
Qed.

Lemma X3_witness :
  run_handler (classify (both_configured confident_reply) (request hello false false))
  = (inr {| tags := abc; summary := lit "s"; confidence := f_0_95;
            model := lit "Qwen/Qwen2.5-14B-Instruct-AWQ";
            fallback_used := false |}, [Local]) /\
  ([Local] = [Local] /\
   lit "Qwen/Qwen2.5-14B-Instruct-AWQ" = LOCAL_MODEL (both_configured confident_reply)
   \/ [Local] = [Remote] /\ lit "Qwen/Qwen2.5-14B-Instruct-AWQ" = CLAUDE_MODEL).
Proof.
  assert (H : run_handler
                (classify (both_configured confident_reply) (request hello false false))
              = (inr {| tags := abc; summary := lit "s"; confidence := f_0_95;
                        model := lit "Qwen/Qwen2.5-14B-Instruct-AWQ";
                        fallback_used := false |}, [Local]))
    by (vm_compute; reflexivity).
  split; [exact H |].
  exact (proj2 (@classify_outcome_attribution _ _ _ _ H) eq_refl).
Defined.

(** X4.  Within one request the local adapter is invoked at most once and
    the remote adapter at most twice, and the local adapter, when it is
    invoked at all, is invoked before the remote one. *)
Theorem classify_invocation_order cfg rq out l :
  run_handler (classify cfg rq) = (out, l) ->
  uses Local l <= 1 /\ uses Remote l <= 2 /\
  (forall l1 l2, l = l1 ++ Local :: l2 -> l1 = []).
Proof.
  intros H. apply classify_invocations in H.
  simpl in H. destruct H as [<- | [<- | [<- | [<- | [<- | []]]]]];
    (split; [unfold uses; simpl; lia |]); (split; [unfold uses; simpl; lia |]);
    intros l1 l2 E;
    repeat (destruct l1 as [| ? l1]; [reflexivity || discriminate E |];
            try discriminate E; injection E as ? E; subst);
    try discriminate; destruct l1; discriminate.
Qed.

Lemma X4_witness :
  uses Local [Local; Remote; Remote] <= 1 /\
  uses Remote [Local; Remote; Remote] <= 2 /\
  (forall l1 l2, [Local; Remote; Remote] = l1 ++ Local :: l2 -> l1 = []).
Proof.
  apply (@classify_invocation_order
           (config true (Some (always (Returns unsure_reply))) (Some failing))
           (request hello false false) (inr (degraded hello))).
  vm_compute. reflexivity.
Defined.

(** ** The branches of [classify] *)

(** X5.  With [force_local] (and not [force_api]) the remote adapter is
    never invoked: a local result is returned as it is, low confidence or
    not, with [fallback_used = false], and a local failure gives the
    degraded result. *)
Theorem force_local_never_escalates cfg rq :
  strip (text rq) <> [] ->
  force_api rq = false -> force_local rq = true ->
  run_handler (classify cfg rq) =
  match local_result cfg 0 (text rq) with
  | inr result => (response_of cfg result (LOCAL_MODEL cfg) false, [Local])
  | inl _ => (inr (degraded (text rq)), [Local])
  end
  /\ ~ In Remote (snd (run_handler (classify cfg rq))).
Proof.
  intros Hv Ha Hl.
  rewrite (classify_force_local cfg rq (blank_false _ Hv) Ha Hl).
  split; [reflexivity |].
  destruct (local_result cfg 0 (text rq)); simpl; intros [E | []]; discriminate E.
Qed.

Lemma X5_witness :
  run_handler (classify (both_configured unsure_reply) (request hello true false))
  = (inr {| tags := abc; summary := lit "s"; confidence := f_0_4;
            model := lit "Qwen/Qwen2.5-14B-Instruct-AWQ";
            fallback_used := false |}, [Local]).
Proof.
  refine (eq_trans
            (proj1 (@force_local_never_escalates
                      (both_configured unsure_reply) (request hello true false)
                      _ eq_refl eq_refl)) _).
  - discriminate.
  - vm_compute. reflexivity.
Defined.

(** X6.  The local-first branch when the local adapter fails: with a remote
    adapter configured, the remote adapter is invoked once and its result is
    the outcome, with [fallback_used = true], or the degraded result if it
    fails too; without one, the outcome is the degraded result. *)
Theorem local_failure_falls_back cfg rq lc e :
  strip (text rq) <> [] ->
  force_api rq = false -> force_local rq = false ->
  USE_LOCAL_FIRST cfg = true -> local_client cfg = Some lc ->
  local_result cfg 0 (text rq) = inl e ->
  (forall rc, anthropic_client cfg = Some rc ->
     run_handler (classify cfg rq) =
     match remote_result cfg 0 (text rq) with
     | inr result => (response_of cfg result CLAUDE_MODEL true, [Local; Remote])
     | inl _ => (inr (degraded (text rq)), [Local; Remote])
     end)
  /\ (anthropic_client cfg = None ->
      run_handler (classify cfg rq) = (inr (degraded (text rq)), [Local])).
Proof.
  intros Hv Ha Hl Hf Hlc He.
  rewrite (classify_local_first cfg rq (blank_false _ Hv) Ha Hl Hf Hlc), He.
  unfold escalate. split.
  - intros rc ->. reflexivity.
  - intros ->. reflexivity.
Qed.

Lemma X6_witness :
  run_handler (classify local_down (request hello false false))
  = (inr (xyz_response true), [Local; Remote]).
Proof.
  refine (eq_trans
            (proj1 (@local_failure_falls_back
                      local_down (request hello false false) failing
                      (ClientError 503) _ eq_refl eq_refl eq_refl eq_refl eq_refl)
                   (always (Returns remote_reply)) eq_refl) _).
  - discriminate.
  - vm_compute. reflexivity.
Defined.

(** X7.  Without a flag, when local-first is off or no local client is
    configured, the remote adapter is invoked directly: its result is the
    outcome with [fallback_used = false], its failure gives the degraded
    result, and the local adapter is not invoked even if it is configured. *)
Theorem remote_is_used_directly cfg rq rc :
  strip (text rq) <> [] ->
  force_api rq = false -> force_local rq = false ->
  USE_LOCAL_FIRST cfg = false \/ local_client cfg = None ->
  anthropic_client cfg = Some rc ->
  run_handler (classify cfg rq) =
  match remote_result cfg 0 (text rq) with
  | inr result => (response_of cfg result CLAUDE_MODEL false, [Remote])
  | inl _ => (inr (degraded (text rq)), [Remote])
  end.
Proof.
  intros Hv Ha Hl Hoff Hrc.
  apply (@classify_remote_only cfg rq rc (blank_false _ Hv) Ha Hl); [| exact Hrc].
  destruct Hoff as [-> | ->]; [reflexivity | apply andb_false_r].
Qed.

Lemma X7_witness :
  run_handler (classify remote_only (request hello false false))
  = (inr (xyz_response false), [Remote]).
Proof.
  refine (eq_trans
            (@remote_is_used_directly
               remote_only (request hello false false)
               (always (Returns remote_reply)) _ eq_refl eq_refl
               (or_introl eq_refl) eq_refl) _).
  - discriminate.
  - vm_compute. reflexivity.
Defined.

Lemma low_confidence_numeric d c :
  Dict.get d (lit "confidence") = Some c -> numeric c = true ->
  low_confidence (VDict d) = inr (below_float c f_0_7).
Proof.
  intros Hg Hn. unfold low_confidence. cbv [bind getitem]. rewrite Hg.
  destruct c; try discriminate Hn; reflexivity.
Qed.

Lemma low_confidence_not_numeric d c :
  Dict.get d (lit "confidence") = Some c -> numeric c = false ->
  low_confidence (VDict d) = inl TypeError.
Proof.
  intros Hg Hn. unfold low_confidence. cbv [bind getitem]. rewrite Hg.
  destruct c; try discriminate Hn; reflexivity.
Qed.

(** X8.  The local-first branch keeps the local result, with
    [fallback_used = false] and no remote invocation, whenever its
    confidence is a number that is not below 0.7 (a NaN is not below 0.7),
    and also whenever no remote adapter is configured, however low the
    confidence. *)
Theorem local_result_is_kept cfg rq lc d c :
  strip (text rq) <> [] ->
  force_api rq = false -> force_local rq = false ->
  USE_LOCAL_FIRST cfg = true -> local_client cfg = Some lc ->
  local_result cfg 0 (text rq) = inr (VDict d) ->
  Dict.get d (lit "confidence") = Some c ->
  numeric c = true ->
  below_float c f_0_7 = false \/ anthropic_client cfg = None ->
  run_handler (classify cfg rq)
  = (response_of cfg (VDict d) (LOCAL_MODEL cfg) false, [Local]).
Proof.
  intros Hv Ha Hl Hf Hlc Hr Hc Hn Hkeep.
  rewrite (classify_local_first cfg rq (blank_false _ Hv) Ha Hl Hf Hlc), Hr.
  rewrite (low_confidence_numeric _ Hc Hn).
  destruct Hkeep as [-> | ->]; [reflexivity |].
  cbn [is_some]. rewrite andb_false_r. reflexivity.
Qed.

Lemma X8_witness :
  run_handler (classify (local_only unsure_reply) (request hello false false))
  = (inr (abc_response f_0_4), [Local]).
Proof.
  refine (eq_trans
            (@local_result_is_kept
               (local_only unsure_reply) (request hello false false)
               (always (Returns unsure_reply)) (dict_of unsure_result)
               (VFloat f_0_4) _ eq_refl eq_refl eq_refl eq_refl _ eq_refl eq_refl
               (or_intror eq_refl)) _).
  - discriminate.
  - vm_compute. reflexivity.
  - vm_compute. reflexivity.
Defined.

(** X9.  In the local-first branch a local result whose confidence is not a
    number (a string, null, a list, an object) is handled as a failure of
    the local adapter: the comparison raises, and the remote adapter, when
    configured, is invoked once; otherwise the outcome is the degraded
    result. *)
Theorem non_numeric_confidence_is_a_failure cfg rq lc d c :
  strip (text rq) <> [] ->
  force_api rq = false -> force_local rq = false ->
  USE_LOCAL_FIRST cfg = true -> local_client cfg = Some lc ->
  local_result cfg 0 (text rq) = inr (VDict d) ->
  Dict.get d (lit "confidence") = Some c ->
  numeric c = false ->
  (forall rc, anthropic_client cfg = Some rc ->
     run_handler (classify cfg rq) =
     match remote_result cfg 0 (text rq) with
     | inr result => (response_of cfg result CLAUDE_MODEL true, [Local; Remote])
     | inl _ => (inr (degraded (text rq)), [Local; Remote])
     end)
  /\ (anthropic_client cfg = None ->
      run_handler (classify cfg rq) = (inr (degraded (text rq)), [Local])).
Proof.
  intros Hv Ha Hl Hf Hlc Hr Hc Hn.
  rewrite (classify_local_first cfg rq (blank_false _ Hv) Ha Hl Hf Hlc), Hr.
  rewrite (low_confidence_not_numeric _ Hc Hn).
  unfold escalate. split.
  - intros rc ->. reflexivity.
  - intros ->. reflexivity.
Qed.

Lemma X9_witness :
  run_handler (classify (both_configured odd_confidence_reply)
                        (request hello false false))
  = (inr (xyz_response true), [Local; Remote]).
Proof.
  refine (eq_trans
            (proj1 (@non_numeric_confidence_is_a_failure
                      (both_configured odd_confidence_reply)
                      (request hello false false)
                      (always (Returns odd_confidence_reply))
                      (dict_of (result_of odd_confidence_reply))
                      (VStr (lit "high"))
                      _ eq_refl eq_refl eq_refl eq_refl _ _ eq_refl)
                   (always (Returns remote_reply)) eq_refl) _).
  - discriminate.
  - vm_compute. reflexivity.
  - vm_compute. reflexivity.
  - vm_compute. reflexivity.
Defined.

Lemma strip_nil_all_space t : strip t = [] -> forallb is_space t = true.
Proof.
  intros H. destruct (StripFacts.strip_split t) as (a & b & Ha & Hb & Ht).
  rewrite H in Ht. rewrite Ht. cbn [app]. rewrite forallb_app.
  unfold all_space in *. rewrite Ha, Hb. reflexivity.
Qed.

Lemma blank_iff t : blank t = true <-> forallb is_space t = true.
Proof.
  split.
  - unfold blank. destruct t as [| c t]; [reflexivity |].
    cbn [truthy negb orb]. destruct (strip (c :: t)) eqn:E; [| discriminate].
    intros _. apply strip_nil_all_space. exact E.
  - intros H. apply blank_true. right. exact H.
Qed.

(** X10.  The request is refused with status 400 exactly when its text has
    no character that is not whitespace. *)
Theorem bad_request_iff_blank cfg rq :
  (exists detail l,
     run_handler (classify cfg rq) = (inl (HTTPException 400 detail), l))
  <-> forallb is_space (text rq) = true.
Proof.
  split.
  - intros (detail & l & H). apply blank_iff.
    destruct (blank (text rq)) eqn:Hb; [reflexivity |].
    destruct (@error_of_a_text _ _ _ _ Hb H) as [E _]. discriminate E.
  - intros H. apply blank_iff in H.
    exists (lit "Text cannot be empty"), []. apply classify_blank. exact H.
Qed.

(** ** Start-up and [health] *)

Lemma truthy_not_empty s : truthy s = negb (str_eqb s []).
Proof. destruct s; reflexivity. Qed.

Section StartupFacts.

Variable lower : str -> str.
Variable OpenAI : str -> Client.
Variable Anthropic : str -> Client.

Variable max_digits : nat.
Variable depth : nat.
Variable float_of_str : str -> option PyFloat.float.

Let boot := load lower OpenAI Anthropic max_digits depth float_of_str.

Lemma health_local env :
  local_configured (health (boot env)) = is_some (local_client (settings (boot env))).
Proof.
  unfold boot, load, health.
  destruct (getenv (ENV_LOCAL_VLLM_BASE env) []); reflexivity.
Qed.

Lemma health_api env :
  api_configured (health (boot env)) = is_some (anthropic_client (settings (boot env))).
Proof.
  unfold boot, load, health.
  destruct (getenv (ENV_ANTHROPIC_API_KEY env) []); reflexivity.
Qed.

Lemma health_models env :
  models (health (boot env)) =
  (if is_some (local_client (settings (boot env)))
   then [LOCAL_MODEL (settings (boot env))] else [])
  ++ (if is_some (anthropic_client (settings (boot env)))
      then [CLAUDE_MODEL] else []).
Proof.
  unfold boot, load, health.
  destruct (getenv (ENV_LOCAL_VLLM_BASE env) []);
    destruct (getenv (ENV_ANTHROPIC_API_KEY env) []); reflexivity.
Qed.

(** X11.  After start-up, [health] reports a backend as configured exactly
    when [classify] has a client for it, and the model name of every
    response that is not the degraded one is in the list [health] gives. *)
Theorem health_lists_the_models_classify_uses env :
  local_configured (health (boot env))
  = is_some (local_client (settings (boot env))) /\
  api_configured (health (boot env))
  = is_some (anthropic_client (settings (boot env))) /\
  forall rq resp l,
    run_handler (classify (settings (boot env)) rq) = (inr resp, l) ->
    resp = degraded (text rq) \/ In (model resp) (models (health (boot env))).
Proof.
  split; [apply health_local |]. split; [apply health_api |].
  intros rq resp l H. set (cfg := settings (boot env)) in *.
  assert (Hb : blank (text rq) = false).
  { destruct (blank (text rq)) eqn:Hb; [| reflexivity].
    rewrite (classify_blank cfg rq Hb) in H. discriminate H. }
  rewrite health_models. fold cfg.
  assert (Hloc : forall n r, local_result cfg n (text rq) = inr r ->
                   is_some (local_client cfg) = true).
  { intros n r Hr. apply invoke_inr in Hr as (c & _ & -> & _). reflexivity. }
  assert (Hrem : forall n r, remote_result cfg n (text rq) = inr r ->
                   is_some (anthropic_client cfg) = true).
  { intros n r Hr. apply invoke_inr in Hr as (c & _ & -> & _). reflexivity. }
  destruct (classify_cases cfg rq Hb)
    as [(l' & E & _) | [(r & Hr & E) | [(r & Hr & E) | (r & n & Hr & E & _)]]];
    rewrite E in H; injection H as H _.
  - left. auto.
  - right. apply response_of_inv in H as (_ & _ & -> & _).
    rewrite (Hloc _ _ Hr). left. reflexivity.
  - right. apply response_of_inv in H as (_ & _ & -> & _).
    rewrite (Hrem _ _ Hr). apply in_or_app. right. left. reflexivity.
  - right. apply response_of_inv in H as (_ & _ & -> & _).
    rewrite (Hrem _ _ Hr). apply in_or_app. right. left. reflexivity.
Qed.

(** X12.  [health] lists no model exactly when both the base URL and the API
    key are unset or empty, and then every request with a text that is not
    blank gets the degraded result, whatever its flags. *)
Theorem no_model_means_degraded env :
  (models (health (boot env)) = [] <->
   getenv (ENV_LOCAL_VLLM_BASE env) [] = [] /\
   getenv (ENV_ANTHROPIC_API_KEY env) [] = []) /\
  (models (health (boot env)) = [] ->
   forall rq, strip (text rq) <> [] ->
     fst (run_handler (classify (settings (boot env)) rq))
     = inr (degraded (text rq))).
Proof.
  assert (Hiff : models (health (boot env)) = [] <->
                 getenv (ENV_LOCAL_VLLM_BASE env) [] = [] /\
                 getenv (ENV_ANTHROPIC_API_KEY env) [] = []).
  { unfold boot, load, health.
    destruct (getenv (ENV_LOCAL_VLLM_BASE env) []) as [| c s];
      destruct (getenv (ENV_ANTHROPIC_API_KEY env) []) as [| c' s'];
      cbn; split; try (intros [H1 H2]); try discriminate; auto. }
  split; [exact Hiff |].
  intros Hm rq Hv. apply Hiff in Hm as [Hbase Hkey].
  set (cfg := settings (boot env)).
  assert (Hl : local_client cfg = None).
  { unfold cfg, boot, load. cbn. rewrite Hbase. reflexivity. }
  assert (Hr : anthropic_client cfg = None).
  { unfold cfg, boot, load. cbn. rewrite Hkey. reflexivity. }
  destruct (classify_cases cfg rq (blank_false _ Hv))
    as [(l' & E & _) | [(r & Hres & E) | [(r & Hres & E) | (r & n & Hres & E & _)]]].
  - rewrite E. reflexivity.
  - apply invoke_inr in Hres as (c & _ & Hc & _). fold cfg in Hc. congruence.
  - apply invoke_inr in Hres as (c & _ & Hc & _). fold cfg in Hc. congruence.
  - apply invoke_inr in Hres as (c & _ & Hc & _). fold cfg in Hc. congruence.
Qed.

Lemma ascii_lower_eqb c x y :
  (97 <= x <= 122)%N -> y = (x - 32)%N ->
  (ascii_lower c =? x)%N = ((c =? x) || (c =? y))%N.
Proof.
  intros Hx ->. unfold ascii_lower. apply eq_iff_eq_true.
  rewrite orb_true_iff, !N.eqb_eq.
  destruct (N.leb_spec 65 c), (N.leb_spec c 90); cbn [andb]; lia.
Qed.

Lemma lowered_true v :
  str_eqb (List.map ascii_lower v) (lit "true") = spells_true v.
Proof.
  destruct v as [| t [| r [| u [| e [| x v]]]]];
    try (cbn [List.map]; rewrite str_eqb_neq by discriminate; reflexivity).
  cbv beta iota delta [spells_true].
  rewrite <- (@ascii_lower_eqb t 116 84 ltac:(lia) eq_refl),
          <- (@ascii_lower_eqb r 114 82 ltac:(lia) eq_refl),
          <- (@ascii_lower_eqb u 117 85 ltac:(lia) eq_refl),
          <- (@ascii_lower_eqb e 101 69 ltac:(lia) eq_refl).
  cbn [List.map]. unfold str_eqb.
  destruct (list_eq_dec N.eq_dec _ (lit "true")) as [H | H].
  - injection H as -> -> -> ->. reflexivity.
  - symmetry. apply not_true_is_false. intros Hall.
    apply H. apply andb_true_iff in Hall as [Hall He].
    apply andb_true_iff in Hall as [Hall Hu].
    apply andb_true_iff in Hall as [Ht Hr].
    apply N.eqb_eq in Ht, Hr, Hu, He. rewrite Ht, Hr, Hu, He. reflexivity.
Qed.

(** X13.  [USE_LOCAL_FIRST] is true when the variable is unset, and when it
    is set to an ASCII string it is true exactly for the four letters of
    "true" in any mix of cases: "1", "yes", "on", the empty string and
    " true" all turn local-first off. *)
Theorem use_local_first_is_spelled_true env :
  (forall s, is_ascii s = true -> lower s = List.map ascii_lower s) ->
  (ENV_USE_LOCAL_FIRST env = None ->
   USE_LOCAL_FIRST (settings (boot env)) = true) /\
  (forall v, ENV_USE_LOCAL_FIRST env = Some v -> is_ascii v = true ->
     USE_LOCAL_FIRST (settings (boot env)) = spells_true v) /\
  (forall v, ENV_USE_LOCAL_FIRST env = Some v ->
     In v [lit "1"; lit "yes"; lit "on"; []; lit " true"] ->
     USE_LOCAL_FIRST (settings (boot env)) = false).
Proof.
  intros Hlower.
  assert (Hset : forall v, ENV_USE_LOCAL_FIRST env = Some v -> is_ascii v = true ->
                   USE_LOCAL_FIRST (settings (boot env)) = spells_true v).
  { intros v Hv Ha. unfold boot, load. cbn [settings USE_LOCAL_FIRST].
    rewrite Hv. cbn [getenv].
    rewrite (Hlower v Ha). apply lowered_true. }
  split; [| split; [exact Hset |]].
  - intros Hn. unfold boot, load. cbn [settings USE_LOCAL_FIRST].
    rewrite Hn. cbn [getenv].
    rewrite (Hlower (lit "true") eq_refl). reflexivity.
  - intros v Hv Hin.
    assert (Ha : is_ascii v = true /\ spells_true v = false).
    { simpl in Hin.
      destruct Hin as [<- | [<- | [<- | [<- | [<- | []]]]]]; split; reflexivity. }
    rewrite (Hset v Hv (proj1 Ha)). exact (proj2 Ha).
Qed.

End StartupFacts.

Lemma X13_witness :
  USE_LOCAL_FIRST
    (settings (load lower_ascii_only (fun _ => failing) (fun _ => failing)
                    4300 1000 decimal_float
                    (env_with_flag (Some (lit "True"))))) = true /\
  USE_LOCAL_FIRST
    (settings (load lower_ascii_only (fun _ => failing) (fun _ => failing)
                    4300 1000 decimal_float
                    (env_with_flag (Some (lit "1"))))) = false.
Proof.
  split.
  - exact (proj1 (proj2 (@use_local_first_is_spelled_true
                           lower_ascii_only (fun _ => failing) (fun _ => failing)
                    4300 1000 decimal_float
                           (env_with_flag (Some (lit "True")))
                           (fun s _ => eq_refl)))
                 (lit "True") eq_refl eq_refl).
  - refine (proj2 (proj2 (@use_local_first_is_spelled_true
                            lower_ascii_only (fun _ => failing) (fun _ => failing)
                    4300 1000 decimal_float
                            (env_with_flag (Some (lit "1")))
                            (fun s _ => eq_refl)))
                  (lit "1") eq_refl _).
    left. reflexivity.
Defined.

(** ** The text sent to a backend *)

Lemma invoke_agree cfg l r c c' missing n t :
  agree_on (user_message t) c c' ->
  invoke (with_clients cfg l r) c' missing n t = invoke cfg c missing n t.
Proof.
  unfold agree_on, invoke. destruct c as [f |], c' as [g |]; intros H;
    try contradiction; [| reflexivity].
  rewrite <- (H n). destruct (g n (user_message t)); reflexivity.
Qed.

Lemma agree_is_some m c c' : agree_on m c c' -> is_some c' = is_some c.
Proof.
  destruct c, c'; simpl; intros H; try contradiction; reflexivity.
Qed.

(** X14.  A backend is sent the instruction line and the first 4000
    characters of the text, and nothing else of the request: the run of
    [classify] depends on the two clients only through what they reply to
    that one message.  Clients that reply alike to it, whatever they reply to
    any other message, give the same invocations and the same outcome. *)
Theorem backends_are_asked_about_the_first_4000_characters cfg l r rq :
  agree_on (lit "Classify this transcript:" ++ [10; 10]%N
            ++ firstn 4000 (text rq)) (local_client cfg) l ->
  agree_on (lit "Classify this transcript:" ++ [10; 10]%N
            ++ firstn 4000 (text rq)) (anthropic_client cfg) r ->
  run_handler (classify (with_clients cfg l r) rq) = run_handler (classify cfg rq).
Proof.
  intros Hl Hr.
  change (lit "Classify this transcript:" ++ [10; 10]%N ++ firstn 4000 (text rq))
    with (user_message (text rq)) in Hl, Hr.
  set (cfg' := with_clients cfg l r).
  assert (HL : forall n, local_result cfg' n (text rq) = local_result cfg n (text rq))
    by (intros n; exact (@invoke_agree cfg l r _ _ _ n _ Hl)).
  assert (HR : forall n, remote_result cfg' n (text rq) = remote_result cfg n (text rq))
    by (intros n; exact (@invoke_agree cfg l r _ _ _ n _ Hr)).
  pose proof (agree_is_some _ _ _ Hl) as Hsl.
  pose proof (agree_is_some _ _ _ Hr) as Hsr.
  assert (HE : forall lg, escalate cfg' (text rq) lg = escalate cfg (text rq) lg).
  { intros lg. unfold escalate. rewrite HR.
    change (anthropic_client cfg') with r.
    destruct (anthropic_client cfg), r; simpl in Hsr; try discriminate;
      reflexivity. }
  destruct (blank (text rq)) eqn:Hb.
  { rewrite !classify_blank by exact Hb. reflexivity. }
  destruct (force_api rq) eqn:Ha.
  { rewrite (classify_force_api cfg' rq Hb Ha), (classify_force_api cfg rq Hb Ha).
    rewrite HR. reflexivity. }
  destruct (force_local rq) eqn:Hfl.
  { rewrite (classify_force_local cfg' rq Hb Ha Hfl),
      (classify_force_local cfg rq Hb Ha Hfl).
    rewrite HL. reflexivity. }
  destruct (USE_LOCAL_FIRST cfg && is_some (local_client cfg)) eqn:Hf.
  - apply andb_true_iff in Hf as [Hf Hc].
    destruct (local_client cfg) as [lc |] eqn:Hlc; [| discriminate].
    destruct l as [lc' |]; [| discriminate].
    rewrite (@classify_local_first cfg' rq lc' Hb Ha Hfl Hf eq_refl).
    rewrite (@classify_local_first cfg rq lc Hb Ha Hfl Hf Hlc).
    rewrite HL, !HE, HR.
    change (anthropic_client cfg') with r. rewrite Hsr. reflexivity.
  - assert (Hf' : USE_LOCAL_FIRST cfg' && is_some (local_client cfg') = false)
      by (change (USE_LOCAL_FIRST cfg && is_some l = false); rewrite Hsl; exact Hf).
    destruct (anthropic_client cfg) as [rc |] eqn:Hrc.
    + destruct r as [rc' |]; [| discriminate].
      rewrite (@classify_remote_only cfg' rq rc' Hb Ha Hfl Hf' eq_refl).
      rewrite (@classify_remote_only cfg rq rc Hb Ha Hfl Hf Hrc).
      rewrite HR. reflexivity.
    + destruct r as [rc' |]; [discriminate |].
      rewrite (@classify_no_backend cfg' rq Hb Ha Hfl Hf' eq_refl).
      rewrite (@classify_no_backend cfg rq Hb Ha Hfl Hf Hrc).
      reflexivity.
Qed.

Lemma X14_witness :
  let rq := request (long_text (lit " one")) false false in
  let m := lit "Classify this transcript:" ++ [10; 10]%N ++ repeat 97%N 4000 in
  let cfg := both_configured confident_reply in
  let l := Some (only_on m (always (Returns confident_reply))
                         (Raises (ClientError 503))) in
  let r := Some (only_on m (always (Returns remote_reply))
                         (Returns (lit "no"))) in
  agree_on m (local_client cfg) l /\ agree_on m (anthropic_client cfg) r /\
  run_handler (classify (with_clients cfg l r) rq) = run_handler (classify cfg rq).
Proof.
  assert (Hm : lit "Classify this transcript:" ++ [10; 10]%N
               ++ firstn 4000 (long_text (lit " one"))
               = lit "Classify this transcript:" ++ [10; 10]%N ++ repeat 97%N 4000)
    by (vm_compute; reflexivity).
  assert (Hl : forall n,
             always (Returns confident_reply) n
               (lit "Classify this transcript:" ++ [10; 10]%N ++ repeat 97%N 4000)
             = only_on (lit "Classify this transcript:" ++ [10; 10]%N
                        ++ repeat 97%N 4000)
                       (always (Returns confident_reply))
                       (Raises (ClientError 503)) n
                       (lit "Classify this transcript:" ++ [10; 10]%N
                        ++ repeat 97%N 4000))
    by (intros n; vm_compute; reflexivity).
  assert (Hr : forall n,
             always (Returns remote_reply) n
               (lit "Classify this transcript:" ++ [10; 10]%N ++ repeat 97%N 4000)
             = only_on (lit "Classify this transcript:" ++ [10; 10]%N
                        ++ repeat 97%N 4000)
                       (always (Returns remote_reply)) (Returns (lit "no")) n
                       (lit "Classify this transcript:" ++ [10; 10]%N
                        ++ repeat 97%N 4000))
    by (intros n; vm_compute; reflexivity).
  split; [exact Hl |]. split; [exact Hr |].
  apply (@backends_are_asked_about_the_first_4000_characters
           (both_configured confident_reply) _ _
           (request (long_text (lit " one")) false false)).
  - cbn [text request]. rewrite Hm. exact Hl.
  - cbn [text request]. rewrite Hm. exact Hr.
Defined.

(** ** [parse_json_response] without a fenced object *)

Module ExtractFacts.
Import Re ReFacts FenceFacts.

Lemma strip_prefix_fence_none s :
  match s with [] => True | c :: _ => c <> 96%N end ->
  strip_prefix (lit "```") s = None.
Proof.
  intros Hc. destruct (strip_prefix (lit "```") s) as [r |] eqn:E; [| reflexivity].
  apply strip_prefix_some in E. subst s. exfalso. apply Hc. reflexivity.
Qed.

Lemma no_backtick_head s :
  no_backtick s = true -> match s with [] => True | c :: _ => c <> 96%N end.
Proof.
  destruct s as [| c s]; [trivial |]. simpl. intros H.
  apply andb_true_iff in H as [H _]. intros ->. discriminate H.
Qed.

Lemma no_backtick_app a b :
  no_backtick (a ++ b) = no_backtick a && no_backtick b.
Proof. apply forallb_app. Qed.

(** None of the three patterns matches in a text without a backtick. *)
Lemma fence_no_match n s : no_backtick s = true -> match_at fence_re n s = None.
Proof.
  intros H. unfold match_at, fence_re. cbn [run pos rest grp].
  rewrite (strip_prefix_fence_none _ (no_backtick_head _ H)). reflexivity.
Qed.

Lemma lead_no_match n s : no_backtick s = true -> match_at lead_re n s = None.
Proof.
  intros H. unfold match_at, lead_re. cbn [run pos rest grp].
  destruct n; [| reflexivity].
  rewrite (strip_prefix_fence_none _ (no_backtick_head _ H)). reflexivity.
Qed.

Lemma trail_no_match_plain n s : no_backtick s = true -> match_at trail_re n s = None.
Proof.
  intros H. destruct (match_at trail_re n s) as [m |] eqn:E; [| reflexivity].
  exfalso. unfold match_at, trail_re in E. cbn [run pos rest grp] in E.
  apply greedy_some in E as (w & r & -> & _ & E).
  cbn [run pos rest grp] in E.
  rewrite no_backtick_app in H. apply andb_true_iff in H as [_ H].
  rewrite (strip_prefix_fence_none _ (no_backtick_head _ H)) in E. discriminate E.
Qed.

Lemma no_backtick_tail c s : no_backtick (c :: s) = true -> no_backtick s = true.
Proof. simpl. intros H. apply andb_true_iff in H as [_ H]. exact H. Qed.

Lemma search_none r s :
  (forall n s', no_backtick s' = true -> match_at r n s' = None) ->
  no_backtick s = true -> forall n, search_from r n s = None.
Proof.
  intros Hr. induction s as [| c s IH]; intros H n; cbn [search_from];
    rewrite (Hr _ _ H); [reflexivity |].
  apply IH. exact (no_backtick_tail _ _ H).
Qed.

Lemma sub_none r s :
  (forall n s', no_backtick s' = true -> match_at r n s' = None) ->
  no_backtick s = true -> forall n, sub_from r 0 n s = s.
Proof.
  intros Hr. induction s as [| c s IH]; intros H n; [reflexivity |].
  cbn [sub_from]. rewrite (Hr _ _ H).
  rewrite (IH (no_backtick_tail _ _ H)). reflexivity.
Qed.

Lemma normalize_plain t : no_backtick (strip t) = true -> normalize t = strip t.
Proof.
  intros H. unfold normalize, search, sub_empty.
  rewrite (@search_none fence_re _ fence_no_match H).
  rewrite (@sub_none lead_re _ lead_no_match H).
  apply (@sub_none trail_re _ trail_no_match_plain H).
Qed.

Lemma no_backtick_strip t : no_backtick t = true -> no_backtick (strip t) = true.
Proof.
  intros H. destruct (StripFacts.strip_split t) as (a & b & _ & _ & Ht).
  rewrite Ht, !no_backtick_app in H.
  apply andb_true_iff in H as [_ H]. apply andb_true_iff in H as [H _]. exact H.
Qed.

End ExtractFacts.

(** X15.  A reply without any backtick is decoded as it is, once stripped:
    the search finds no fenced block and neither substitution changes the
    text. *)
Theorem plain_reply_is_decoded_as_is cfg t :
  no_backtick t = true ->
  normalize t = strip t /\ parse_json_response cfg t = decode cfg (strip t).
Proof.
  intros H.
  pose proof (ExtractFacts.normalize_plain t (ExtractFacts.no_backtick_strip t H)) as Hn.
  split; [exact Hn |]. unfold parse_json_response, decode. rewrite Hn. reflexivity.
Qed.

Lemma X15_witness :
  parse_json_response (config true None None) (lit "  [1, 2]  ")
  = decode (config true None None) (lit "[1, 2]").
Proof.
  exact (proj2 (@plain_reply_is_decoded_as_is (config true None None) (lit "  [1, 2]  ") eq_refl)).
Defined.

(** ** Whitespace around a reply *)

Lemma lstrip_app_space a s : all_space a -> lstrip (a ++ s) = lstrip s.
Proof.
  unfold all_space. induction a as [| c a IH]; intros H; [reflexivity |].
  simpl in H. apply andb_true_iff in H as [Hc Ha].
  simpl. rewrite Hc. exact (IH Ha).
Qed.

Lemma lstrip_app s b : lstrip s <> [] -> lstrip (s ++ b) = lstrip s ++ b.
Proof.
  induction s as [| c s IH]; intros H; [exfalso; apply H; reflexivity |].
  simpl in *. destruct (is_space c); [exact (IH H) | reflexivity].
Qed.

Lemma lstrip_nil_all_space s : lstrip s = [] -> forallb is_space s = true.
Proof.
  induction s as [| c s IH]; intros H; [reflexivity |].
  simpl in *. destruct (is_space c); [exact (IH H) | discriminate H].
Qed.

Lemma rstrip_app_space s b : all_space b -> rstrip (s ++ b) = rstrip s.
Proof.
  intros H. unfold rstrip. rewrite rev_app_distr, lstrip_app_space; [reflexivity |].
  unfold all_space. rewrite forallb_rev. exact H.
Qed.

Lemma strip_padding a t b :
  all_space a -> all_space b -> strip (a ++ t ++ b) = strip t.
Proof.
  intros Ha Hb. unfold strip. rewrite (lstrip_app_space _ Ha).
  destruct (lstrip t) as [| c s] eqn:E.
  - rewrite lstrip_all_space; [reflexivity |].
    rewrite forallb_app, (lstrip_nil_all_space _ E). exact Hb.
  - rewrite lstrip_app by (rewrite E; discriminate).
    rewrite E. apply rstrip_app_space. exact Hb.
Qed.

(** X16.  Whitespace before and after a reply changes nothing: the text
    handed to the decoder, and so the result or the error, are those of the
    reply without it. *)
Theorem surrounding_whitespace_is_ignored cfg a t b :
  all_space a -> all_space b ->
  normalize (a ++ t ++ b) = normalize t /\
  parse_json_response cfg (a ++ t ++ b) = parse_json_response cfg t.
Proof.
  intros Ha Hb.
  assert (Hn : normalize (a ++ t ++ b) = normalize t).
  { unfold normalize. rewrite (strip_padding t Ha Hb). reflexivity. }
  split; [exact Hn |]. unfold parse_json_response. rewrite Hn. reflexivity.
Qed.

Lemma X16_witness :
  parse_json_response (config true None None) (lit "  " ++ fenced_reply ++ [10%N; 9%N])
  = parse_json_response (config true None None) fenced_reply.
Proof.
  exact (proj2 (@surrounding_whitespace_is_ignored (config true None None)
                  (lit "  ") fenced_reply [10%N; 9%N] eq_refl eq_refl)).
Defined.

(** ** The summary of the degraded responder *)

Lemma join_cons sep p q rest :
  join sep (p :: q :: rest) = p ++ sep ++ join sep (q :: rest).
Proof. reflexivity. Qed.

Lemma join_snoc sep x w : forall ws,
  join sep (ws ++ [w]) ++ x = join sep (ws ++ [w ++ x]).
Proof.
  induction ws as [| p ws IH]; [reflexivity |].
  destruct ws as [| q ws'].
  - cbn [app]. rewrite !join_cons. cbn [join]. rewrite <- !app_assoc. reflexivity.
  - change ((p :: q :: ws') ++ [w]) with (p :: q :: (ws' ++ [w])).
    change ((p :: q :: ws') ++ [w ++ x]) with (p :: q :: (ws' ++ [w ++ x])).
    rewrite !join_cons. rewrite <- !app_assoc. do 2 f_equal. exact IH.
Qed.

Lemma firstn_snoc {A} (l : list A) : forall n w,
  nth_error l n = Some w -> firstn (S n) l = firstn n l ++ [w].
Proof.
  induction l as [| a l IH]; intros [| n] w H; try discriminate H.
  - injection H as ->. destruct l; reflexivity.
  - change (firstn (S (S n)) (a :: l)) with (a :: firstn (S n) l).
    rewrite (IH _ _ H). reflexivity.
Qed.

Lemma token_app w x : token w -> forallb non_space x = true -> token (w ++ x).
Proof.
  intros [Hne Hw] Hx. split.
  - destruct w; [congruence | discriminate].
  - rewrite forallb_app, Hw. exact Hx.
Qed.

Lemma get_summary t :
  Dict.get (dict_of (heuristic_fallback t)) (lit "summary")
  = Some (VStr (summary (degraded t))).
Proof. rewrite heuristic_fallback_eq. reflexivity. Qed.

(** X17.  The summary of the degraded responder, split again, has the first
    50 words of the text and no more: all the words of a text of at most 50,
    and otherwise the first 49 followed by the 50th with the ellipsis glued
    to it. *)
Theorem degraded_summary_words t :
  let words := split t in
  exists sm,
    Dict.get (dict_of (heuristic_fallback t)) (lit "summary") = Some (VStr sm) /\
    length (split sm) = Nat.min 50 (length words) /\
    (length words <= 50 -> split sm = words) /\
    (50 < length words ->
     exists w, nth_error words 49 = Some w /\
               split sm = firstn 49 words ++ [w ++ lit "..."]).
Proof.
  cbv zeta. exists (summary (degraded t)). split; [apply get_summary |].
  unfold degraded. cbn [summary].
  pose proof (split_tokens t) as Htok.
  destruct (Nat.ltb_spec 50 (length (split t))) as [Hn | Hn].
  - destruct (nth_error (split t) 49) as [w |] eqn:Hw;
      [| apply nth_error_None in Hw; lia].
    assert (Hs : split (join (lit " ") (firstn 50 (split t)) ++ lit "...")
                 = firstn 49 (split t) ++ [w ++ lit "..."]).
    { rewrite (firstn_snoc _ _ Hw), join_snoc. apply split_join.
      apply Forall_app. split; [apply firstn_tokens; exact Htok |].
      constructor; [| constructor].
      apply token_app; [| reflexivity].
      apply nth_error_In in Hw. rewrite Forall_forall in Htok. exact (Htok _ Hw). }
    rewrite Hs. repeat split.
    + rewrite length_app, length_firstn. cbn [length]. lia.
    + intros. lia.
    + intros _. exists w. split; reflexivity.
  - rewrite app_nil_r, firstn_all2 by exact Hn.
    rewrite (split_join Htok). repeat split.
    + lia.
    + intros. lia.
Qed.

(** X18.  The degraded responder reads the words of the text only: the text
    with every run of whitespace replaced by one space, and none at the
    ends, has the same result. *)
Theorem degraded_result_depends_on_words_only t :
  split (join (lit " ") (split t)) = split t /\
  heuristic_fallback (join (lit " ") (split t)) = heuristic_fallback t.
Proof.
  pose proof (split_join (split_tokens t)) as H.
  split; [exact H |]. unfold heuristic_fallback. rewrite H. reflexivity.
Qed.

(** ** Fence markers at the ends of a reply *)

Module MarkerFacts.
Import Re ReFacts FenceFacts ExtractFacts.

(** A greedy repetition whose continuation succeeds after the whole run
    stops there. *)
Lemma greedy_stops {A} p g (k : mstate -> option A) r a : forall w n,
  forallb p w = true ->
  match r with [] => True | c :: _ => p c = false end ->
  k (MState (n + length w) r g) = Some a ->
  greedy p n (w ++ r) g k = Some a.
Proof.
  induction w as [| c w IH]; intros n Hw Hr Hk.
  - simpl in Hk. rewrite Nat.add_0_r in Hk. cbn [app].
    destruct r as [| c r]; simpl; [exact Hk |]. rewrite Hr. exact Hk.
  - simpl in Hw. apply andb_true_iff in Hw as [Hc Hw].
    cbn [app greedy]. rewrite Hc.
    rewrite (IH (S n) Hw Hr); [reflexivity |].
    simpl in Hk. replace (S n + length w) with (n + S (length w)) by lia. exact Hk.
Qed.

Lemma sub_from_skip r a : forall k n b,
  length a = k -> sub_from r k n (a ++ b) = sub_from r 0 (n + k) b.
Proof.
  induction a as [| c a IH]; intros k n b Hk; simpl in Hk; subst k.
  - rewrite Nat.add_0_r. reflexivity.
  - cbn [app sub_from length]. rewrite (IH _ (S n) b eq_refl).
    f_equal. lia.
Qed.

Lemma sub_from_match r n c t e g j x b :
  match_at r n (c :: t) = Some (e, g) -> e - n = S j ->
  t = x ++ b -> length x = j ->
  sub_from r 0 n (c :: t) = sub_from r 0 (S n + j) b.
Proof.
  intros Hm He -> Hx. cbn [sub_from]. rewrite Hm, He.
  apply sub_from_skip. exact Hx.
Qed.

Lemma sub_from_keep r a : forall n b,
  (forall i, i < length a -> match_at r (n + i) (skipn i (a ++ b)) = None) ->
  sub_from r 0 n (a ++ b) = a ++ sub_from r 0 (n + length a) b.
Proof.
  induction a as [| c a IH]; intros n b H.
  - simpl. rewrite Nat.add_0_r. reflexivity.
  - cbn [app sub_from].
    pose proof (H 0 (Nat.lt_0_succ _)) as H0.
    rewrite Nat.add_0_r in H0. cbn [skipn app] in H0. rewrite H0.
    rewrite (IH (S n) b).
    + cbn [length]. replace (S n + length a) with (n + S (length a)) by lia.
      reflexivity.
    + intros i Hi. specialize (H (S i)). cbn [skipn app length] in H.
      replace (S n + i) with (n + S i) by lia. apply H. lia.
Qed.

Lemma space_not_tick c : is_space c = true -> c <> 96%N.
Proof. intros H ->. discriminate H. Qed.

(** ** The opening marker *)

Lemma no_json_after_space ws a x :
  all_space ws -> is_space a = false -> a <> 106%N ->
  strip_prefix (lit "json") (ws ++ a :: x) = None.
Proof.
  intros Hws Ha Hj.
  destruct (strip_prefix (lit "json") (ws ++ a :: x)) as [r |] eqn:E; [| reflexivity].
  exfalso. apply strip_prefix_some in E.
  destruct ws as [| s ws].
  - injection E as -> _. apply Hj. reflexivity.
  - injection E as -> _. discriminate Hws.
Qed.

Lemma lead_match tag ws a x :
  is_tag tag -> all_space ws -> is_space a = false -> a <> 106%N ->
  match_at lead_re 0 (fence ++ tag ++ ws ++ a :: x)
  = Some (length (fence ++ tag ++ ws), None).
Proof.
  intros Htag Hws Ha Hj. unfold match_at, lead_re. cbn [run pos rest grp].
  unfold fence. rewrite strip_prefix_app.
  assert (Hrun : forall n, greedy is_space n (ws ++ a :: x) None
                             (fun st => Some (pos st, grp st))
                           = Some (n + length ws, None)).
  { intros n. apply greedy_stops; [exact Hws | exact Ha | reflexivity]. }
  destruct Htag as [-> | ->].
  - cbn [app]. rewrite (no_json_after_space x Hws Ha Hj).
    rewrite Hrun. rewrite !length_app. reflexivity.
  - rewrite strip_prefix_app, Hrun. rewrite !length_app. reflexivity.
Qed.

Lemma sub_lead_marker tag ws a x :
  is_tag tag -> all_space ws -> is_space a = false -> a <> 106%N ->
  sub_empty lead_re (fence ++ tag ++ ws ++ a :: x) = a :: x.
Proof.
  intros Htag Hws Ha Hj. unfold sub_empty.
  pose proof (lead_match x Htag Hws Ha Hj) as Hm.
  change (fence ++ tag ++ ws ++ a :: x)
    with (96%N :: ([96; 96]%N ++ tag ++ ws ++ a :: x)) in *.
  refine (eq_trans (@sub_from_match lead_re 0 96%N _ _ None
                      (length ([96; 96]%N ++ tag ++ ws))
                      ([96; 96]%N ++ tag ++ ws) (a :: x) Hm _ _ _) _).
  - rewrite Nat.sub_0_r. reflexivity.
  - rewrite <- !app_assoc. reflexivity.
  - reflexivity.
  - apply sub_lead_later.
Qed.

Lemma sub_lead_no_marker a x : a <> 96%N -> sub_empty lead_re (a :: x) = a :: x.
Proof.
  intros Ha. unfold sub_empty. cbn [sub_from].
  unfold match_at, lead_re. cbn [run pos rest grp].
  rewrite (@strip_prefix_fence_none (a :: x) Ha).
  rewrite sub_lead_later. reflexivity.
Qed.

(** ** The closing marker *)

Lemma no_backtick_skipn y : forall i,
  no_backtick y = true -> no_backtick (skipn i y) = true.
Proof.
  induction y as [| c y IH]; intros [| i] H; try exact H.
  simpl. apply IH. exact (no_backtick_tail _ _ H).
Qed.

Lemma space_run_stops w : forall l d z z',
  all_space w -> no_backtick l = true -> is_space d = false -> d <> 96%N ->
  w ++ 96%N :: z = l ++ d :: z' -> False.
Proof.
  unfold all_space.
  induction w as [| s w IH]; intros [| b l] d z z' Hw Hl Hd Hne E; simpl in *.
  - injection E as E _. congruence.
  - injection E as <- _. discriminate Hl.
  - injection E as -> _. apply andb_true_iff in Hw as [Hs _]. congruence.
  - injection E as -> E.
    apply andb_true_iff in Hw as [_ Hw]. apply andb_true_iff in Hl as [_ Hl].
    exact (IH _ _ _ _ Hw Hl Hd Hne E).
Qed.

Lemma trail_no_match_inside y d c i n :
  no_backtick (y ++ [d]) = true -> is_space d = false -> i < length (y ++ [d]) ->
  match_at trail_re n (skipn i ((y ++ [d]) ++ c)) = None.
Proof.
  intros Hb Hd Hi.
  destruct (match_at trail_re n (skipn i ((y ++ [d]) ++ c))) as [m |] eqn:E;
    [| reflexivity].
  exfalso. unfold match_at, trail_re in E. cbn [run pos rest grp] in E.
  apply greedy_some in E as (w & r & Hs & Hw & E).
  cbn [run pos rest grp] in E.
  destruct (strip_prefix (lit "```") r) as [r' |] eqn:Hp; [| discriminate E].
  apply strip_prefix_some in Hp. subst r.
  rewrite length_app in Hi. simpl in Hi.
  rewrite <- app_assoc in Hs. rewrite skipn_app in Hs.
  replace (i - length y) with 0 in Hs by lia. cbn [skipn app] in Hs.
  rewrite no_backtick_app in Hb. apply andb_true_iff in Hb as [Hy Hd'].
  symmetry in Hs.
  change (w ++ lit "```" ++ r') with (w ++ 96%N :: (96%N :: 96%N :: r')) in Hs.
  refine (@space_run_stops w (skipn i y) d _ _ Hw (no_backtick_skipn _ i Hy) Hd _ Hs).
  intros ->. discriminate Hd'.
Qed.

Lemma trail_match ws n :
  all_space ws ->
  match_at trail_re n (ws ++ fence) = Some (n + length ws + 3, None).
Proof.
  intros Hws. unfold match_at, trail_re. cbn [run pos rest grp].
  apply greedy_stops; [exact Hws | reflexivity | reflexivity].
Qed.

Lemma sub_trail_marker y d ws :
  no_backtick (y ++ [d]) = true -> is_space d = false -> all_space ws ->
  sub_empty trail_re ((y ++ [d]) ++ ws ++ fence) = y ++ [d].
Proof.
  intros Hb Hd Hws. unfold sub_empty.
  rewrite sub_from_keep
    by (intros i Hi; apply trail_no_match_inside; assumption).
  assert (Hend : sub_from trail_re 0 (0 + length (y ++ [d])) (ws ++ fence) = []);
    [| rewrite Hend; apply app_nil_r].
  pose proof (trail_match (0 + length (y ++ [d])) Hws) as Hm.
  destruct ws as [| s ws].
  - cbn [app] in *. unfold fence in *.
    change (lit "```") with (96%N :: ([96; 96]%N ++ [])) in *.
    refine (eq_trans (@sub_from_match trail_re _ 96%N _ _ None 2 [96; 96]%N [] Hm
                        _ _ _) _);
      [cbn [length]; lia | reflexivity | reflexivity | reflexivity].
  - change ((s :: ws) ++ fence) with (s :: (ws ++ fence)) in *.
    refine (eq_trans (@sub_from_match trail_re _ s _ _ None (length (ws ++ fence))
                        (ws ++ fence) [] Hm _ _ _) _);
      [| symmetry; apply app_nil_r | reflexivity | reflexivity].
    rewrite !length_app. change (length fence) with 3. cbn [length]. lia.
Qed.

(** ** The search for a fenced object *)

Lemma ticks_app a b : ticks (a ++ b) = ticks a + ticks b.
Proof. apply count_occ_app. Qed.

Lemma ticks_no_backtick x : no_backtick x = true -> ticks x = 0.
Proof.
  induction x as [| c x IH]; intros H; [reflexivity |].
  simpl in H. apply andb_true_iff in H as [Hc Hx].
  unfold ticks. cbn [count_occ].
  destruct (N.eq_dec c 96) as [-> | _]; [discriminate Hc |]. exact (IH Hx).
Qed.

Lemma ticks_space w : all_space w -> ticks w = 0.
Proof.
  unfold all_space. induction w as [| c w IH]; intros H; [reflexivity |].
  simpl in H. apply andb_true_iff in H as [Hc Hw].
  unfold ticks. cbn [count_occ].
  destruct (N.eq_dec c 96) as [-> | _]; [discriminate Hc |]. exact (IH Hw).
Qed.

Lemma ticks_tag tag : is_tag tag -> ticks tag = 0.
Proof. intros [-> | ->]; reflexivity. Qed.

Lemma ticks_skipn s : forall i, ticks (skipn i s) <= ticks s.
Proof.
  induction s as [| c s IH]; intros [| i]; try apply Nat.le_refl.
  cbn [skipn]. specialize (IH i). unfold ticks in *. cbn [count_occ].
  destruct (N.eq_dec c 96); lia.
Qed.

Lemma ticks_fenced_block s g post : fenced_block s g post -> 6 <= ticks s.
Proof.
  intros (tag & ws1 & ws2 & _ & _ & _ & _ & ->).
  rewrite !ticks_app. change (ticks fence) with 3. lia.
Qed.

Lemma search_few_ticks s n : ticks s < 6 -> search_from fence_re n s = None.
Proof.
  intros H. destruct (search_from fence_re n s) as [m |] eqn:E; [| reflexivity].
  exfalso. apply search_from_some in E as (i & _ & Hm & _).
  apply fence_sound in Hm as (g & post & _ & Hb & _).
  apply ticks_fenced_block in Hb. pose proof (ticks_skipn s i). lia.
Qed.

Lemma last_not_tick post z : ticks (post ++ [z]) = 0 -> z <> 96%N.
Proof.
  rewrite ticks_app. unfold ticks at 2. cbn [count_occ].
  intros H ->. destruct (N.eq_dec 96 96); [lia | congruence].
Qed.

(** A fenced block that starts a text made of the two markers around a body
    without backtick holds that body. *)
Lemma fenced_body tag ws1 a x y d ws2 g post :
  is_tag tag -> all_space ws1 -> all_space ws2 ->
  no_backtick (a :: x) = true -> a :: x = y ++ [d] ->
  is_space a = false -> a <> 106%N -> is_space d = false ->
  fenced_block (fence ++ tag ++ ws1 ++ (a :: x) ++ ws2 ++ fence) g post ->
  g = a :: x /\ braced g.
Proof.
  intros Htag Hws1 Hws2 Hb Hy Ha Hj Hd
         (tag' & ws1' & ws2' & Htag' & Hws1' & Hws2' & [body' ->] & E).
  split; [| exists body'; reflexivity].
  (* the text has six backticks, so the block has none but its fences *)
  assert (Hn : ticks body' = 0 /\ ticks post = 0).
  { apply (f_equal ticks) in E. rewrite !ticks_app in E.
    rewrite (ticks_tag Htag), (ticks_tag Htag'), (ticks_space Hws1),
            (ticks_space Hws1'), (ticks_space Hws2), (ticks_space Hws2'),
            (ticks_no_backtick _ Hb) in E.
    change (ticks fence) with 3 in E. lia. }
  destruct Hn as [_ Hpost].
  assert (post = []) as ->.
  { destruct post as [| p0 post']; [reflexivity |].
    destruct (@exists_last _ (p0 :: post') ltac:(discriminate)) as (p & z & Ep).
    rewrite Ep in *.
    exfalso. pose proof (@last_not_tick _ _ Hpost) as Hz.
    apply Hz.
    assert (H1 : fence ++ tag ++ ws1 ++ (a :: x) ++ ws2 ++ fence
                 = (fence ++ tag ++ ws1 ++ (a :: x) ++ ws2 ++ [96; 96]%N) ++ [96%N])
      by (unfold fence; rewrite <- !app_assoc; reflexivity).
    assert (H2 : fence ++ tag' ++ ws1' ++ (lit "{" ++ body' ++ lit "}") ++ ws2'
                 ++ fence ++ p ++ [z]
                 = (fence ++ tag' ++ ws1' ++ (lit "{" ++ body' ++ lit "}") ++ ws2'
                    ++ fence ++ p) ++ [z])
      by (rewrite <- !app_assoc; reflexivity).
    rewrite H1, H2 in E. apply app_inj_tail in E as [_ E]. congruence. }
  rewrite app_nil_r in E. apply app_inv_head in E.
  (* the tags agree *)
  assert (E1 : ws1 ++ a :: (x ++ ws2 ++ fence)
               = ws1' ++ 123%N :: (body' ++ lit "}" ++ ws2' ++ fence)).
  { destruct Htag as [-> | ->], Htag' as [-> | ->].
    - rewrite <- !app_assoc in E. exact E.
    - exfalso. cbn [app] in E. destruct ws1 as [| s ws1].
      + injection E as -> _. apply Hj. reflexivity.
      + injection E as -> _. discriminate Hws1.
    - exfalso. cbn [app] in E. destruct ws1' as [| s ws1'].
      + discriminate E.
      + injection E as <- _. discriminate Hws1'.
    - apply app_inv_head in E. rewrite <- !app_assoc in E. exact E. }
  destruct (@span_unique ws1 ws1' a 123%N _ _ Hws1 Hws1' Ha eq_refl E1)
    as (_ & -> & E2).
  (* the closing fences agree *)
  assert (E3 : (x ++ ws2) ++ fence = (body' ++ lit "}" ++ ws2') ++ fence)
    by (rewrite <- !app_assoc; exact E2).
  apply app_inv_tail in E3.
  (* the whitespace before the closing fence agrees *)
  assert (E4 : rev ws2 ++ d :: rev y
               = rev ws2' ++ 125%N :: rev (lit "{" ++ body')).
  { assert (E3' : (y ++ [d]) ++ ws2 = (lit "{" ++ body') ++ [125%N] ++ ws2').
    { rewrite <- Hy.
      change (123%N :: (x ++ ws2) = 123%N :: (body' ++ lit "}" ++ ws2')).
      f_equal. exact E3. }
    apply (f_equal (@rev _)) in E3'. rewrite !rev_app_distr in E3'.
    rewrite <- !app_assoc in E3'. exact E3'. }
  assert (Hr : forall w, all_space w -> all_space (rev w))
    by (intros w Hw; unfold all_space; rewrite forallb_rev; exact Hw).
  destruct (@span_unique _ _ d 125%N _ _ (Hr _ Hws2) (Hr _ Hws2') Hd eq_refl E4)
    as (_ & -> & E5).
  apply (f_equal (@rev _)) in E5. rewrite !rev_involutive in E5.
  rewrite Hy, E5. rewrite <- !app_assoc. reflexivity.
Qed.

(** The search finds nothing, or the body when it is an object. *)
Lemma search_between_markers o c a x y d :
  o = [] \/ opening_marker o -> c = [] \/ closing_marker c ->
  no_backtick (a :: x) = true -> a :: x = y ++ [d] ->
  is_space a = false -> a <> 106%N -> is_space d = false ->
  search fence_re (o ++ (a :: x) ++ c) = None \/
  (braced (a :: x) /\
   exists e, search fence_re (o ++ (a :: x) ++ c) = Some (e, Some (a :: x))).
Proof.
  intros Ho Hc Hb Hy Ha Hj Hd. unfold search.
  pose proof (ticks_no_backtick _ Hb) as Tb.
  assert (To : o = [] \/ exists tag ws, is_tag tag /\ all_space ws /\
                                          o = fence ++ tag ++ ws) by exact Ho.
  assert (Tc : c = [] \/ exists ws, all_space ws /\ c = ws ++ fence) by exact Hc.
  destruct To as [-> | (tag & ws1 & Htag & Hws1 & ->)].
  { left. apply search_few_ticks.
    change ([] ++ (a :: x) ++ c) with ((a :: x) ++ c). rewrite ticks_app, Tb.
    destruct Tc as [-> | (ws2 & Hws2 & ->)]; [change (ticks []) with 0; lia |].
    rewrite ticks_app, (ticks_space Hws2). change (ticks fence) with 3. lia. }
  destruct Tc as [-> | (ws2 & Hws2 & ->)].
  { left. apply search_few_ticks. rewrite app_nil_r, !ticks_app, Tb.
    rewrite (ticks_tag Htag), (ticks_space Hws1). change (ticks fence) with 3. lia. }
  rewrite <- !app_assoc.
  destruct (search_from fence_re 0
              (fence ++ tag ++ ws1 ++ (a :: x) ++ ws2 ++ fence)) as [[e og] |] eqn:E;
    [| left; reflexivity].
  right. apply search_from_some in E as (i & _ & Hm & _).
  destruct i as [| i].
  - cbn [skipn] in Hm.
    apply fence_sound in Hm as (g & post & Hg & Hblock & _).
    destruct (@fenced_body _ _ _ _ _ _ _ _ _ Htag Hws1 Hws2 Hb Hy Ha Hj Hd Hblock)
      as [-> Hbr].
    split; [exact Hbr |]. exists e. simpl in Hg. rewrite Hg. reflexivity.
  - exfalso.
    apply fence_sound in Hm as (g & post & _ & Hblock & _).
    apply ticks_fenced_block in Hblock.
    change (fence ++ tag ++ ws1 ++ (a :: x) ++ ws2 ++ fence)
      with (96%N :: ([96; 96]%N ++ tag ++ ws1 ++ (a :: x) ++ ws2 ++ fence)) in Hblock.
    cbn [skipn] in Hblock.
    pose proof (ticks_skipn ([96; 96]%N ++ tag ++ ws1 ++ (a :: x) ++ ws2 ++ fence) i) as Hle.
    rewrite !ticks_app, Tb, (ticks_tag Htag), (ticks_space Hws1),
            (ticks_space Hws2) in Hle.
    change (ticks fence) with 3 in Hle. change (ticks [96; 96]%N) with 2 in Hle.
    lia.
Qed.

Lemma normalize_between_markers t o c a x y d :
  o = [] \/ opening_marker o -> c = [] \/ closing_marker c ->
  no_backtick (a :: x) = true -> a :: x = y ++ [d] ->
  is_space a = false -> a <> 106%N -> is_space d = false ->
  strip t = o ++ (a :: x) ++ c ->
  normalize t = a :: x.
Proof.
  intros Ho Hc Hb Hy Ha Hj Hd Hs. unfold normalize. rewrite Hs.
  destruct (@search_between_markers _ _ _ _ _ _ Ho Hc Hb Hy Ha Hj Hd)
    as [-> | ([body Hbr] & e & ->)].
  - assert (Hl : sub_empty lead_re (o ++ (a :: x) ++ c) = (a :: x) ++ c).
    { destruct Ho as [-> | (tag & ws & Htag & Hws & ->)].
      - apply sub_lead_no_marker. exact (no_backtick_head _ Hb).
      - rewrite <- !app_assoc. apply sub_lead_marker; assumption. }
    rewrite Hl.
    destruct Hc as [-> | (ws & Hws & ->)].
    + rewrite app_nil_r.
      apply (@sub_none trail_re _ trail_no_match_plain Hb).
    + rewrite Hy in Hb |- *. apply sub_trail_marker; assumption.
  - rewrite Hbr. apply normalize_braced.
Qed.

End MarkerFacts.

(** X19.  A reply whose stripped text is a body without backtick between an
    opening marker (a fence, the optional tag, whitespace), a closing marker
    (whitespace, a fence), both or neither: the markers present are removed
    and the body is what is decoded.  The body starts and ends on a
    character that is not whitespace and does not start with [j]. *)
Theorem fence_markers_are_removed cfg t o c a x y d :
  o = [] \/ opening_marker o ->
  c = [] \/ closing_marker c ->
  no_backtick (a :: x) = true ->
  a :: x = y ++ [d] ->
  is_space a = false -> a <> 106%N -> is_space d = false ->
  strip t = o ++ (a :: x) ++ c ->
  normalize t = a :: x /\ parse_json_response cfg t = decode cfg (a :: x).
Proof.
  intros Ho Hc Hb Hy Ha Hj Hd Hs.
  pose proof (@MarkerFacts.normalize_between_markers
                _ _ _ _ _ _ _ Ho Hc Hb Hy Ha Hj Hd Hs) as Hn.
  split; [exact Hn |]. unfold parse_json_response, decode. rewrite Hn. reflexivity.
Qed.

Lemma X19_witness :
  parse_json_response (config true None None) fenced_array
  = decode (config true None None) (lit "[1, 2]").
Proof.
  refine (proj2 (@fence_markers_are_removed (config true None None) fenced_array
                   (lit "```json" ++ [10%N]) ([10%N] ++ lit "```")
                   91%N (lit "1, 2]") (lit "[1, 2") 93%N _ _ _ _ _ _ _ _)).
  - right. exists (lit "json"), [10%N].
    split; [right; reflexivity | split; reflexivity].
  - right. exists [10%N]. split; reflexivity.
  - reflexivity.
  - reflexivity.
  - reflexivity.
  - discriminate.
  - reflexivity.
  - reflexivity.
Defined.
